(** * Accounting core of the DCA portfolio monitor (src/portfolio_dca.py)

    A shallow embedding of [DataManager.carregar_operacoes] and of the
    [AnalysisEngine] static methods ([calcular_saldo_usdt], [_analisar_moeda],
    [calcular_portfolio], [calcular_distribuicao_portfolio]).

    Numbers.
    - [decimal.Decimal] is embedded as a signed coefficient with a decimal
      exponent, and every arithmetic operation ends with the rounding of the
      default context (28 significant digits, ROUND_HALF_EVEN).  Only finite
      values are embedded (no NaN, no infinity, no negative zero), and the
      exponent limits of the context (Emax = 999999) are not.  Results agree
      with Python up to the number of trailing zeros of the coefficient, which
      neither comparisons nor [float()] observe.
    - A Python [float] is the rational it denotes, and every operation that
      produces one ([float()] of a Decimal, [+], [-], [*], [/]) rounds the
      exact result to the nearest binary64 value, ties to even.  The exponent
      range is not bounded: overflow, infinities, NaN and the loss of
      precision below 2^-1022 are not embedded.  A float read from the record
      store is kept as the decimal numeral that [str()] prints for it, which is
      what [Decimal(str(x))] reads back.
    Python dictionaries whose iteration order matters are association lists
    in insertion order. *)

From Stdlib Require Import ZArith QArith Qcanon Qround Qabs Qpower.
From Stdlib Require Import List String Ascii Bool Lia Lqa.
From Stdlib Require Import Permutation Sorted.
Import ListNotations.

Local Open Scope string_scope.
Local Open Scope list_scope.
Local Open Scope Z_scope.

(** ** Exceptions *)

Inductive exn : Type :=
| InvalidOperation   (* decimal.InvalidOperation *)
| DivisionByZero.    (* decimal.DivisionByZero *)

Inductive result (A : Type) : Type :=
| Ok (a : A)
| Raise (e : exn).

Arguments Ok {A} a.
Arguments Raise {A} e.

Definition bind {A B : Type} (m : result A) (k : A -> result B) : result B :=
  match m with
  | Ok a => k a
  | Raise e => Raise e
  end.

Notation "x <- m ;; k" := (bind m (fun x => k))
  (at level 61, m at next level, right associativity).

(** Left-to-right loop whose body may raise: the first exception ends it. *)
Fixpoint foldM {A B : Type} (f : A -> B -> result A) (l : list B) (a : A) : result A :=
  match l with
  | [] => Ok a
  | b :: l' => a' <- f a b ;; foldM f l' a'
  end.

(** ** decimal.Decimal, default context *)

Module Dec.

Record dec : Type := mk { coef : Z; expo : Z }.

Definition prec : Z := 28.

Definition zero : dec := mk 0 0.

(** [len(str(n))] for [n >= 0].  The fuel is [n] in binary: a decimal digit
    takes more than one bit, so it never runs out. *)
Fixpoint ndigits_fuel (fuel : positive) (n : Z) : Z :=
  if n <? 10 then 1
  else match fuel with
       | xH => 1
       | xO p | xI p => 1 + ndigits_fuel p (n / 10)
       end.

Definition ndigits (n : Z) : Z :=
  match n with
  | Zpos p => ndigits_fuel p n
  | _ => 1
  end.

(** [Decimal._fix]: round the coefficient to [prec] digits, half to even. *)
Definition fix_ (d : dec) : dec :=
  let a := Z.abs (coef d) in
  let n := ndigits a in
  if n <=? prec then d
  else
    let k := n - prec in
    let q := a / 10 ^ k in
    let r := a mod 10 ^ k in
    let half := 5 * 10 ^ (k - 1) in
    let q' := if (half <? r) || ((r =? half) && Z.odd q) then q + 1 else q in
    if prec <? ndigits q'
    then mk (Z.sgn (coef d) * (q' / 10)) (expo d + k + 1)
    else mk (Z.sgn (coef d) * q') (expo d + k).

(** Both coefficients at the smaller exponent. *)
Definition align (a b : dec) : Z * Z * Z :=
  let e := Z.min (expo a) (expo b) in
  (coef a * 10 ^ (expo a - e), coef b * 10 ^ (expo b - e), e).

Definition add (a b : dec) : dec :=
  let '(x, y, e) := align a b in fix_ (mk (x + y) e).

Definition sub (a b : dec) : dec :=
  let '(x, y, e) := align a b in fix_ (mk (x - y) e).

Definition mul (a b : dec) : dec :=
  fix_ (mk (coef a * coef b) (expo a + expo b)).

(** [Decimal.__truediv__]: [prec + 1] digits of quotient, a sticky digit when
    the division is inexact, then [_fix]. *)
Definition div (a b : dec) : result dec :=
  if coef b =? 0 then
    Raise (if coef a =? 0 then InvalidOperation else DivisionByZero)
  else if coef a =? 0 then Ok (mk 0 (expo a - expo b))
  else
    let x := Z.abs (coef a) in
    let y := Z.abs (coef b) in
    let shift := ndigits y - ndigits x + prec + 1 in
    let e := expo a - expo b - shift in
    let num := if 0 <=? shift then x * 10 ^ shift else x in
    let den := if 0 <=? shift then y else y * 10 ^ (- shift) in
    let q := num / den in
    let r := num mod den in
    let q' := if (negb (r =? 0)) && (q mod 5 =? 0) then q + 1 else q in
    Ok (fix_ (mk (Z.sgn (coef a) * Z.sgn (coef b) * q') e)).

Definition compare (a b : dec) : comparison :=
  let '(x, y, _) := align a b in Z.compare x y.

Definition gtb (a b : dec) : bool :=
  match compare a b with Gt => true | _ => false end.

Definition leb (a b : dec) : bool := negb (gtb a b).

(** Comparison with the integer literal [0]. *)
Definition gt0 (a : dec) : bool := 0 <? coef a.
Definition le0 (a : dec) : bool := coef a <=? 0.

(** The rational a decimal denotes. *)
Definition to_Q (d : dec) : Q :=
  if 0 <=? expo d
  then inject_Z (coef d * 10 ^ expo d)
  else Qmake (coef d) (Z.to_pos (10 ^ (- expo d))).

End Dec.

(** ** float *)

(** Rounding to binary64: 53 bits of significand, nearest, ties to even. *)
Module Bin64.

(** The nearest integer, the even one of two at the same distance. *)
Definition rne (y : Q) : Z :=
  let q := Qfloor y in
  match (y - inject_Z q ?= 1 # 2)%Q with
  | Lt => q
  | Gt => q + 1
  | Eq => if Z.even q then q else q + 1
  end.

(** The exponent [e] of the unit in the last place of a positive [x]:
    [2^52 <= x / 2^e < 2^53]. *)
Definition expoente (x : Q) : Z :=
  let k := Z.log2 (Qnum x) - Z.log2 (Zpos (Qden x)) in
  match (x ?= 2 ^ k)%Q with
  | Lt => k - 53
  | _ => k - 52
  end.

Definition arredondar_pos (x : Q) : Q :=
  let e := expoente x in
  (inject_Z (rne (x * 2 ^ (- e))) * 2 ^ e)%Q.

Definition arredondar (x : Q) : Q :=
  match (x ?= 0)%Q with
  | Eq => 0%Q
  | Gt => arredondar_pos x
  | Lt => (- arredondar_pos (- x))%Q
  end.

End Bin64.

Definition float : Type := Qc.

(** The float nearest to a real number. *)
Definition fl (x : Qc) : float := Q2Qc (Bin64.arredondar x).

(** The four operations of floats. *)
Definition fadd (a b : float) : float := fl (a + b)%Qc.
Definition fsub (a b : float) : float := fl (a - b)%Qc.
Definition fmul (a b : float) : float := fl (a * b)%Qc.
Definition fdiv (a b : float) : float := fl (a / b)%Qc.

(** Half a unit in the last place of 1: the relative error of one rounding. *)
Definition u53 : Qc := Q2Qc (2 ^ (- 53)).

(** [float(d)] for a Decimal [d]. *)
Definition float_of_dec (d : Dec.dec) : float := fl (Q2Qc (Dec.to_Q d)).

Definition float_gtb (a b : float) : bool :=
  match (a ?= b)%Qc with Gt => true | _ => false end.

Definition float_abs (a : float) : float :=
  if float_gtb 0%Qc a then (- a)%Qc else a.

(** The literals [0.01], [1e-9] and [100]. *)
Definition f_0_01 : float := fl (Q2Qc (1 # 100)).
Definition f_1e_9 : float := fl (Q2Qc (1 # 1000000000)).
Definition f_100 : float := Q2Qc (100 # 1).

(** ** Text *)

Definition is_space (c : ascii) : bool :=
  let n := Z.of_N (N_of_ascii c) in
  (n =? 32) || ((9 <=? n) && (n <=? 13)).

Fixpoint lstrip (s : string) : string :=
  match s with
  | String c s' => if is_space c then lstrip s' else s
  | EmptyString => s
  end.

Fixpoint rstrip (s : string) : string :=
  match s with
  | String c s' =>
      let r := rstrip s' in
      if (r =? "")%string && is_space c then "" else String c r
  | EmptyString => s
  end.

Definition lower_char (c : ascii) : ascii :=
  let n := N_of_ascii c in
  if ((65 <=? n) && (n <=? 90))%N then ascii_of_N (n + 32) else c.

(** [str.lower()] on the ASCII letters (no other character lowers to one). *)
Fixpoint lower (s : string) : string :=
  match s with
  | String c s' => String (lower_char c) (lower s')
  | EmptyString => s
  end.

Definition digit (c : ascii) : option Z :=
  let n := Z.of_N (N_of_ascii c) in
  if (48 <=? n) && (n <=? 57) then Some (n - 48) else None.

(** A run of digits: the value accumulated, how many were read, the rest. *)
Fixpoint digits (s : string) (acc len : Z) : Z * Z * string :=
  match s with
  | String c s' =>
      match digit c with
      | Some v => digits s' (10 * acc + v) (len + 1)
      | None => (acc, len, s)
      end
  | EmptyString => (acc, len, s)
  end.

Definition sign (s : string) : Z * string :=
  match s with
  | String "-" s' => (-1, s')
  | String "+" s' => (1, s')
  | _ => (1, s)
  end.

(** The finite decimal numerals that both [float(s)] and [Decimal(s)] accept:
    optional sign, digits with an optional fraction, optional exponent,
    surrounded by optional white space.  (Underscores and the spellings of
    infinity and NaN are outside the embedding.) *)
Definition numeral (s : string) : option Dec.dec :=
  let '(sg, s1) := sign (rstrip (lstrip s)) in
  let '(ip, n1, s2) := digits s1 0 0 in
  let '(m, n2, s3) :=
    match s2 with
    | String "." s' => digits s' ip 0
    | _ => (ip, 0, s2)
    end in
  if n1 + n2 =? 0 then None
  else match s3 with
       | EmptyString => Some (Dec.mk (sg * m) (- n2))
       | String c s4 =>
           if (c =? "e")%char || (c =? "E")%char then
             let '(se, s5) := sign s4 in
             let '(ex, n3, s6) := digits s5 0 0 in
             if (n3 =? 0) || negb (s6 =? "")%string then None
             else Some (Dec.mk (sg * m) (se * ex - n2))
           else None
       end.

(** [Decimal(str(x))] for a value read from a text cell ([None] prints as
    the word None, which is no numeral). *)
Definition Decimal_str (x : option string) : result Dec.dec :=
  match x with
  | Some s =>
      match numeral s with
      | Some d => Ok d
      | None => Raise InvalidOperation
      end
  | None => Raise InvalidOperation
  end.

(** [Decimal(str(x))] for a float [x]: the numeral that [str] prints, read
    back digit for digit. *)
Definition Decimal_float (x : Dec.dec) : Dec.dec := x.

(** ** Records *)

(** A row as [csv.DictReader] yields it: a cell is [None] when the row is
    shorter than the header (or the column is absent). *)
Record linha : Type := mk_linha {
  cel_Data : option string;
  cel_Moeda : option string;
  cel_Operacao : option string;
  cel_Valor_USDT : option string;
  cel_Preco : option string;
  cel_Quantidade : option string
}.

(** A row after [carregar_operacoes]: the two converted cells hold floats,
    the others still hold the text of the file. *)
Record operacao : Type := mk_operacao {
  Data : string;
  Moeda : string;
  Operacao : string;
  Valor_USDT : Dec.dec;
  Preco : option string;
  Quantidade : Dec.dec
}.

(** ** DataManager.carregar_operacoes *)

(** [campo not in linha or not linha[campo]] is false. *)
Definition preenchido (c : option string) : option string :=
  match c with
  | Some s => if (s =? "")%string then None else Some s
  | None => None
  end.

Definition in_strings (s : string) (l : list string) : bool :=
  existsb (String.eqb s) l.

(** The body of the loop: [Some] is the appended row, [None] a row that
    raised and was logged and skipped. *)
Definition validar_linha (l : linha) : option operacao :=
  match preenchido (cel_Data l), preenchido (cel_Moeda l),
        preenchido (cel_Operacao l), preenchido (cel_Quantidade l),
        preenchido (cel_Valor_USDT l) with
  | Some d, Some m, Some o, Some q, Some v =>
      match numeral q, numeral v with
      | Some q', Some v' =>
          if in_strings (lower o) ["compra"; "venda"]
          then Some (mk_operacao d m o v' (cel_Preco l) q')
          else None
      | _, _ => None
      end
  | _, _, _, _, _ => None
  end.

Fixpoint filter_map {A B : Type} (f : A -> option B) (l : list A) : list B :=
  match l with
  | [] => []
  | a :: l' =>
      match f a with
      | Some b => b :: filter_map f l'
      | None => filter_map f l'
      end
  end.

(** [arquivo] is [None] when the file cannot be opened or read. *)
Definition carregar_operacoes (arquivo : option (list linha)) : list operacao :=
  match arquivo with
  | Some linhas => filter_map validar_linha linhas
  | None => []
  end.

(** ** sorted(operacoes, key=lambda x: x['Data']) *)

(** Stable: a row goes before the rows that follow it in the input and have
    an equal or later timestamp. *)
Fixpoint insert_by_data (x : operacao) (l : list operacao) : list operacao :=
  match l with
  | [] => [x]
  | y :: l' =>
      if (Data x <=? Data y)%string then x :: l
      else y :: insert_by_data x l'
  end.

Fixpoint sorted_by_data (l : list operacao) : list operacao :=
  match l with
  | [] => []
  | x :: l' => insert_by_data x (sorted_by_data l')
  end.

(** ** Dictionaries in insertion order *)

Definition dict (V : Type) : Type := list (string * V).

Fixpoint dict_get {V : Type} (k : string) (d : dict V) : option V :=
  match d with
  | [] => None
  | (k', v) :: d' => if (k =? k')%string then Some v else dict_get k d'
  end.

(** [d[k] = v]: an existing key keeps its place, a new one goes last. *)
Fixpoint dict_set {V : Type} (k : string) (v : V) (d : dict V) : dict V :=
  match d with
  | [] => [(k, v)]
  | (k', v') :: d' =>
      if (k =? k')%string then (k, v) :: d' else (k', v') :: dict_set k v d'
  end.

Definition keys {V : Type} (d : dict V) : list string := map fst d.

(** ** AnalysisEngine.calcular_saldo_usdt *)

(** An entry of [historico_movimentacao]; [mov_moeda] is present on the two
    crypto kinds only.  The display text ['descricao'] is left out. *)
Record movimento : Type := mk_movimento {
  mov_data : string;
  mov_tipo : string;
  mov_moeda : option string;
  mov_valor : float;
  mov_saldo_apos : float
}.

Record saldo_info : Type := mk_saldo_info {
  saldo_atual : float;
  historico : list movimento
}.

(** One turn of the loop over the sorted rows, on the pair
    [(saldo_usdt, historico_movimentacao)]. *)
Definition passo_saldo (st : Dec.dec * list movimento) (op : operacao)
  : Dec.dec * list movimento :=
  let '(saldo_usdt, historico_movimentacao) := st in
  let valor_usdt := Decimal_float (Valor_USDT op) in
  let moeda := Moeda op in
  let tipo := Operacao op in
  if (moeda =? "USDT")%string then
    if (tipo =? "compra")%string then
      let saldo_usdt := Dec.add saldo_usdt valor_usdt in
      (saldo_usdt,
       historico_movimentacao ++
         [mk_movimento (Data op) "deposito_usdt" None
            (float_of_dec valor_usdt) (float_of_dec saldo_usdt)])
    else if (tipo =? "venda")%string then
      let saldo_usdt := Dec.sub saldo_usdt valor_usdt in
      (saldo_usdt,
       historico_movimentacao ++
         [mk_movimento (Data op) "saque_usdt" None
            (float_of_dec valor_usdt) (float_of_dec saldo_usdt)])
    else st
  else
    if (tipo =? "compra")%string then
      let saldo_usdt := Dec.sub saldo_usdt valor_usdt in
      (saldo_usdt,
       historico_movimentacao ++
         [mk_movimento (Data op) "compra_crypto" (Some moeda)
            (float_of_dec valor_usdt) (float_of_dec saldo_usdt)])
    else if (tipo =? "venda")%string then
      let saldo_usdt := Dec.add saldo_usdt valor_usdt in
      (saldo_usdt,
       historico_movimentacao ++
         [mk_movimento (Data op) "venda_crypto" (Some moeda)
            (float_of_dec valor_usdt) (float_of_dec saldo_usdt)])
    else st.

Definition replay_saldo (ops : list operacao) : Dec.dec * list movimento :=
  fold_left passo_saldo (sorted_by_data ops) (Dec.zero, []).

Definition calcular_saldo_usdt (operacoes : list operacao) : saldo_info :=
  let '(saldo_usdt, historico_movimentacao) := replay_saldo operacoes in
  mk_saldo_info (float_of_dec saldo_usdt) historico_movimentacao.

(** ** AnalysisEngine._analisar_moeda *)

(** What an entry of [operacoes_processadas] carries besides the common keys. *)
Inductive anotacao : Type :=
| pmc_apos (x : float)
| erro (msg : string)
| lucro (x : float).

Record processada : Type := mk_processada {
  proc_tipo : string;
  proc_data : string;
  proc_quantidade : float;
  proc_preco : float;
  proc_valor : float;
  proc_anotacao : anotacao
}.

(** The local variables of the loop; [lucro_realizado_acc] is the local
    [lucro_realizado], whose name the snapshot needs for its own key. *)
Record acumulador : Type := mk_acumulador {
  custo_total : Dec.dec;
  quantidade_total : Dec.dec;
  lucro_realizado_acc : Dec.dec;
  pmc : Dec.dec;
  operacoes_processadas : list processada
}.

Definition acumulador_inicial : acumulador :=
  mk_acumulador Dec.zero Dec.zero Dec.zero Dec.zero [].

(** The body of [for op in ops]: the three conversions first, of which the
    one of the price cell can raise, then the purchase, the sale that is
    turned down, the sale that is carried out, or nothing for any other
    operation kind. *)
Definition passo_moeda (st : acumulador) (op : operacao) : result acumulador :=
  let valor := Decimal_float (Valor_USDT op) in
  preco <- Decimal_str (Preco op) ;;
  let qtd := Decimal_float (Quantidade op) in
  if (Operacao op =? "compra")%string then
    let custo_total' := Dec.add (custo_total st) valor in
    let quantidade_total' := Dec.add (quantidade_total st) qtd in
    pmc' <- (if Dec.gt0 quantidade_total'
             then Dec.div custo_total' quantidade_total'
             else Ok Dec.zero) ;;
    Ok (mk_acumulador custo_total' quantidade_total' (lucro_realizado_acc st) pmc'
          (operacoes_processadas st ++
             [mk_processada "compra" (Data op) (float_of_dec qtd)
                (float_of_dec preco) (float_of_dec valor)
                (pmc_apos (float_of_dec pmc'))]))
  else if (Operacao op =? "venda")%string then
    if Dec.le0 (quantidade_total st) || Dec.le0 (pmc st) then
      Ok (mk_acumulador (custo_total st) (quantidade_total st)
            (lucro_realizado_acc st) (pmc st)
            (operacoes_processadas st ++
               [mk_processada "venda" (Data op) (float_of_dec qtd)
                  (float_of_dec preco) (float_of_dec valor)
                  (erro "Venda sem posição prévia")]))
    else
      let custo_da_venda := Dec.mul qtd (pmc st) in
      let lucro_venda := Dec.sub valor custo_da_venda in
      Ok (mk_acumulador
            (Dec.sub (custo_total st) custo_da_venda)
            (Dec.sub (quantidade_total st) qtd)
            (Dec.add (lucro_realizado_acc st) lucro_venda)
            (pmc st)
            (operacoes_processadas st ++
               [mk_processada "venda" (Data op) (float_of_dec qtd)
                  (float_of_dec preco) (float_of_dec valor)
                  (lucro (float_of_dec lucro_venda))]))
  else Ok st.

Record analise : Type := mk_analise {
  operacoes : list processada;
  quantidade_final : float;
  pmc_final : float;
  custo_posicao_final : float;
  valor_atual_posicao : float;
  lucro_realizado : float;
  lucro_nao_realizado : float;
  lucro_total : float;
  preco_de_mercado : float
}.

(** The statements after the loop. *)
Definition fechar (st : acumulador) (preco_atual : float) : analise :=
  let qtd_final := float_of_dec (quantidade_total st) in
  let custo_final :=
    if Dec.gtb (quantidade_total st) (Dec.mk 1 (-9))
    then float_of_dec (custo_total st) else 0%Qc in
  let valor_atual :=
    if float_gtb preco_atual 0%Qc then fmul qtd_final preco_atual else 0%Qc in
  let lucro_nao_realizado :=
    if float_gtb qtd_final f_1e_9 then fsub valor_atual custo_final else 0%Qc in
  mk_analise (operacoes_processadas st) qtd_final (float_of_dec (pmc st))
    custo_final valor_atual (float_of_dec (lucro_realizado_acc st))
    lucro_nao_realizado
    (fadd (float_of_dec (lucro_realizado_acc st)) lucro_nao_realizado)
    preco_atual.

Definition _analisar_moeda (ops : list operacao) (preco_atual : float)
  : result analise :=
  st <- foldM passo_moeda ops acumulador_inicial ;;
  Ok (fechar st preco_atual).

(** ** Grouping by asset *)

(** [precos_atuais.get(moeda, 0)] *)
Definition preco_de (precos_atuais : dict float) (moeda : string) : float :=
  match dict_get moeda precos_atuais with
  | Some p => p
  | None => 0%Qc
  end.

(** [ops_por_moeda[op['Moeda']].append(op)] on a [defaultdict(list)], the
    reference currency skipped. *)
Definition agrupar (d : dict (list operacao)) (op : operacao)
  : dict (list operacao) :=
  if (Moeda op =? "USDT")%string then d
  else match dict_get (Moeda op) d with
       | Some ops => dict_set (Moeda op) (ops ++ [op]) d
       | None => dict_set (Moeda op) [op] d
       end.

Definition ops_por_moeda (operacoes : list operacao) : dict (list operacao) :=
  fold_left agrupar (sorted_by_data operacoes) [].

(** ** AnalysisEngine.calcular_portfolio *)

Record totais : Type := mk_totais {
  tot_investido_liquido : float;
  tot_realizado : float;
  tot_nao_realizado : float;
  tot_valor_atual : float
}.

(** The values of the result: a position, the cash line (its [operacoes]
    list is empty), the totals. *)
Inductive entrada : Type :=
| Posicao (a : analise)
| Caixa (quantidade_final valor_atual_posicao
         lucro_realizado lucro_nao_realizado lucro_total : float)
| Totais (t : totais).

Definition passo_portfolio (precos_atuais : dict float)
    (st : dict entrada * totais) (kv : string * list operacao)
  : result (dict entrada * totais) :=
  let '(resultado, tot) := st in
  let '(moeda, ops) := kv in
  analise_moeda <- _analisar_moeda ops (preco_de precos_atuais moeda) ;;
  if float_gtb (valor_atual_posicao analise_moeda) f_0_01
     || float_gtb (float_abs (lucro_realizado analise_moeda)) f_0_01
  then
    Ok (dict_set moeda (Posicao analise_moeda) resultado,
        mk_totais
          (fadd (tot_investido_liquido tot) (custo_posicao_final analise_moeda))
          (fadd (tot_realizado tot) (lucro_realizado analise_moeda))
          (fadd (tot_nao_realizado tot) (lucro_nao_realizado analise_moeda))
          (fadd (tot_valor_atual tot) (valor_atual_posicao analise_moeda)))
  else Ok st.

Definition calcular_portfolio (operacoes : list operacao)
    (precos_atuais : dict float) : result (dict entrada) :=
  match operacoes with
  | [] => Ok []
  | _ =>
      let saldo_caixa_usdt := saldo_atual (calcular_saldo_usdt operacoes) in
      st <- foldM (passo_portfolio precos_atuais) (ops_por_moeda operacoes)
              ([], mk_totais 0%Qc 0%Qc 0%Qc 0%Qc) ;;
      let '(resultado, tot) := st in
      let tot := mk_totais (tot_investido_liquido tot) (tot_realizado tot)
                   (tot_nao_realizado tot)
                   (fadd (tot_valor_atual tot) saldo_caixa_usdt) in
      let resultado :=
        if float_gtb saldo_caixa_usdt f_0_01
        then dict_set "USDT (Caixa)"
               (Caixa saldo_caixa_usdt saldo_caixa_usdt 0%Qc 0%Qc 0%Qc) resultado
        else resultado in
      Ok (dict_set "totais" (Totais tot) resultado)
  end.

(** ** AnalysisEngine.calcular_distribuicao_portfolio *)

(** ['percentual'] is absent until the last loop sets it. *)
Record alocacao : Type := mk_alocacao {
  valor_atual : float;
  quantidade : float;
  percentual : option float
}.

(** The empty log answers with the key ['total_valor_portfolio'], any other
    with ['total_investido']. *)
Record distribuicao_info : Type := mk_distribuicao_info {
  distribuicao : dict alocacao;
  total_valor_portfolio : option float;
  total_investido : option float
}.

Definition passo_distribuicao (precos_atuais : dict float)
    (st : dict alocacao * float) (kv : string * list operacao)
  : result (dict alocacao * float) :=
  let '(distribuicao, total_valor_crypto) := st in
  let '(moeda, ops) := kv in
  analise <- _analisar_moeda ops (preco_de precos_atuais moeda) ;;
  let quantidade_final := quantidade_final analise in
  let valor_de_mercado := valor_atual_posicao analise in
  if float_gtb valor_de_mercado f_0_01 then
    Ok (dict_set moeda (mk_alocacao valor_de_mercado quantidade_final None)
          distribuicao,
        fadd total_valor_crypto valor_de_mercado)
  else Ok st.

(** The body of [for moeda in distribuicao]. *)
Definition definir_percentual (valor_total_portfolio : float) (a : alocacao)
  : alocacao :=
  mk_alocacao (valor_atual a) (quantidade a)
    (Some (if float_gtb valor_total_portfolio 0%Qc
           then fmul (fdiv (valor_atual a) valor_total_portfolio) f_100
           else 0%Qc)).

Definition calcular_distribuicao_portfolio (operacoes : list operacao)
    (precos_atuais : dict float) : result distribuicao_info :=
  match operacoes with
  | [] => Ok (mk_distribuicao_info [] (Some 0%Qc) None)
  | _ =>
      let saldo_usdt := saldo_atual (calcular_saldo_usdt operacoes) in
      st <- foldM (passo_distribuicao precos_atuais) (ops_por_moeda operacoes)
              ([], 0%Qc) ;;
      let '(distribuicao, total_valor_crypto) := st in
      let valor_total_portfolio := fadd total_valor_crypto saldo_usdt in
      let distribuicao :=
        if float_gtb saldo_usdt f_0_01
        then dict_set "USDT" (mk_alocacao saldo_usdt saldo_usdt None) distribuicao
        else distribuicao in
      Ok (mk_distribuicao_info
            (map (fun kv => (fst kv, definir_percentual valor_total_portfolio (snd kv)))
               distribuicao)
            None (Some total_valor_crypto))
  end.

(** * The functions around the core *)

(** ** AnalysisEngine.validar_saldo_suficiente *)

(** [a >= b] on floats. *)
Definition float_geb (a b : float) : bool := negb (float_gtb b a).

Record validacao : Type := mk_validacao {
  saldo_suficiente : bool;
  val_saldo_atual : float;     (* the key 'saldo_atual' *)
  valor_necessario : float;
  diferenca : float
}.

Definition validar_saldo_suficiente (operacoes : list operacao)
    (nova_compra_valor : float) : validacao :=
  let saldo_info := calcular_saldo_usdt operacoes in
  let saldo_atual := saldo_atual saldo_info in
  mk_validacao (float_geb saldo_atual nova_compra_valor) saldo_atual
    nova_compra_valor (fsub saldo_atual nova_compra_valor).

(** ** PriceManager *)

(** What one call of [exchange.fetch_ticker] comes to: a ticker with or
    without a usable ['last'], or an exception (also the one [float()] would
    raise on an unusable ['last']). *)
Inductive resposta : Type :=
| Ticker (last : option float)
| Falha.

(** The attributes of the object; [exchange] tells whether one was set up,
    a time is the text of the clock. *)
Record PriceManager : Type := mk_PriceManager {
  exchange : bool;
  precos_cache : dict float;
  ultima_atualizacao : option string;
  preco_brl : float
}.

(** One turn of [for moeda in moedas], on the cache and [todos_sucesso]. *)
Definition atualizar_moeda (fetch_ticker : string -> resposta)
    (st : dict float * bool) (moeda : string) : dict float * bool :=
  let '(cache, todos_sucesso) := st in
  if (moeda =? "USDT")%string then (dict_set "USDT" 1%Qc cache, todos_sucesso)
  else match fetch_ticker (moeda ++ "/USDT")%string with
       | Ticker (Some last_price) => (dict_set moeda last_price cache, todos_sucesso)
       | Ticker None => (cache, false)
       | Falha => (cache, false)
       end.

(** [agora] is what [datetime.now()] answers; the exchange answers a symbol
    the same way throughout one call. *)
Definition atualizar_precos (self : PriceManager)
    (fetch_ticker : string -> resposta) (agora : string) (moedas : list string)
  : bool * PriceManager :=
  if negb (exchange self) then (false, self)
  else
    let '(cache, todos_sucesso) :=
      fold_left (atualizar_moeda fetch_ticker) moedas (precos_cache self, true) in
    let '(brl, todos_sucesso) :=
      match fetch_ticker "USDT/BRL" with
      | Ticker (Some last_price_brl) => (last_price_brl, todos_sucesso)
      | Ticker None => (preco_brl self, false)
      | Falha => (preco_brl self, false)
      end in
    (todos_sucesso,
     mk_PriceManager (exchange self) cache
       (if todos_sucesso then Some agora else ultima_atualizacao self) brl).

Definition get_preco (self : PriceManager) (moeda : string) : option float :=
  dict_get moeda (precos_cache self).

(** ** DataManager: the operations that write the file *)

(** The file is the list of rows [csv.DictReader] yields for it under the
    header of [self.headers] ([None]: there is no file).  The csv layer is
    taken to hand back the cell texts it was given; a write that the disk
    refuses, and rows with more cells than the header, are not embedded. *)

(** A value of a row dictionary or of a row list: text, float or [None]. *)
Inductive celula : Type :=
| Texto (s : string)
| Numero (x : Dec.dec)
| Nada.

(** A dictionary with the six keys of the header. *)
Record registro : Type := mk_registro {
  reg_Data : celula;
  reg_Moeda : celula;
  reg_Operacao : celula;
  reg_Valor_USDT : celula;
  reg_Preco : celula;
  reg_Quantidade : celula
}.

(** The dictionary [carregar_operacoes] hands over for a row. *)
Definition registro_de (op : operacao) : registro :=
  mk_registro (Texto (Data op)) (Texto (Moeda op)) (Texto (Operacao op))
    (Numero (Valor_USDT op))
    (match Preco op with Some s => Texto s | None => Nada end)
    (Numero (Quantidade op)).

(** [del l[i]] and [l[i] = x] for an index within bounds. *)
Definition remover {A : Type} (i : nat) (l : list A) : list A :=
  firstn i l ++ skipn (S i) l.

Definition substituir {A : Type} (i : nat) (x : A) (l : list A) : list A :=
  firstn i l ++ x :: skipn (S i) l.

Section Escrita.

(** [str(x)] for a float [x], as the csv writer calls it. *)
Variable str_float : Dec.dec -> string.

(** The text the csv writer puts in a cell. *)
Definition texto_de (c : celula) : string :=
  match c with
  | Texto s => s
  | Numero x => str_float x
  | Nada => ""
  end.

(** [DictWriter.writerow], read back. *)
Definition escrever_registro (r : registro) : linha :=
  mk_linha (Some (texto_de (reg_Data r))) (Some (texto_de (reg_Moeda r)))
    (Some (texto_de (reg_Operacao r))) (Some (texto_de (reg_Valor_USDT r)))
    (Some (texto_de (reg_Preco r))) (Some (texto_de (reg_Quantidade r))).

(** [csv.writer.writerow] of a list, read back: the cells go to the columns
    by position, and a column past the end of the list reads as [None]. *)
Definition escrever_lista (l : list celula) : linha :=
  let cel (n : nat) := option_map texto_de (nth_error l n) in
  mk_linha (cel 0%nat) (cel 1%nat) (cel 2%nat) (cel 3%nat) (cel 4%nat) (cel 5%nat).

Definition excluir_operacao (indice : Z) (arquivo : option (list linha))
  : bool * option (list linha) :=
  let operacoes := carregar_operacoes arquivo in
  if (indice <? 0) || (Z.of_nat (List.length operacoes) <=? indice)
  then (false, arquivo)
  else (true,
        Some (map escrever_registro
                (remover (Z.to_nat indice) (map registro_de operacoes)))).

Definition atualizar_operacao (indice : Z) (nova_operacao : registro)
    (arquivo : option (list linha)) : bool * option (list linha) :=
  let operacoes := carregar_operacoes arquivo in
  if (indice <? 0) || (Z.of_nat (List.length operacoes) <=? indice)
  then (false, arquivo)
  else (true,
        Some (map escrever_registro
                (substituir (Z.to_nat indice) nova_operacao
                   (map registro_de operacoes)))).

(** [criar_arquivo_se_necessario]: a missing file becomes a header alone. *)
Definition criar_arquivo_se_necessario (arquivo : option (list linha))
  : list linha :=
  match arquivo with
  | Some linhas => linhas
  | None => []
  end.

Definition salvar_operacao (operacao : list celula)
    (arquivo : option (list linha)) : bool * option (list linha) :=
  (true, Some (criar_arquivo_se_necessario arquivo ++ [escrever_lista operacao])).

End Escrita.

(** ** The balance offered for sale *)

(** [saldo_moeda] of [_atualizar_interface_venda] and [saldo_a_vender] of
    [vender_tudo]: [portfolio[moeda].get('quantidade_final', 0)] when the
    asset is a key of the portfolio, 0.0 otherwise. *)
Definition saldo_para_venda (portfolio : dict entrada) (moeda : string) : float :=
  match dict_get moeda portfolio with
  | Some (Posicao a) => quantidade_final a
  | Some (Caixa q _ _ _ _) => q
  | Some (Totais _) => 0%Qc
  | None => 0%Qc
  end.

(** * What the properties are stated with *)

(** ** The ledger as the specification words it *)

(** The four rules of the Ledger Replayer, on a sequence that is already in
    timestamp order. *)
Module Spec.

Inductive kind : Type := BUY | SELL.

Inductive movement : Type := deposit | withdrawal | buy_debit | sell_credit.

Record entry : Type := mk_entry {
  timestamp : string;
  movement_kind : movement;
  asset : option string;
  magnitude : Dec.dec;
  resulting_balance : Dec.dec
}.

Definition kind_of (op : operacao) : option kind :=
  if (Operacao op =? "compra")%string then Some BUY
  else if (Operacao op =? "venda")%string then Some SELL
  else None.

Definition is_reference (op : operacao) : bool := (Moeda op =? "USDT")%string.

(** The new balance and the movement recorded, when a rule applies. *)
Definition rule (balance : Dec.dec) (op : operacao)
  : option (Dec.dec * movement * option string) :=
  match kind_of op, is_reference op with
  | Some BUY, true => Some (Dec.add balance (Valor_USDT op), deposit, None)
  | Some SELL, true => Some (Dec.sub balance (Valor_USDT op), withdrawal, None)
  | Some BUY, false =>
      Some (Dec.sub balance (Valor_USDT op), buy_debit, Some (Moeda op))
  | Some SELL, false =>
      Some (Dec.add balance (Valor_USDT op), sell_credit, Some (Moeda op))
  | None, _ => None
  end.

Fixpoint replay (balance : Dec.dec) (ops : list operacao)
  : Dec.dec * list entry :=
  match ops with
  | [] => (balance, [])
  | op :: rest =>
      match rule balance op with
      | Some (balance', k, tag) =>
          let '(final, entries) := replay balance' rest in
          (final,
           mk_entry (Data op) k tag (Valor_USDT op) balance' :: entries)
      | None => replay balance rest
      end
  end.

End Spec.

(** The name the code gives to a movement. *)
Definition tipo_de (k : Spec.movement) : string :=
  match k with
  | Spec.deposit => "deposito_usdt"
  | Spec.withdrawal => "saque_usdt"
  | Spec.buy_debit => "compra_crypto"
  | Spec.sell_credit => "venda_crypto"
  end.

(** The history entry the code writes for a movement. *)
Definition movimento_de (e : Spec.entry) : movimento :=
  mk_movimento (Spec.timestamp e) (tipo_de (Spec.movement_kind e))
    (Spec.asset e) (float_of_dec (Spec.magnitude e))
    (float_of_dec (Spec.resulting_balance e)).

(** [encadeado b h b']: read from the running balance [b], every entry of
    [h] records the balance before it plus (deposit, sell-credit) or minus
    (withdrawal, buy-debit) its own amount, in the ledger's decimal
    arithmetic; [b'] is the balance the last entry records. *)
Inductive encadeado : Dec.dec -> list movimento -> Dec.dec -> Prop :=
| enc_fim (b : Dec.dec) : encadeado b [] b
| enc_soma (b v : Dec.dec) (e : movimento) (h : list movimento) (b' : Dec.dec) :
    mov_tipo e = "deposito_usdt" \/ mov_tipo e = "venda_crypto" ->
    mov_valor e = float_of_dec v ->
    mov_saldo_apos e = float_of_dec (Dec.add b v) ->
    encadeado (Dec.add b v) h b' ->
    encadeado b (e :: h) b'
| enc_subtrai (b v : Dec.dec) (e : movimento) (h : list movimento) (b' : Dec.dec) :
    mov_tipo e = "saque_usdt" \/ mov_tipo e = "compra_crypto" ->
    mov_valor e = float_of_dec v ->
    mov_saldo_apos e = float_of_dec (Dec.sub b v) ->
    encadeado (Dec.sub b v) h b' ->
    encadeado b (e :: h) b'.

(** ** Timestamps *)

(** [a] is not later than [b]. *)
Definition antes (a b : operacao) : Prop := (Data a <=? Data b)%string = true.

(** The rows of one timestamp, in the order of the list. *)
Definition com_data (t : string) (l : list operacao) : list operacao :=
  filter (fun o => (Data o =? t)%string) l.

(** [l'] lists the rows of every timestamp in the order [l] lists them. *)
Definition mesma_ordem_por_data (l l' : list operacao) : Prop :=
  forall t, com_data t l' = com_data t l.

(** ** Rows and runs of the position accountant *)

(** The price cell holds a numeral. *)
Definition preco_valido (op : operacao) : Prop :=
  exists p, Decimal_str (Preco op) = Ok p.

(** A purchase as the data model has it: a positive quantity, a readable
    price. *)
Definition compra_valida (op : operacao) : Prop :=
  Operacao op = "compra" /\ 0 < Dec.coef (Quantidade op) /\ preco_valido op.

Definition quantidade_valida (op : operacao) : Prop :=
  0 <= Dec.coef (Quantidade op) /\ preco_valido op.

(** The guard of a sale: [quantidade_total <= 0 or pmc <= 0]. *)
Definition sem_posicao (st : acumulador) : bool :=
  Dec.le0 (quantidade_total st) || Dec.le0 (pmc st).

(** The four numbers of the accumulator are those of [st]. *)
Definition mesmos_numeros (st st' : acumulador) : Prop :=
  custo_total st' = custo_total st /\
  quantidade_total st' = quantidade_total st /\
  lucro_realizado_acc st' = lucro_realizado_acc st /\
  pmc st' = pmc st.

(** The accumulator after a sale that is turned down. *)
Definition recusada (st : acumulador) (op : operacao) (p : Dec.dec) : acumulador :=
  mk_acumulador (custo_total st) (quantidade_total st)
    (lucro_realizado_acc st) (pmc st)
    (operacoes_processadas st ++
       [mk_processada "venda" (Data op) (float_of_dec (Quantidade op))
          (float_of_dec p) (float_of_dec (Valor_USDT op))
          (erro "Venda sem posição prévia")]).

(** The accumulator after a purchase whose average cost is [w]. *)
Definition comprada (st : acumulador) (op : operacao) (p w : Dec.dec) : acumulador :=
  mk_acumulador
    (Dec.add (custo_total st) (Valor_USDT op))
    (Dec.add (quantidade_total st) (Quantidade op))
    (lucro_realizado_acc st) w
    (operacoes_processadas st ++
       [mk_processada "compra" (Data op) (float_of_dec (Quantidade op))
          (float_of_dec p) (float_of_dec (Valor_USDT op))
          (pmc_apos (float_of_dec w))]).

(** The amounts and the quantities added up the way the loop does. *)
Definition total (f : operacao -> Dec.dec) (ops : list operacao) : Dec.dec :=
  fold_left (fun acc o => Dec.add acc (f o)) ops Dec.zero.

(** Every sale that is carried out sells at most what is held then. *)
Fixpoint vendas_cobertas (st : acumulador) (ops : list operacao) : bool :=
  match ops with
  | [] => true
  | op :: rest =>
      (if (Operacao op =? "venda")%string && negb (sem_posicao st)
       then Dec.leb (Quantidade op) (quantidade_total st)
       else true)
      && match passo_moeda st op with
         | Ok st' => vendas_cobertas st' rest
         | Raise _ => true
         end
  end.

(** ** Groups and allocations *)

(** No key twice, and the reference currency is no key. *)
Definition chaves_boas {V : Type} (d : dict V) : Prop :=
  NoDup (keys d) /\ ~ In "USDT" (keys d).

Definition grupo_valido (kv : string * list operacao) : Prop :=
  Forall preco_valido (snd kv).

(** The price cells that the aggregator reads hold numerals: those of the
    rows of assets other than USDT. *)
Definition precos_legiveis (ops : list operacao) : Prop :=
  Forall (fun o => Moeda o <> "USDT" -> preco_valido o) ops.

(** The values of the entries added up as the code adds them: from 0, in
    the order of the dictionary, each addition rounded. *)
Definition soma_valor (d : dict alocacao) : float :=
  fold_left (fun acc kv => fadd acc (valor_atual (snd kv))) d 0%Qc.

Definition percentual_de (a : alocacao) : float :=
  match percentual a with
  | Some p => p
  | None => 0%Qc
  end.

(** The sum of the values, as a real number (not rounded). *)
Definition soma_exata (d : dict alocacao) : Qc :=
  fold_right (fun kv acc => (valor_atual (snd kv) + acc)%Qc) 0%Qc d.

(** The sum of the percentages, as a real number (not rounded). *)
Definition soma_percentual (d : dict alocacao) : Qc :=
  fold_right (fun kv acc => (percentual_de (snd kv) + acc)%Qc) 0%Qc d.

(** The floating tolerance of a sum of [n] percentages:
    100 * (n + 3) * 2^-52. *)
Definition tolerancia (n : nat) : Qc :=
  (Q2Qc (inject_Z (200 * (Z.of_nat n + 3))) * u53)%Qc.

(** The portfolio total of the allocation query: crypto total plus cash. *)
Definition total_do_portfolio (ops : list operacao) (r : distribuicao_info) : float :=
  fadd (match total_investido r with
        | Some t => t
        | None => 0%Qc
        end) (saldo_atual (calcular_saldo_usdt ops)).

(** ** Sample rows *)

(** The floats of the samples are written as [str()] prints them:
    [Dec.mk 5000 (-1)] is 500.0 and [Dec.mk 1 (-2)] is 0.01. *)

Definition float_of_Z (z : Z) : float := Q2Qc (inject_Z z).

(** Scenario A of the specification: deposit 1000, buy 0.01 BTC for 500 at
    50000, sell 0.01 BTC for 600 at 60000. *)
Definition cenario_A : list operacao :=
  [ mk_operacao "2024-01-01 09:00:00" "USDT" "compra"
      (Dec.mk 10000 (-1)) (Some "1.0") (Dec.mk 10000 (-1));
    mk_operacao "2024-01-02 09:00:00" "BTC" "compra"
      (Dec.mk 5000 (-1)) (Some "50000.0") (Dec.mk 1 (-2));
    mk_operacao "2024-01-03 09:00:00" "BTC" "venda"
      (Dec.mk 6000 (-1)) (Some "60000.0") (Dec.mk 1 (-2)) ].

(** Scenario B: two purchases of 0.01 BTC for 300 each. *)
Definition duas_compras : list operacao :=
  [ mk_operacao "2024-01-02 09:00:00" "BTC" "compra"
      (Dec.mk 3000 (-1)) (Some "30000.0") (Dec.mk 1 (-2));
    mk_operacao "2024-01-03 09:00:00" "BTC" "compra"
      (Dec.mk 3000 (-1)) (Some "30000.0") (Dec.mk 1 (-2)) ].

(** Scenario C: 2 ETH with a cost basis of 1000. *)
Definition dois_eth : list operacao :=
  [ mk_operacao "2024-01-02 09:00:00" "ETH" "compra"
      (Dec.mk 10000 (-1)) (Some "500.0") (Dec.mk 20 (-1)) ].

(** A sale of 0.01 BTC for 600 and a purchase of 0.01 BTC for 500. *)
Definition venda_exemplo : operacao :=
  mk_operacao "2024-01-03 09:00:00" "BTC" "venda"
    (Dec.mk 6000 (-1)) (Some "60000.0") (Dec.mk 1 (-2)).

Definition compra_exemplo : operacao :=
  mk_operacao "2024-01-04 09:00:00" "BTC" "compra"
    (Dec.mk 5000 (-1)) (Some "50000.0") (Dec.mk 1 (-2)).

(** One unit bought for 100, then two units sold for 300. *)
Definition compra_1_por_100 : operacao :=
  mk_operacao "2024-01-02 09:00:00" "BTC" "compra"
    (Dec.mk 1000 (-1)) (Some "100.0") (Dec.mk 10 (-1)).

Definition venda_2_por_300 : operacao :=
  mk_operacao "2024-01-03 09:00:00" "BTC" "venda"
    (Dec.mk 3000 (-1)) (Some "150.0") (Dec.mk 20 (-1)).

(** 0.02 BTC bought for 500, then 0.01 BTC sold for 600. *)
Definition compra_e_venda : list operacao :=
  [ mk_operacao "2024-01-02 09:00:00" "BTC" "compra"
      (Dec.mk 5000 (-1)) (Some "25000.0") (Dec.mk 2 (-2));
    mk_operacao "2024-01-03 09:00:00" "BTC" "venda"
      (Dec.mk 6000 (-1)) (Some "60000.0") (Dec.mk 1 (-2)) ].

(** One unit bought for 100 and one unit sold for 150, in the same second. *)
Definition compra_t : operacao :=
  mk_operacao "2024-01-02 09:00:00" "BTC" "compra"
    (Dec.mk 1000 (-1)) (Some "100.0") (Dec.mk 10 (-1)).

Definition venda_t : operacao :=
  mk_operacao "2024-01-02 09:00:00" "BTC" "venda"
    (Dec.mk 1500 (-1)) (Some "150.0") (Dec.mk 10 (-1)).

(** Half a BTC bought for 500 with no deposit before it. *)
Definition compra_a_descoberto : list operacao :=
  [ mk_operacao "2024-01-02 09:00:00" "BTC" "compra"
      (Dec.mk 5000 (-1)) (Some "1000.0") (Dec.mk 5 (-1)) ].

(** A deposit of 1000 and half a BTC bought for 500. *)
Definition deposito_e_compra : list operacao :=
  [ mk_operacao "2024-01-01 09:00:00" "USDT" "compra"
      (Dec.mk 10000 (-1)) (Some "1.0") (Dec.mk 10000 (-1));
    mk_operacao "2024-01-02 09:00:00" "BTC" "compra"
      (Dec.mk 5000 (-1)) (Some "1000.0") (Dec.mk 5 (-1)) ].

(** A row of the file whose price cell is empty. *)
Definition linha_sem_preco : linha :=
  mk_linha (Some "2024-01-02 09:00:00") (Some "BTC") (Some "compra")
    (Some "500") (Some "") (Some "0.01").

(** ** What the further properties are stated with *)

(** The operation kind is spelled the way the core tests it. *)
Definition reconhecida (op : operacao) : bool :=
  (Operacao op =? "compra")%string || (Operacao op =? "venda")%string.

(** The processed entry [e] is the one written for the row [op]. *)
Definition espelha (op : operacao) (e : processada) : Prop :=
  proc_data e = Data op /\
  proc_tipo e = Operacao op /\
  proc_quantidade e = float_of_dec (Quantidade op) /\
  proc_valor e = float_of_dec (Valor_USDT op) /\
  exists p, Decimal_str (Preco op) = Ok p /\ proc_preco e = float_of_dec p.

(** What [carregar_operacoes] has checked of a row it keeps. *)
Definition carregavel (op : operacao) : Prop :=
  Data op <> "" /\ Moeda op <> "" /\ Operacao op <> "" /\
  in_strings (lower (Operacao op)) ["compra"; "venda"] = true.

(** Two rows with the same texts and the same numbers; a price cell that is
    [None] counts as an empty one. *)
Definition mesma_operacao (a b : operacao) : Prop :=
  Data b = Data a /\ Moeda b = Moeda a /\ Operacao b = Operacao a /\
  (Dec.to_Q (Valor_USDT b) == Dec.to_Q (Valor_USDT a))%Q /\
  (Dec.to_Q (Quantidade b) == Dec.to_Q (Quantidade a))%Q /\
  Preco b = Some (match Preco a with Some s => s | None => "" end).

(** [float(str(x)) == x]: what is used of the way Python prints a float. *)
Definition le_de_volta (str_float : Dec.dec -> string) : Prop :=
  forall x, exists x',
    numeral (str_float x) = Some x' /\ (Dec.to_Q x' == Dec.to_Q x)%Q.

(** The sum of a quantity over the positions of a portfolio, added up as
    the code adds it: from 0, in the order of the dictionary, each addition
    rounded. *)
Definition soma_posicoes (f : analise -> float) (r : dict entrada) : float :=
  fold_left
    (fun acc kv =>
       match snd kv with
       | Posicao a => fadd acc (f a)
       | _ => acc
       end) r 0%Qc.

(** The test that lets a position into the portfolio. *)
Definition incluida (a : analise) : bool :=
  float_gtb (valor_atual_posicao a) f_0_01
  || float_gtb (float_abs (lucro_realizado a)) f_0_01.

(** No row trades an asset under one of the two keys the portfolio keeps
    for itself. *)
Definition sem_chaves_reservadas (ops : list operacao) : Prop :=
  Forall (fun o => Moeda o <> "USDT (Caixa)" /\ Moeda o <> "totais") ops.

(** A stand-in for [str]: coefficient, the letter e, exponent. *)
Fixpoint digitos_fuel (fuel : positive) (z : Z) (s : string) : string :=
  let c := ascii_of_N (Z.to_N (48 + z mod 10)) in
  if z <? 10 then String c s
  else match fuel with
       | xH => String c s
       | xO p | xI p => digitos_fuel p (z / 10) (String c s)
       end.

Definition digitos (z : Z) (s : string) : string :=
  match z with
  | Zpos p => digitos_fuel p z s
  | _ => String "0" s
  end.

Definition com_sinal (z : Z) (s : string) : string :=
  if z <? 0 then String "-" (digitos (- z) s) else digitos z s.

Definition imprimir (x : Dec.dec) : string :=
  com_sinal (Dec.coef x) (String "e" (com_sinal (Dec.expo x) "")).

(** The accumulator after [compra_1_por_100]: one unit at an average of 100. *)
Definition apos_compra_1 : acumulador :=
  comprada acumulador_inicial compra_1_por_100
    (Dec.mk 1000 (-1)) (Dec.mk 1000000000000000000000000000 (-25)).

(** A row of the file with the operation in capitals. *)
Definition linha_em_maiusculas : linha :=
  mk_linha (Some "2024-01-02 09:00:00") (Some "BTC") (Some "COMPRA")
    (Some "500") (Some "50000") (Some "0.01").

(** A purchase of a dust quantity: 1e-10 units for 5. *)
Definition compra_de_po : list operacao :=
  [ mk_operacao "2024-01-02 09:00:00" "BTC" "compra"
      (Dec.mk 50 (-1)) (Some "50000000000.0") (Dec.mk 1 (-10)) ].

(** The entry [a] of the history is not later than [b]. *)
Definition mov_antes (a b : movimento) : Prop :=
  (mov_data a <=? mov_data b)%string = true.

(** A deposit of 0.3 and a withdrawal of 1e-18, and a purchase of 0.3. *)
Definition saldo_quase_0_3 : list operacao :=
  [ mk_operacao "2024-01-01 09:00:00" "USDT" "compra"
      (Dec.mk 3 (-1)) (Some "1.0") (Dec.mk 3 (-1));
    mk_operacao "2024-01-02 09:00:00" "USDT" "venda"
      (Dec.mk 1 (-18)) (Some "1.0") (Dec.mk 1 (-18)) ].

Definition compra_de_0_3 : operacao :=
  mk_operacao "2024-01-03 09:00:00" "BTC" "compra"
    (Dec.mk 3 (-1)) (Some "60000.0") (Dec.mk 5 (-6)).

(** A deposit of 1000. *)
Definition deposito_de_1000 : list operacao :=
  [ mk_operacao "2024-01-01 09:00:00" "USDT" "compra"
      (Dec.mk 10000 (-1)) (Some "1.0") (Dec.mk 10000 (-1)) ].

(** No character of the text is white space. *)
Fixpoint sem_espacos (s : string) : bool :=
  match s with
  | String c s' => negb (is_space c) && sem_espacos s'
  | EmptyString => true
  end.

(** A file of three rows: a deposit, a row with an operation that is
    neither purchase nor sale, and a purchase without a price. *)
Definition arquivo_exemplo : option (list linha) :=
  Some [ mk_linha (Some "2024-01-01 09:00:00") (Some "USDT") (Some "compra")
           (Some "1000.0") (Some "1.0") (Some "1000.0");
         mk_linha (Some "2024-01-02 09:00:00") (Some "BTC") (Some "troca")
           (Some "500.0") (Some "50000.0") (Some "0.01");
         mk_linha (Some "2024-01-03 09:00:00") (Some "BTC") (Some "compra")
           (Some "500.0") None (Some "0.01") ].

(** The dictionary the edit form builds: 600 at a price of 60000. *)
Definition registro_editado : registro :=
  mk_registro (Texto "2024-01-03 10:00:00") (Texto "BTC") (Texto "compra")
    (Numero (Dec.mk 6000 (-1))) (Numero (Dec.mk 600000 (-1)))
    (Numero (Dec.mk 1 (-2))).

(** The exchange gave a price for the pair of [moeda] against USDT. *)
Definition respondeu (fetch_ticker : string -> resposta) (moeda : string) : Prop :=
  exists p, fetch_ticker (moeda ++ "/USDT")%string = Ticker (Some p).

(** The price an asset that was asked for has after the refresh: 1 for USDT,
    the price the exchange gave, or else the one [cache] had. *)
Definition preco_apos (fetch_ticker : string -> resposta) (cache : dict float)
    (moeda : string) : option float :=
  if (moeda =? "USDT")%string then Some 1%Qc
  else match fetch_ticker (moeda ++ "/USDT")%string with
       | Ticker (Some p) => Some p
       | _ => dict_get moeda cache
       end.

(** An exchange that knows BTC and the real, and nothing else. *)
Definition so_btc (simbolo : string) : resposta :=
  if (simbolo =? "BTC/USDT")%string then Ticker (Some (Q2Qc (60000 # 1)))
  else if (simbolo =? "USDT/BRL")%string then Ticker (Some (Q2Qc (5 # 1)))
  else Falha.

(** A price manager with an exchange and an old price of ETH. *)
Definition gestor_exemplo : PriceManager :=
  mk_PriceManager true [("ETH", Q2Qc (2000 # 1))] None 0%Qc.

(** The rows of one asset, in the order of their dates. *)
Definition grupo (moeda : string) (ops : list operacao) : list operacao :=
  sorted_by_data (filter (fun o => (Moeda o =? moeda)%string) ops).

(** [t] holds the sums over the positions of [r], and [caixa] on top of the
    market value. *)
Definition totais_das_posicoes (r : dict entrada) (t : totais) (caixa : float)
  : Prop :=
  tot_investido_liquido t = soma_posicoes custo_posicao_final r /\
  tot_realizado t = soma_posicoes lucro_realizado r /\
  tot_nao_realizado t = soma_posicoes lucro_nao_realizado r /\
  tot_valor_atual t = fadd (soma_posicoes valor_atual_posicao r) caixa.

(** A purchase of 2 ETH for 1000 on a log that starts with a deposit. *)
Definition deposito_e_eth : list operacao :=
  [ mk_operacao "2024-01-01 09:00:00" "USDT" "compra"
      (Dec.mk 20000 (-1)) (Some "1.0") (Dec.mk 20000 (-1));
    mk_operacao "2024-01-02 09:00:00" "ETH" "compra"
      (Dec.mk 10000 (-1)) (Some "500.0") (Dec.mk 20 (-1)) ].

(** * Properties *)

(** ** Rounding to binary64 *)

Module Bin64Facts.
Import Bin64.
Local Open Scope Q_scope.

Ltac qcmp H :=
  first [ apply (proj2 (Qeq_alt _ _)) in H
        | apply (proj2 (Qlt_alt _ _)) in H
        | apply (proj2 (Qgt_alt _ _)) in H ].

Lemma rne_cases (y : Q) :
  (rne y = Qfloor y /\ y - inject_Z (Qfloor y) <= 1 # 2) \/
  (rne y = (Qfloor y + 1)%Z /\ 1 # 2 <= y - inject_Z (Qfloor y)).
Proof.
  unfold rne. cbv zeta.
  destruct (y - inject_Z (Qfloor y) ?= 1 # 2) eqn:Hc.
  - qcmp Hc. destruct (Z.even (Qfloor y)).
    + left. split; [reflexivity |]. rewrite Hc. apply Qle_refl.
    + right. split; [reflexivity |]. rewrite Hc. apply Qle_refl.
  - qcmp Hc. left. split; [reflexivity | now apply Qlt_le_weak].
  - qcmp Hc. right. split; [reflexivity | now apply Qlt_le_weak].
Qed.

Lemma floor_bounds (y : Q) :
  inject_Z (Qfloor y) <= y /\ y < inject_Z (Qfloor y) + 1.
Proof.
  split; [apply Qfloor_le |].
  pose proof (Qlt_floor y) as H. rewrite inject_Z_plus in H. exact H.
Qed.

Lemma rne_spec (y : Q) : Qabs (inject_Z (rne y) - y) <= 1 # 2.
Proof.
  destruct (floor_bounds y) as [H1 H2].
  apply Qabs_Qle_condition.
  destruct (rne_cases y) as [[-> H] | [-> H]].
  - split; lra.
  - rewrite inject_Z_plus. change (inject_Z 1) with 1. split; lra.
Qed.

Lemma rne_comp (y y' : Q) : y == y' -> rne y = rne y'.
Proof.
  intros H. unfold rne. cbv zeta. rewrite (Qfloor_comp _ _ H).
  assert (Hc : (y - inject_Z (Qfloor y') ?= 1 # 2) = (y' - inject_Z (Qfloor y') ?= 1 # 2)).
  { apply Qcompare_comp; [now rewrite H | reflexivity]. }
  now rewrite Hc.
Qed.

Lemma rne_Z (z : Z) : rne (inject_Z z) = z.
Proof.
  unfold rne. cbv zeta. rewrite Qfloor_Z.
  assert (H : (inject_Z z - inject_Z z ?= 1 # 2) = Lt).
  { apply (proj1 (Qlt_alt _ _)). lra. }
  now rewrite H.
Qed.

Lemma rne_mono (y y' : Q) : y <= y' -> (rne y <= rne y')%Z.
Proof.
  intros Hle.
  pose proof (Qfloor_resp_le _ _ Hle) as Hq.
  destruct (floor_bounds y) as [H1 H2]. destruct (floor_bounds y') as [H1' H2'].
  destruct (Z.eq_dec (Qfloor y) (Qfloor y')) as [He | Hne].
  - unfold rne. cbv zeta. rewrite <- He.
    destruct (y - inject_Z (Qfloor y) ?= 1 # 2) eqn:Hc;
      destruct (y' - inject_Z (Qfloor y) ?= 1 # 2) eqn:Hc';
      try (destruct (Z.even (Qfloor y))); try lia;
      try qcmp Hc; try qcmp Hc';
      exfalso; lra.
  - assert (Hlt : (Qfloor y + 1 <= Qfloor y')%Z) by lia.
    destruct (rne_cases y) as [[-> _] | [-> _]];
      destruct (rne_cases y') as [[-> _] | [-> _]]; lia.
Qed.

Lemma inject_Z_pos (m : Z) : (0 < m)%Z -> 0 < inject_Z m.
Proof. intros H. unfold Qlt. simpl. lia. Qed.

Lemma pow2_pos (e : Z) : 0 < 2 ^ e.
Proof. apply Qpower_0_lt. reflexivity. Qed.

Lemma pow2_plus (a b : Z) : 2 ^ (a + b) == 2 ^ a * 2 ^ b.
Proof. apply Qpower_plus. discriminate. Qed.

Lemma pow2_succ (a : Z) : 2 ^ (a + 1) == 2 * 2 ^ a.
Proof. rewrite pow2_plus. change (2 ^ 1) with 2. ring. Qed.

Lemma pow2_opp (a : Z) : 2 ^ a * 2 ^ (- a) == 1.
Proof.
  rewrite <- pow2_plus. now rewrite Z.add_opp_diag_r.
Qed.

Lemma pow2_le (a b : Z) : (a <= b)%Z -> 2 ^ a <= 2 ^ b.
Proof. intros H. apply Qpower_le_compat_l; [exact H | discriminate]. Qed.

Lemma pow2_lt (a b : Z) : (a < b)%Z -> 2 ^ a < 2 ^ b.
Proof. intros H. apply Qpower_lt_compat_l; [exact H | reflexivity]. Qed.

(** The binade of a positive rational, from the sizes of its numerator and
    denominator. *)
Lemma log2_bounds (x : Q) :
  0 < x ->
  2 ^ (Z.log2 (Qnum x) - Z.log2 (Zpos (Qden x)) - 1) < x /\
  x < 2 ^ (Z.log2 (Qnum x) - Z.log2 (Zpos (Qden x)) + 1).
Proof.
  intros Hx. destruct x as [n d]. cbn [Qnum Qden].
  assert (Hn : (0 < n)%Z).
  { unfold Qlt in Hx. cbn in Hx. lia. }
  destruct (Z.log2_spec n Hn) as [Hn1 Hn2].
  destruct (Z.log2_spec (Zpos d) (Pos2Z.is_pos d)) as [Hd1 Hd2].
  pose proof (Z.log2_nonneg n) as Hln. pose proof (Z.log2_nonneg (Zpos d)) as Hld.
  set (ln := Z.log2 n) in *. set (ld := Z.log2 (Zpos d)) in *.
  assert (HA : inject_Z (2 ^ ln) == 2 ^ ln) by (apply (Zpower_Qpower 2); lia).
  assert (HB : inject_Z (2 ^ ld) == 2 ^ ld) by (apply (Zpower_Qpower 2); lia).
  assert (Hn1' : 2 ^ ln <= inject_Z n).
  { rewrite <- HA. now rewrite <- Zle_Qle. }
  assert (Hn2' : inject_Z n < 2 * 2 ^ ln).
  { rewrite <- pow2_succ. rewrite <- (Zpower_Qpower 2) by lia.
    rewrite <- Zlt_Qlt. replace (ln + 1)%Z with (Z.succ ln) by lia. exact Hn2. }
  assert (Hd1' : 2 ^ ld <= inject_Z (Zpos d)).
  { rewrite <- HB. now rewrite <- Zle_Qle. }
  assert (Hd2' : inject_Z (Zpos d) < 2 * 2 ^ ld).
  { rewrite <- pow2_succ. rewrite <- (Zpower_Qpower 2) by lia.
    rewrite <- Zlt_Qlt. replace (ld + 1)%Z with (Z.succ ld) by lia. exact Hd2. }
  pose proof (pow2_pos ln) as HpA. pose proof (pow2_pos ld) as HpB.
  assert (Hx' : n # d == inject_Z n / inject_Z (Zpos d)) by apply Qmake_Qdiv.
  assert (Hdpos : 0 < inject_Z (Zpos d)) by (unfold Qlt; cbn; lia).
  split.
  - replace (ln - ld - 1)%Z with (ln + - (ld + 1))%Z by lia.
    rewrite pow2_plus, Hx'.
    apply Qlt_shift_div_l; [exact Hdpos |].
    assert (H1 : 2 ^ (ld + 1) * 2 ^ (- (ld + 1)) == 1) by apply pow2_opp.
    rewrite pow2_succ in H1.
    pose proof (pow2_pos (- (ld + 1))) as HpC.
    set (C := 2 ^ (- (ld + 1))) in *. set (A := 2 ^ ln) in *. set (B := 2 ^ ld) in *.
    set (N := inject_Z n) in *. set (D := inject_Z (Zpos d)) in *.
    assert (HDC : D * C < 1).
    { setoid_replace 1 with (2 * B * C) by (symmetry; exact H1).
      apply Qmult_lt_compat_r; assumption. }
    assert (HAC : A * C * D < A).
    { setoid_replace (A * C * D) with (A * (D * C)) by ring.
      setoid_replace A with (A * 1) at 2 by ring.
      apply Qmult_lt_l; assumption. }
    lra.
  - replace (ln - ld + 1)%Z with ((ln + 1) + - ld)%Z by lia.
    rewrite pow2_plus, pow2_succ, Hx'.
    apply Qlt_shift_div_r; [exact Hdpos |].
    assert (H1 : 2 ^ ld * 2 ^ (- ld) == 1) by apply pow2_opp.
    pose proof (pow2_pos (- ld)) as HpC.
    set (C := 2 ^ (- ld)) in *. set (A := 2 ^ ln) in *. set (B := 2 ^ ld) in *.
    set (N := inject_Z n) in *. set (D := inject_Z (Zpos d)) in *.
    assert (HDC : 1 <= D * C).
    { setoid_replace 1 with (B * C) by (symmetry; exact H1).
      apply Qmult_le_compat_r; [assumption | now apply Qlt_le_weak]. }
    assert (HAC : 2 * A <= 2 * A * C * D).
    { setoid_replace (2 * A * C * D) with (2 * A * (D * C)) by ring.
      setoid_replace (2 * A) with (2 * A * 1) at 1 by ring.
      apply Qmult_le_l; [lra | assumption]. }
    lra.
Qed.

Lemma expoente_spec (x : Q) :
  0 < x -> 2 ^ (52 + expoente x) <= x /\ x < 2 ^ (53 + expoente x).
Proof.
  intros Hx. destruct (log2_bounds x Hx) as [Hl Hu].
  unfold expoente. cbv zeta.
  set (k := (Z.log2 (Qnum x) - Z.log2 (Z.pos (Qden x)))%Z) in *.
  destruct (x ?= 2 ^ k) eqn:Hc.
  - qcmp Hc. replace (52 + (k - 52))%Z with k by lia.
    replace (53 + (k - 52))%Z with (k + 1)%Z by lia.
    split; [rewrite Hc; apply Qle_refl | exact Hu].
  - qcmp Hc. replace (52 + (k - 53))%Z with (k - 1)%Z by lia.
    replace (53 + (k - 53))%Z with k by lia.
    split; [now apply Qlt_le_weak | exact Hc].
  - qcmp Hc. replace (52 + (k - 52))%Z with k by lia.
    replace (53 + (k - 52))%Z with (k + 1)%Z by lia.
    split; [now apply Qlt_le_weak | exact Hu].
Qed.

Lemma expoente_unico (x : Q) (e : Z) :
  2 ^ (52 + e) <= x -> x < 2 ^ (53 + e) -> expoente x = e.
Proof.
  intros Hl Hu.
  assert (Hx : 0 < x) by (pose proof (pow2_pos (52 + e)); lra).
  destruct (expoente_spec x Hx) as [Hl' Hu'].
  destruct (Z.lt_trichotomy (expoente x) e) as [Hlt | [He | Hgt]]; [| exact He |].
  - exfalso. pose proof (pow2_le (53 + expoente x) (52 + e) ltac:(lia)). lra.
  - exfalso. pose proof (pow2_le (53 + e) (52 + expoente x) ltac:(lia)). lra.
Qed.

Lemma expoente_comp (x x' : Q) : 0 < x -> x == x' -> expoente x = expoente x'.
Proof.
  intros Hx He. symmetry. apply expoente_unico.
  - rewrite <- He. now apply expoente_spec.
  - rewrite <- He. now apply expoente_spec.
Qed.

Lemma expoente_mono (x x' : Q) :
  0 < x -> x <= x' -> (expoente x <= expoente x')%Z.
Proof.
  intros Hx Hle. assert (Hx' : 0 < x') by lra.
  destruct (expoente_spec x Hx) as [Hl _].
  destruct (expoente_spec x' Hx') as [_ Hu'].
  destruct (Z.le_gt_cases (expoente x) (expoente x')) as [H | H]; [exact H |].
  exfalso. pose proof (pow2_le (53 + expoente x') (52 + expoente x) ltac:(lia)). lra.
Qed.

(** The significand: an integer of 53 bits, within half a unit of the
    scaled value. *)
Lemma significando (x : Q) :
  0 < x ->
  (2 ^ 52 <= rne (x * 2 ^ (- expoente x)) <= 2 ^ 53)%Z /\
  Qabs (inject_Z (rne (x * 2 ^ (- expoente x))) - x * 2 ^ (- expoente x)) <= 1 # 2 /\
  2 ^ 52 <= x * 2 ^ (- expoente x) /\ x * 2 ^ (- expoente x) < 2 ^ 53.
Proof.
  intros Hx. destruct (expoente_spec x Hx) as [Hl Hu].
  set (e := expoente x) in *.
  pose proof (pow2_pos (- e)) as Hp.
  assert (Hy1 : 2 ^ 52 <= x * 2 ^ (- e)).
  { setoid_replace (2 ^ 52) with (2 ^ (52 + e) * 2 ^ (- e)).
    - apply Qmult_le_compat_r; [exact Hl | now apply Qlt_le_weak].
    - rewrite <- pow2_plus. now replace (52 + e + - e)%Z with 52%Z by lia. }
  assert (Hy2 : x * 2 ^ (- e) < 2 ^ 53).
  { setoid_replace (2 ^ 53) with (2 ^ (53 + e) * 2 ^ (- e)).
    - apply Qmult_lt_compat_r; assumption.
    - rewrite <- pow2_plus. now replace (53 + e + - e)%Z with 53%Z by lia. }
  split; [| split; [apply rne_spec | split; assumption]].
  split.
  - rewrite <- (rne_Z (2 ^ 52)). apply rne_mono.
    rewrite (Zpower_Qpower 2) by lia. exact Hy1.
  - rewrite <- (rne_Z (2 ^ 53)). apply rne_mono.
    rewrite (Zpower_Qpower 2) by lia. now apply Qlt_le_weak.
Qed.

Lemma arredondar_pos_pos (x : Q) : 0 < x -> 0 < arredondar_pos x.
Proof.
  intros Hx. destruct (significando x Hx) as ([Hm _] & _).
  unfold arredondar_pos. cbv zeta.
  apply Qmult_lt_0_compat; [| apply pow2_pos].
  apply inject_Z_pos.
  assert (0 < 2 ^ 52)%Z by reflexivity. lia.
Qed.

Lemma arredondar_pos_comp (x x' : Q) :
  0 < x -> x == x' -> arredondar_pos x == arredondar_pos x'.
Proof.
  intros Hx He. unfold arredondar_pos. cbv zeta.
  rewrite <- (expoente_comp x x' Hx He).
  rewrite (rne_comp (x * 2 ^ (- expoente x)) (x' * 2 ^ (- expoente x))).
  - reflexivity.
  - apply Qmult_comp; [exact He | reflexivity].
Qed.

Lemma arredondar_comp (x x' : Q) : x == x' -> arredondar x == arredondar x'.
Proof.
  intros He. unfold arredondar.
  rewrite <- (Qcompare_comp x x' He 0 0 (Qeq_refl 0)).
  destruct (x ?= 0) eqn:Hc.
  - reflexivity.
  - qcmp Hc. apply Qopp_comp. apply arredondar_pos_comp; [lra |].
    now apply Qopp_comp.
  - qcmp Hc. now apply arredondar_pos_comp.
Qed.

Lemma arredondar_0 : arredondar 0 = 0.
Proof. reflexivity. Qed.

Lemma arredondar_gt (x : Q) : 0 < x -> arredondar x = arredondar_pos x.
Proof.
  intros Hx. unfold arredondar. apply (proj1 (Qgt_alt _ _)) in Hx. now rewrite Hx.
Qed.

Lemma arredondar_lt (x : Q) : x < 0 -> arredondar x = - arredondar_pos (- x).
Proof.
  intros Hx. unfold arredondar. apply (proj1 (Qlt_alt _ _)) in Hx. now rewrite Hx.
Qed.

Lemma arredondar_opp (x : Q) : arredondar (- x) == - arredondar x.
Proof.
  destruct (Q_dec x 0) as [[Hn | Hp] | Hz].
  - rewrite (arredondar_lt x Hn), arredondar_gt by lra. ring.
  - rewrite (arredondar_gt x Hp), arredondar_lt by lra.
    apply Qopp_comp. apply arredondar_pos_comp; [lra | ring].
  - rewrite (arredondar_comp x 0 Hz), (arredondar_comp (- x) 0) by (rewrite Hz; ring).
    reflexivity.
Qed.

(** The sign is kept. *)
Lemma arredondar_sinal (x : Q) :
  (0 < x -> 0 < arredondar x) /\ (x < 0 -> arredondar x < 0) /\
  (x == 0 -> arredondar x == 0).
Proof.
  split; [| split].
  - intros Hx. rewrite arredondar_gt by assumption. now apply arredondar_pos_pos.
  - intros Hx. rewrite arredondar_lt by assumption.
    pose proof (arredondar_pos_pos (- x)). lra.
  - intros Hx. now rewrite (arredondar_comp x 0 Hx).
Qed.

Lemma arredondar_nonneg (x : Q) : 0 <= x <-> 0 <= arredondar x.
Proof.
  destruct (arredondar_sinal x) as (Hp & Hn & Hz).
  destruct (Q_dec x 0) as [[H | H] | H].
  - specialize (Hn H). split; intros; lra.
  - specialize (Hp H). split; intros; lra.
  - specialize (Hz H). split; intros; lra.
Qed.

Lemma arredondar_pos_mono (x x' : Q) :
  0 < x -> x <= x' -> arredondar_pos x <= arredondar_pos x'.
Proof.
  intros Hx Hle. assert (Hx' : 0 < x') by lra.
  pose proof (expoente_mono x x' Hx Hle) as He.
  destruct (significando x Hx) as ([_ Hm] & _).
  destruct (significando x' Hx') as ([Hm' _] & _).
  unfold arredondar_pos. cbv zeta.
  set (e := expoente x) in *. set (e' := expoente x') in *.
  set (m := rne (x * 2 ^ (- e))) in *. set (m' := rne (x' * 2 ^ (- e'))) in *.
  destruct (Z.eq_dec e e') as [Heq | Hne].
  - subst m m'. rewrite <- Heq.
    apply Qmult_le_compat_r; [| apply Qlt_le_weak, pow2_pos].
    rewrite <- Zle_Qle. apply rne_mono.
    apply Qmult_le_compat_r; [exact Hle | apply Qlt_le_weak, pow2_pos].
  - assert (Hlt : (e + 1 <= e')%Z) by lia.
    apply Qle_trans with (inject_Z (2 ^ 53) * 2 ^ e).
    + apply Qmult_le_compat_r; [now rewrite <- Zle_Qle | apply Qlt_le_weak, pow2_pos].
    + apply Qle_trans with (inject_Z (2 ^ 52) * 2 ^ e').
      * rewrite !(Zpower_Qpower 2) by lia. rewrite <- !pow2_plus.
        apply pow2_le. lia.
      * apply Qmult_le_compat_r; [now rewrite <- Zle_Qle | apply Qlt_le_weak, pow2_pos].
Qed.

Lemma arredondar_mono (x x' : Q) : x <= x' -> arredondar x <= arredondar x'.
Proof.
  intros Hle.
  destruct (arredondar_sinal x) as (Hp & Hn & Hz).
  destruct (arredondar_sinal x') as (Hp' & Hn' & Hz').
  destruct (Q_dec x 0) as [[H | H] | H]; destruct (Q_dec x' 0) as [[H' | H'] | H'];
    try (exfalso; lra).
  - rewrite (arredondar_lt x H), (arredondar_lt x' H').
    apply Qopp_le_compat. apply arredondar_pos_mono; lra.
  - specialize (Hn H). specialize (Hp' H'). lra.
  - specialize (Hn H). specialize (Hz' H'). lra.
  - rewrite (arredondar_gt x H), (arredondar_gt x' H').
    now apply arredondar_pos_mono.
  - specialize (Hz H). specialize (Hp' H'). lra.
  - specialize (Hz H). specialize (Hz' H'). lra.
Qed.

(** The relative error of one rounding is at most 2^-53. *)
Lemma arredondar_pos_erro (x : Q) :
  0 < x -> Qabs (arredondar_pos x - x) <= x * 2 ^ (- 53).
Proof.
  intros Hx. destruct (significando x Hx) as (_ & Herr & Hy1 & _).
  unfold arredondar_pos. cbv zeta.
  set (e := expoente x) in *. set (m := rne (x * 2 ^ (- e))) in *.
  pose proof (pow2_pos e) as Hpe. pose proof (pow2_pos (- e)) as Hpne.
  pose proof (pow2_opp e) as Hinv.
  setoid_replace (inject_Z m * 2 ^ e - x)
    with ((inject_Z m - x * 2 ^ (- e)) * 2 ^ e)
    by (setoid_replace x with (x * (2 ^ e * 2 ^ (- e))) at 1
          by (rewrite Hinv; ring); ring).
  rewrite Qabs_Qmult, (Qabs_pos (2 ^ e)) by now apply Qlt_le_weak.
  apply Qle_trans with ((1 # 2) * 2 ^ e).
  - apply Qmult_le_compat_r; [exact Herr | now apply Qlt_le_weak].
  - assert (H53 : 2 ^ 52 * 2 ^ (- 53) == 1 # 2) by reflexivity.
    setoid_replace ((1 # 2) * 2 ^ e) with (2 ^ 52 * 2 ^ e * 2 ^ (- 53))
      by (rewrite <- H53; ring).
    apply Qmult_le_compat_r; [| apply Qlt_le_weak, pow2_pos].
    setoid_replace x with (x * 2 ^ (- e) * 2 ^ e)
      by (setoid_replace (x * 2 ^ (- e) * 2 ^ e) with (x * (2 ^ e * 2 ^ (- e))) by ring;
          rewrite Hinv; ring).
    apply Qmult_le_compat_r; [exact Hy1 | now apply Qlt_le_weak].
Qed.

Lemma arredondar_erro (x : Q) : Qabs (arredondar x - x) <= Qabs x * 2 ^ (- 53).
Proof.
  destruct (Q_dec x 0) as [[H | H] | H].
  - rewrite (arredondar_lt x H).
    setoid_replace (- arredondar_pos (- x) - x) with (- (arredondar_pos (- x) - - x)) by ring.
    rewrite Qabs_opp, (Qabs_neg x) by lra. apply arredondar_pos_erro. lra.
  - rewrite (arredondar_gt x H), (Qabs_pos x) by lra. now apply arredondar_pos_erro.
  - rewrite (arredondar_comp x 0 H), H. cbn. discriminate.
Qed.

(** A value with a significand of 53 bits is kept. *)
Lemma arredondar_pos_exato (m e : Z) :
  (2 ^ 52 <= m <= 2 ^ 53)%Z ->
  arredondar_pos (inject_Z m * 2 ^ e) == inject_Z m * 2 ^ e.
Proof.
  intros [Hm1 Hm2].
  assert (Hm1' : 2 ^ 52 <= inject_Z m).
  { rewrite <- (Zpower_Qpower 2) by lia. now rewrite <- Zle_Qle. }
  assert (Hm2' : inject_Z m <= 2 ^ 53).
  { rewrite <- (Zpower_Qpower 2) by lia. now rewrite <- Zle_Qle. }
  pose proof (pow2_pos e) as Hpe.
  destruct (Z.eq_dec m (2 ^ 53)) as [-> | Hne].
  - assert (He : expoente (inject_Z (2 ^ 53) * 2 ^ e) = (e + 1)%Z).
    { apply expoente_unico; rewrite (Zpower_Qpower 2) by lia; rewrite <- pow2_plus.
      - apply pow2_le. lia.
      - apply pow2_lt. lia. }
    unfold arredondar_pos. cbv zeta. rewrite He.
    rewrite (rne_comp _ (inject_Z (2 ^ 52))).
    + rewrite rne_Z. rewrite !(Zpower_Qpower 2) by lia. rewrite <- !pow2_plus.
      now replace (52 + (e + 1))%Z with (53 + e)%Z by lia.
    + rewrite !(Zpower_Qpower 2) by lia. rewrite <- !pow2_plus.
      now replace (53 + e + - (e + 1))%Z with 52%Z by lia.
  - assert (Hlt : inject_Z m < 2 ^ 53).
    { rewrite <- (Zpower_Qpower 2) by lia. rewrite <- Zlt_Qlt. lia. }
    assert (He : expoente (inject_Z m * 2 ^ e) = e).
    { apply expoente_unico; rewrite pow2_plus.
      - apply Qmult_le_compat_r; [exact Hm1' | now apply Qlt_le_weak].
      - apply Qmult_lt_compat_r; assumption. }
    unfold arredondar_pos. cbv zeta. rewrite He.
    rewrite (rne_comp _ (inject_Z m)).
    + now rewrite rne_Z.
    + rewrite <- Qmult_assoc, pow2_opp. ring.
Qed.

Lemma arredondar_idem (x : Q) : arredondar (arredondar x) == arredondar x.
Proof.
  destruct (Q_dec x 0) as [[H | H] | H].
  - rewrite (arredondar_lt x H). rewrite arredondar_opp. apply Qopp_comp.
    assert (Hx : 0 < - x) by lra.
    rewrite arredondar_gt by now apply arredondar_pos_pos.
    destruct (significando (- x) Hx) as (Hm & _).
    unfold arredondar_pos at 2 3. cbv zeta. now apply arredondar_pos_exato.
  - rewrite (arredondar_gt x H).
    rewrite arredondar_gt by now apply arredondar_pos_pos.
    destruct (significando x H) as (Hm & _).
    unfold arredondar_pos at 2 3. cbv zeta. now apply arredondar_pos_exato.
  - pose proof (arredondar_comp x 0 H) as H0.
    rewrite (arredondar_comp (arredondar x) 0 H0), H0. reflexivity.
Qed.

End Bin64Facts.

(** ** Floats are rounded *)

Import Bin64 Bin64Facts.

Lemma fl_Q (x : Qc) : (fl x == Bin64.arredondar x)%Q.
Proof. unfold fl. simpl. apply Qred_correct. Qed.

Lemma fl_0 : fl 0 = 0%Qc.
Proof. apply Qc_is_canon. reflexivity. Qed.

Lemma fl_idem (x : Qc) : fl (fl x) = fl x.
Proof.
  apply Qc_is_canon.
  apply Qeq_trans with (arredondar (fl x)); [apply fl_Q |].
  apply Qeq_trans with (arredondar (arredondar x)).
  - apply arredondar_comp, fl_Q.
  - apply Qeq_trans with (arredondar x); [apply arredondar_idem |].
    symmetry. apply fl_Q.
Qed.

Lemma fl_mono (x y : Qc) : (x <= y)%Qc -> (fl x <= fl y)%Qc.
Proof.
  unfold Qcle. intros H. rewrite !fl_Q. now apply arredondar_mono.
Qed.

Lemma fl_nonneg (x : Qc) : (0 <= x)%Qc <-> (0 <= fl x)%Qc.
Proof.
  unfold Qcle. rewrite fl_Q. apply arredondar_nonneg.
Qed.

Lemma fl_pos (x : Qc) : (0 < x)%Qc <-> (0 < fl x)%Qc.
Proof.
  unfold Qclt. rewrite fl_Q. change (this 0%Qc) with 0%Q.
  destruct (arredondar_sinal x) as (Hp & Hn & Hz).
  split; [exact Hp |]. intros H.
  destruct (Q_dec x 0) as [[Hx | Hx] | Hx]; [| exact Hx |].
  - specialize (Hn Hx). lra.
  - specialize (Hz Hx). lra.
Qed.

Lemma fl_opp (x : Qc) : fl (- x) = (- fl x)%Qc.
Proof.
  apply Qc_is_canon.
  apply Qeq_trans with (arredondar (- x)%Qc); [apply fl_Q |].
  apply Qeq_trans with (arredondar (- (x : Q))%Q).
  { apply arredondar_comp. apply Qred_correct. }
  apply Qeq_trans with (- arredondar x)%Q; [apply arredondar_opp |].
  apply Qeq_trans with (- (fl x : Q))%Q.
  { apply Qopp_comp. symmetry. apply fl_Q. }
  symmetry. apply Qred_correct.
Qed.

Lemma this_plus (a b : Qc) : ((a + b)%Qc == (a : Q) + b)%Q.
Proof. apply Qred_correct. Qed.

Lemma this_mult (a b : Qc) : ((a * b)%Qc == (a : Q) * b)%Q.
Proof. apply Qred_correct. Qed.

Lemma this_opp (a : Qc) : ((- a)%Qc == - (a : Q))%Q.
Proof. apply Qred_correct. Qed.

Lemma this_minus (a b : Qc) : ((a - b)%Qc == (a : Q) - b)%Q.
Proof.
  unfold Qcminus. rewrite this_plus, this_opp. reflexivity.
Qed.

Lemma this_Q2Qc (q : Q) : (Q2Qc q == q)%Q.
Proof. apply Qred_correct. Qed.

Lemma this_u53 : (u53 == 2 ^ (- 53))%Q.
Proof. apply Qred_correct. Qed.

(** One rounding moves a value that is not negative by at most the
    fraction 2^-53 of it. *)
Lemma fl_erro (x : Qc) :
  (0 <= x)%Qc -> (x * (1 - u53) <= fl x)%Qc /\ (fl x <= x * (1 + u53))%Qc.
Proof.
  unfold Qcle. intros Hx. change (this 0%Qc) with 0%Q in Hx.
  rewrite !this_mult, this_minus, this_plus, this_u53, fl_Q.
  change (this 1%Qc) with 1%Q.
  pose proof (arredondar_erro x) as He. rewrite (Qabs_pos x) in He by exact Hx.
  apply Qabs_Qle_condition in He. destruct He as [H1 H2].
  split; lra.
Qed.


(** ** Rounding keeps the sign *)

Module DecFacts.
Import Dec.

Lemma ndigits_fuel_lower (fuel : positive) :
  forall n, 0 < n -> n <= Zpos fuel ->
    10 ^ (ndigits_fuel fuel n - 1) <= n /\ 1 <= ndigits_fuel fuel n.
Proof.
  induction fuel as [p IH | p IH |]; intros n Hn Hle; cbn [ndigits_fuel];
    destruct (Z.ltb_spec n 10) as [Hlt | Hge];
    try (change (10 ^ (1 - 1)) with 1; lia).
  - assert (H0 : 0 < n / 10) by (apply Z.div_str_pos; lia).
    assert (H1 : n / 10 <= Zpos p).
    { apply Z.div_le_upper_bound; lia. }
    destruct (IH _ H0 H1) as [Hpow Hone]. split; [| lia].
    replace (1 + ndigits_fuel p (n / 10) - 1)
      with (Z.succ (ndigits_fuel p (n / 10) - 1)) by lia.
    rewrite Z.pow_succ_r by lia.
    pose proof (Z.mul_div_le n 10). lia.
  - assert (H0 : 0 < n / 10) by (apply Z.div_str_pos; lia).
    assert (H1 : n / 10 <= Zpos p).
    { apply Z.div_le_upper_bound; lia. }
    destruct (IH _ H0 H1) as [Hpow Hone]. split; [| lia].
    replace (1 + ndigits_fuel p (n / 10) - 1)
      with (Z.succ (ndigits_fuel p (n / 10) - 1)) by lia.
    rewrite Z.pow_succ_r by lia.
    pose proof (Z.mul_div_le n 10). lia.
Qed.

Lemma ndigits_lower (n : Z) :
  0 < n -> 10 ^ (ndigits n - 1) <= n.
Proof.
  intros Hn. destruct n as [| p |]; try lia.
  apply (ndigits_fuel_lower p (Zpos p)); lia.
Qed.

Lemma ndigits_nonpos (n : Z) : n <= 0 -> ndigits n = 1.
Proof. destruct n; simpl; intros; try reflexivity; lia. Qed.

(** More than [prec] digits leave at least [10 ^ 27] after the cut. *)
Lemma kept_digits_large (a : Z) :
  prec < ndigits a -> 10 ^ 27 <= a / 10 ^ (ndigits a - prec).
Proof.
  intros Hn.
  assert (Hpos : 0 < a).
  { destruct (Z.ltb_spec 0 a); [assumption |].
    rewrite ndigits_nonpos in Hn by lia. unfold prec in Hn. lia. }
  pose proof (ndigits_lower a Hpos) as Hlow.
  unfold prec in *.
  assert (Hk : 0 < 10 ^ (ndigits a - 28)) by (apply Z.pow_pos_nonneg; lia).
  apply Z.div_le_lower_bound; [assumption |].
  rewrite <- Z.pow_add_r by lia.
  replace (ndigits a - 28 + 27) with (ndigits a - 1) by lia.
  assumption.
Qed.

Lemma fix_sgn (d : dec) : Z.sgn (coef (fix_ d)) = Z.sgn (coef d).
Proof.
  unfold fix_. cbv zeta.
  destruct (Z.leb_spec (ndigits (Z.abs (coef d))) prec) as [Hle | Hgt];
    [reflexivity |].
  pose proof (kept_digits_large _ Hgt) as Hq.
  set (k := ndigits (Z.abs (coef d)) - prec) in *.
  set (q := Z.abs (coef d) / 10 ^ k) in *.
  assert (H27 : 10 ^ 27 = 10 * 10 ^ 26) by reflexivity.
  assert (H26 : 0 < 10 ^ 26) by reflexivity.
  match goal with
  | |- context [if ?b then q + 1 else q] =>
      assert (Hq' : 10 ^ 27 <= (if b then q + 1 else q)) by (destruct b; lia);
      set (q' := if b then q + 1 else q) in *
  end.
  destruct (prec <? ndigits q'); simpl.
  - assert (0 < q' / 10) by (apply Z.div_str_pos; lia).
    rewrite Z.sgn_mul, Z.sgn_sgn, (Z.sgn_pos (q' / 10)) by assumption. lia.
  - rewrite Z.sgn_mul, Z.sgn_sgn, (Z.sgn_pos q') by lia. lia.
Qed.

Lemma fix_pos (d : dec) : 0 < coef d -> 0 < coef (fix_ d).
Proof. intros H. apply Z.sgn_pos_iff. rewrite fix_sgn. now apply Z.sgn_pos_iff. Qed.

Lemma fix_nonneg (d : dec) : 0 <= coef d -> 0 <= coef (fix_ d).
Proof. intros H. apply Z.sgn_nonneg. rewrite fix_sgn. now apply Z.sgn_nonneg. Qed.

Lemma scale_pos (e e' : Z) : 0 < 10 ^ (e - Z.min e e').
Proof. apply Z.pow_pos_nonneg; lia. Qed.

Lemma scale_pos' (e e' : Z) : 0 < 10 ^ (e' - Z.min e e').
Proof. apply Z.pow_pos_nonneg; lia. Qed.

Lemma add_pos (a b : dec) : 0 <= coef a -> 0 < coef b -> 0 < coef (add a b).
Proof.
  intros Ha Hb. unfold add, align. apply fix_pos. simpl.
  pose proof (scale_pos (expo a) (expo b)).
  pose proof (scale_pos' (expo a) (expo b)). nia.
Qed.

Lemma add_nonneg (a b : dec) : 0 <= coef a -> 0 <= coef b -> 0 <= coef (add a b).
Proof.
  intros Ha Hb. unfold add, align. apply fix_nonneg. simpl.
  pose proof (scale_pos (expo a) (expo b)).
  pose proof (scale_pos' (expo a) (expo b)). nia.
Qed.

Lemma sub_nonneg (a b : dec) : leb b a = true -> 0 <= coef (sub a b).
Proof.
  unfold leb, gtb, compare, sub, align. intros H.
  apply fix_nonneg. simpl.
  rewrite (Z.min_comm (expo b) (expo a)) in H.
  destruct (Z.compare_spec (coef b * 10 ^ (expo b - Z.min (expo a) (expo b)))
              (coef a * 10 ^ (expo a - Z.min (expo a) (expo b))));
    try discriminate; lia.
Qed.

Lemma gt0_true (a : dec) : gt0 a = true <-> 0 < coef a.
Proof. unfold gt0. apply Z.ltb_lt. Qed.

Lemma div_defined (a b : dec) : 0 < coef b -> exists q, div a b = Ok q.
Proof.
  intros Hb. unfold div.
  destruct (Z.eqb_spec (coef b) 0); [lia |].
  destruct (coef a =? 0); eexists; reflexivity.
Qed.

End DecFacts.

(** ** Floats of decimals *)

Lemma to_Q_nonneg (d : Dec.dec) : 0 <= Dec.coef d -> (0 <= Dec.to_Q d)%Q.
Proof.
  intros H. unfold Dec.to_Q.
  destruct (0 <=? Dec.expo d) eqn:He; unfold Qle; simpl.
  - apply Z.leb_le in He.
    assert (0 < 10 ^ Dec.expo d) by (apply Z.pow_pos_nonneg; lia). nia.
  - lia.
Qed.

Lemma float_of_dec_nonneg (d : Dec.dec) :
  0 <= Dec.coef d -> (0 <= float_of_dec d)%Qc.
Proof.
  intros H. unfold float_of_dec. apply (proj1 (fl_nonneg _)).
  unfold Qcle. rewrite (this_Q2Qc (Dec.to_Q d)). now apply to_Q_nonneg.
Qed.

(** The float of a decimal is a float. *)
Lemma float_of_dec_fl (d : Dec.dec) : fl (float_of_dec d) = float_of_dec d.
Proof. apply fl_idem. Qed.

(** [0 - x] is exact. *)
Lemma fsub_0_l (x : float) : fl x = x -> fsub 0%Qc x = (0 - x)%Qc.
Proof.
  intros H. unfold fsub. replace (0 - x)%Qc with (- x)%Qc by (unfold float; ring).
  now rewrite fl_opp, H.
Qed.

(** Adding 0 to a float is exact, and 0 times a float is 0. *)
Lemma fadd_0_r (x : float) : fl x = x -> fadd x 0%Qc = x.
Proof.
  intros H. unfold fadd. now rewrite Qcplus_0_r.
Qed.

Lemma fadd_0_l (x : float) : fl x = x -> fadd 0%Qc x = x.
Proof.
  intros H. unfold fadd. now rewrite Qcplus_0_l.
Qed.

Lemma fmul_0_l (x : float) : fmul 0%Qc x = 0%Qc.
Proof.
  unfold fmul. rewrite Qcmult_0_l. apply fl_0.
Qed.

Lemma float_of_dec_zero : float_of_dec Dec.zero = 0%Qc.
Proof. apply Qc_is_canon. reflexivity. Qed.

Lemma float_gtb_spec (a b : float) : float_gtb a b = true <-> (b < a)%Qc.
Proof.
  unfold float_gtb, Qclt, Qccompare.
  pose proof (Qgt_alt a b) as H. unfold Qgt in H. rewrite H.
  destruct (a ?= b)%Q; split; intros; try discriminate; reflexivity.
Qed.

(** Closed equations between floats: compare the reduced fractions. *)
Ltac float_eq := apply Qc_is_canon; vm_compute; reflexivity.

(** ** The order of timestamps and the stable sort *)

Lemma data_leb_refl (a : string) : (a <=? a)%string = true.
Proof. destruct (String.leb_total a a); assumption. Qed.

Lemma data_leb_trans (a b c : string) :
  (a <=? b)%string = true -> (b <=? c)%string = true -> (a <=? c)%string = true.
Proof.
  unfold String.leb. revert b c.
  induction a as [| x a IH]; intros [| y b] [| z c]; simpl;
    try (intros; reflexivity || discriminate).
  unfold Ascii.compare.
  destruct (N.compare_spec (N_of_ascii x) (N_of_ascii y));
    destruct (N.compare_spec (N_of_ascii y) (N_of_ascii z));
    destruct (N.compare_spec (N_of_ascii x) (N_of_ascii z));
    try lia; try (intros; reflexivity || discriminate).
  apply IH.
Qed.

Lemma insert_by_data_perm (x : operacao) (l : list operacao) :
  Permutation (insert_by_data x l) (x :: l).
Proof.
  induction l as [| y l IH]; simpl; [reflexivity |].
  destruct (Data x <=? Data y)%string; [reflexivity |].
  rewrite IH. apply perm_swap.
Qed.

Lemma sorted_by_data_perm (l : list operacao) :
  Permutation (sorted_by_data l) l.
Proof.
  induction l as [| x l IH]; simpl; [reflexivity |].
  rewrite insert_by_data_perm. now constructor.
Qed.

Lemma insert_by_data_sorted (x : operacao) (l : list operacao) :
  StronglySorted antes l -> StronglySorted antes (insert_by_data x l).
Proof.
  induction 1 as [| y l Hs IH Hall]; simpl.
  - repeat constructor.
  - destruct (Data x <=? Data y)%string eqn:Hxy.
    + constructor; [now constructor |].
      constructor; [assumption |].
      eapply Forall_impl; [| exact Hall].
      intros z Hz. unfold antes in *. eapply data_leb_trans; eassumption.
    + constructor; [assumption |].
      eapply Permutation_Forall; [symmetry; apply insert_by_data_perm |].
      constructor; [| assumption].
      unfold antes. destruct (String.leb_total (Data x) (Data y)); congruence.
Qed.

Lemma sorted_by_data_sorted (l : list operacao) :
  StronglySorted antes (sorted_by_data l).
Proof.
  induction l as [| x l IH]; simpl; [constructor |].
  now apply insert_by_data_sorted.
Qed.

Lemma insert_by_data_com_data (t : string) (x : operacao) (l : list operacao) :
  com_data t (insert_by_data x l) = com_data t (x :: l).
Proof.
  induction l as [| y l IH]; simpl; [reflexivity |].
  destruct (Data x <=? Data y)%string eqn:Hxy; [reflexivity |].
  simpl in *. rewrite IH.
  destruct (String.eqb_spec (Data x) t) as [Hx | Hx];
    destruct (String.eqb_spec (Data y) t) as [Hy | Hy]; try reflexivity.
  rewrite Hx, Hy, data_leb_refl in Hxy. discriminate.
Qed.

(** Stability: sorting leaves the rows of each timestamp in input order. *)
Lemma sorted_by_data_com_data (t : string) (l : list operacao) :
  com_data t (sorted_by_data l) = com_data t l.
Proof.
  induction l as [| x l IH]; simpl; [reflexivity |].
  rewrite insert_by_data_com_data. simpl. now rewrite IH.
Qed.

Lemma com_data_In (t : string) (x : operacao) (l : list operacao) :
  In x (com_data t l) <-> In x l /\ Data x = t.
Proof.
  unfold com_data. rewrite filter_In, String.eqb_eq. reflexivity.
Qed.

(** Two sorted lists with the same rows per timestamp, in the same order,
    are the same list. *)
Lemma sorted_unique (s : list operacao) :
  forall s', StronglySorted antes s -> StronglySorted antes s' ->
    (forall t, com_data t s' = com_data t s) -> s' = s.
Proof.
  induction s as [| a s IH]; intros s' Hs Hs' Heq.
  - destruct s' as [| b s']; [reflexivity |].
    specialize (Heq (Data b)). simpl in Heq.
    rewrite String.eqb_refl in Heq. discriminate.
  - destruct s' as [| b s'].
    { specialize (Heq (Data a)). simpl in Heq.
      rewrite String.eqb_refl in Heq. discriminate. }
    inversion Hs as [| ? ? Hs1 Ha]; subst.
    inversion Hs' as [| ? ? Hs1' Hb]; subst.
    assert (Hab : Data b = Data a).
    { apply String.leb_antisym.
      - assert (Hin : In a (com_data (Data a) (b :: s'))).
        { rewrite Heq. simpl. rewrite String.eqb_refl. now left. }
        apply com_data_In in Hin. destruct Hin as [[-> | Hin] _].
        + apply data_leb_refl.
        + rewrite Forall_forall in Hb. now apply Hb.
      - assert (Hin : In b (com_data (Data b) (a :: s))).
        { rewrite <- Heq. simpl. rewrite String.eqb_refl. now left. }
        apply com_data_In in Hin. destruct Hin as [[-> | Hin] _].
        + apply data_leb_refl.
        + rewrite Forall_forall in Ha. now apply Ha. }
    assert (Hhd : b = a).
    { specialize (Heq (Data a)). simpl in Heq.
      rewrite Hab, String.eqb_refl in Heq. congruence. }
    subst b. f_equal. apply IH; try assumption.
    intros t. specialize (Heq t). simpl in Heq.
    destruct (Data a =? t)%string; congruence.
Qed.

(** ** The ledger, rule by rule *)

Lemma fold_passo_saldo (l : list operacao) :
  forall b h,
    fold_left passo_saldo l (b, h) =
    (fst (Spec.replay b l), h ++ map movimento_de (snd (Spec.replay b l))).
Proof.
  induction l as [| op l IH]; intros b h; simpl.
  - now rewrite app_nil_r.
  - unfold Spec.rule, Spec.kind_of, Spec.is_reference.
    destruct (Moeda op =? "USDT")%string;
      destruct (Operacao op =? "compra")%string;
      try destruct (Operacao op =? "venda")%string;
      rewrite IH;
      try (destruct (Spec.replay _ l) as [bf es]; simpl;
           rewrite <- app_assoc; reflexivity);
      reflexivity.
Qed.

Lemma calcular_saldo_usdt_replay (ops : list operacao) :
  calcular_saldo_usdt ops =
  mk_saldo_info
    (float_of_dec (fst (Spec.replay Dec.zero (sorted_by_data ops))))
    (map movimento_de (snd (Spec.replay Dec.zero (sorted_by_data ops)))).
Proof.
  unfold calcular_saldo_usdt, replay_saldo.
  rewrite fold_passo_saldo. reflexivity.
Qed.

(** C2. Replaying scenario A (deposit 1000, buy 0.01 BTC for 500, sell
    0.01 BTC for 600) leaves a cash balance of 1100, and the BTC position
    the aggregator builds has quantity 0 and realized profit 100, whatever
    the market price. *)
Theorem C2_scenario_A :
  saldo_atual (calcular_saldo_usdt cenario_A) = float_of_Z 1100 /\
  exists ops,
    dict_get "BTC" (ops_por_moeda cenario_A) = Some ops /\
    forall preco_atual, exists a,
      _analisar_moeda ops preco_atual = Ok a /\
      quantidade_final a = float_of_Z 0 /\
      lucro_realizado a = float_of_Z 100.
Proof.
  split.
  - float_eq.
  - eexists. split; [vm_compute; reflexivity |].
    intros preco_atual. unfold _analisar_moeda.
    match goal with
    | |- context [foldM ?f ?l ?s] =>
        let r := eval vm_compute in (foldM f l s) in
        change (foldM f l s) with r
    end.
    eexists. split; [reflexivity |].
    split; float_eq.
Qed.

(** C3. The balance and the history that [calcular_saldo_usdt] returns are
    those of the four rules applied to the rows in ascending timestamp order
    (deposit and sell-credit add the amount, withdrawal and buy-debit subtract
    it, crypto movements carry the asset), with nothing else touching the
    balance; and a balance can end below zero. *)
Theorem C3_ledger_rules :
  (forall ops : list operacao,
      let s := sorted_by_data ops in
      Permutation s ops /\ StronglySorted antes s /\
      saldo_atual (calcular_saldo_usdt ops)
        = float_of_dec (fst (Spec.replay Dec.zero s)) /\
      historico (calcular_saldo_usdt ops)
        = map movimento_de (snd (Spec.replay Dec.zero s))) /\
  (exists ops : list operacao,
      (saldo_atual (calcular_saldo_usdt ops) < 0)%Qc).
Proof.
  split.
  - intros ops s. subst s.
    rewrite calcular_saldo_usdt_replay. simpl.
    repeat split.
    + apply sorted_by_data_perm.
    + apply sorted_by_data_sorted.
  - exists compra_a_descoberto. reflexivity.
Qed.

(** ** The history as a chain of balances *)

Lemma replay_encadeado (l : list operacao) :
  forall b,
    encadeado b (map movimento_de (snd (Spec.replay b l))) (fst (Spec.replay b l)).
Proof.
  induction l as [| op l IH]; intros b; simpl; [constructor |].
  unfold Spec.rule, Spec.kind_of, Spec.is_reference.
  destruct (Operacao op =? "compra")%string;
    [| destruct (Operacao op =? "venda")%string];
    destruct (Moeda op =? "USDT")%string; try apply IH;
    match goal with
    | |- context [Spec.replay ?b' l] =>
        specialize (IH b'); destruct (Spec.replay b' l) as [bf es]
    end; simpl in *.
  - apply enc_soma with (v := Valor_USDT op); simpl; auto.
  - apply enc_subtrai with (v := Valor_USDT op); simpl; auto.
  - apply enc_subtrai with (v := Valor_USDT op); simpl; auto.
  - apply enc_soma with (v := Valor_USDT op); simpl; auto.
Qed.

Lemma last_cons_default {A : Type} (l : list A) :
  forall a d : A, last (a :: l) d = last l a.
Proof.
  induction l as [| x l IH]; intros a d; [reflexivity |].
  change (last (a :: x :: l) d) with (last (x :: l) d).
  rewrite (IH x d), (IH x a). reflexivity.
Qed.

Lemma replay_last (l : list operacao) :
  forall b,
    last (map mov_saldo_apos (map movimento_de (snd (Spec.replay b l))))
      (float_of_dec b)
    = float_of_dec (fst (Spec.replay b l)).
Proof.
  induction l as [| op l IH]; intros b; simpl; [reflexivity |].
  destruct (Spec.rule b op) as [[[b' k] tag] |]; [| apply IH].
  specialize (IH b'). destruct (Spec.replay b' l) as [bf es].
  cbn [snd fst map] in *. rewrite last_cons_default. exact IH.
Qed.


(** ** The position accountant *)

Lemma foldM_app {A B : Type} (f : A -> B -> result A) (l1 l2 : list B) (a : A) :
  foldM f (l1 ++ l2) a = (a' <- foldM f l1 a ;; foldM f l2 a').
Proof.
  revert a. induction l1 as [| b l1 IH]; intros a; simpl; [reflexivity |].
  destruct (f a b); simpl; [apply IH | reflexivity].
Qed.

Lemma passo_venda_recusada (st : acumulador) (op : operacao) (p : Dec.dec) :
  Operacao op = "venda" -> Decimal_str (Preco op) = Ok p ->
  sem_posicao st = true ->
  passo_moeda st op = Ok (recusada st op p).
Proof.
  intros Hop Hp Hg. unfold passo_moeda, Decimal_float, sem_posicao in *.
  rewrite Hp, Hop. simpl. rewrite Hg. reflexivity.
Qed.

(** Without a position and without a purchase, the numbers stay put. *)
Lemma sem_compra_mantem (l : list operacao) :
  forall st st',
    sem_posicao st = true ->
    Forall (fun o => Operacao o <> "compra") l ->
    foldM passo_moeda l st = Ok st' ->
    mesmos_numeros st st'.
Proof.
  induction l as [| op l IH]; intros st st' Hg Hl Hrun; simpl in Hrun.
  - inversion Hrun; subst. repeat split.
  - inversion Hl as [| ? ? Hop Hl']; subst.
    unfold passo_moeda, Decimal_float in Hrun.
    destruct (Decimal_str (Preco op)) as [p |]; simpl in Hrun; [| discriminate].
    destruct (String.eqb_spec (Operacao op) "compra") as [| _]; [contradiction |].
    destruct (Operacao op =? "venda")%string.
    + unfold sem_posicao in Hg. rewrite Hg in Hrun. simpl in Hrun.
      apply IH in Hrun; [exact Hrun | exact Hg | exact Hl'].
    + simpl in Hrun. now apply IH in Hrun.
Qed.

(** C4. A SELL met while the running quantity or the weighted-average
    cost is not positive is written to the processed operations as an error
    entry and leaves quantity, cost basis, realized profit and average cost
    as they were; the loop goes on with the operations after it.  This is the
    case of every SELL that no BUY precedes. *)
Theorem C4_rejected_sell
    (pre rest : list operacao) (op : operacao) (st : acumulador) (p : Dec.dec) :
  foldM passo_moeda pre acumulador_inicial = Ok st ->
  Operacao op = "venda" ->
  Decimal_str (Preco op) = Ok p ->
  Dec.le0 (quantidade_total st) = true \/ Dec.le0 (pmc st) = true \/
    Forall (fun o => Operacao o <> "compra") pre ->
  passo_moeda st op = Ok (recusada st op p) /\
  mesmos_numeros st (recusada st op p) /\
  foldM passo_moeda (pre ++ op :: rest) acumulador_inicial
    = foldM passo_moeda rest (recusada st op p).
Proof.
  intros Hpre Hop Hp Hcase.
  assert (Hg : sem_posicao st = true).
  { unfold sem_posicao.
    destruct Hcase as [H | [H | H]]; rewrite ?H, ?orb_true_r; try reflexivity.
    destruct (sem_compra_mantem pre acumulador_inicial st eq_refl H Hpre)
      as (_ & Hq & _).
    rewrite Hq. reflexivity. }
  pose proof (passo_venda_recusada st op p Hop Hp Hg) as Hstep.
  split; [exact Hstep |]. split; [repeat split |].
  rewrite foldM_app, Hpre. simpl. rewrite Hstep. reflexivity.
Qed.

(** A sale as the first operation, followed by a purchase. *)
Lemma C4_rejected_sell_witness :
  passo_moeda acumulador_inicial venda_exemplo
    = Ok (recusada acumulador_inicial venda_exemplo (Dec.mk 600000 (-1))) /\
  mesmos_numeros acumulador_inicial
    (recusada acumulador_inicial venda_exemplo (Dec.mk 600000 (-1))) /\
  foldM passo_moeda ([] ++ venda_exemplo :: [compra_exemplo]) acumulador_inicial
    = foldM passo_moeda [compra_exemplo]
        (recusada acumulador_inicial venda_exemplo (Dec.mk 600000 (-1))).
Proof.
  apply (C4_rejected_sell [] [compra_exemplo] venda_exemplo
           acumulador_inicial (Dec.mk 600000 (-1))).
  - reflexivity.
  - reflexivity.
  - reflexivity.
  - left. reflexivity.
Defined.

(** *** Purchases *)

Lemma passo_compra (st : acumulador) (op : operacao) (p : Dec.dec) :
  Operacao op = "compra" -> Decimal_str (Preco op) = Ok p ->
  0 < Dec.coef (Dec.add (quantidade_total st) (Quantidade op)) ->
  exists w,
    Dec.div (Dec.add (custo_total st) (Valor_USDT op))
            (Dec.add (quantidade_total st) (Quantidade op)) = Ok w /\
    passo_moeda st op = Ok (comprada st op p w).
Proof.
  intros Hop Hp Hq.
  destruct (DecFacts.div_defined (Dec.add (custo_total st) (Valor_USDT op)) _ Hq)
    as [w Hw].
  exists w. split; [exact Hw |].
  unfold passo_moeda, Decimal_float. rewrite Hp, Hop. simpl.
  apply DecFacts.gt0_true in Hq. rewrite Hq, Hw. reflexivity.
Qed.

Lemma passo_compra_sem_quantidade (st : acumulador) (op : operacao) (p : Dec.dec) :
  Operacao op = "compra" -> Decimal_str (Preco op) = Ok p ->
  Dec.coef (Dec.add (quantidade_total st) (Quantidade op)) <= 0 ->
  passo_moeda st op = Ok (comprada st op p Dec.zero).
Proof.
  intros Hop Hp Hq. unfold passo_moeda, Decimal_float. rewrite Hp, Hop. simpl.
  unfold Dec.gt0. destruct (Z.ltb_spec 0 (Dec.coef (Dec.add (quantidade_total st) (Quantidade op))));
    [lia | reflexivity].
Qed.

(** With readable prices the loop body never raises. *)
Lemma passo_total (st : acumulador) (op : operacao) :
  preco_valido op -> exists st', passo_moeda st op = Ok st'.
Proof.
  intros [p Hp].
  destruct (String.eqb_spec (Operacao op) "compra") as [Hc | Hc].
  - destruct (Z.ltb_spec 0 (Dec.coef (Dec.add (quantidade_total st) (Quantidade op)))) as [Hq | Hq].
    + destruct (passo_compra st op p Hc Hp Hq) as (w & _ & Hw). eauto.
    + rewrite (passo_compra_sem_quantidade st op p Hc Hp Hq). eauto.
  - unfold passo_moeda, Decimal_float. rewrite Hp. simpl.
    destruct (String.eqb_spec (Operacao op) "compra"); [contradiction |].
    destruct (Operacao op =? "venda")%string; [| eauto].
    destruct (_ || _); eauto.
Qed.

Lemma foldM_total (ops : list operacao) :
  Forall preco_valido ops ->
  forall st, exists st', foldM passo_moeda ops st = Ok st'.
Proof.
  induction 1 as [| op ops Hop _ IH]; intros st; simpl; [eauto |].
  destruct (passo_total st op Hop) as [st1 ->]. simpl. apply IH.
Qed.

Lemma so_compras (ops : list operacao) :
  Forall compra_valida ops ->
  forall st, 0 <= Dec.coef (quantidade_total st) ->
    exists st',
      foldM passo_moeda ops st = Ok st' /\
      custo_total st'
        = fold_left (fun acc o => Dec.add acc (Valor_USDT o)) ops (custo_total st) /\
      quantidade_total st'
        = fold_left (fun acc o => Dec.add acc (Quantidade o)) ops (quantidade_total st) /\
      0 <= Dec.coef (quantidade_total st').
Proof.
  induction 1 as [| op ops (Hop & Hq & p & Hp) _ IH]; intros st Hst; simpl.
  - eauto.
  - pose proof (DecFacts.add_pos _ _ Hst Hq) as Hpos.
    destruct (passo_compra st op p Hop Hp Hpos) as (w & _ & ->). simpl.
    destruct (IH (comprada st op p w)) as (st' & Hrun & Hc & Hqt & Hnn);
      [simpl; lia |].
    exists st'. auto.
Qed.

(** C8. After a non-empty sequence of BUYs only, the weighted-average cost
    of the snapshot is the total amount spent divided by the total quantity
    acquired: one decimal division of the two sums, with no error carried
    from earlier averages. *)
Theorem C8_buys_only_average (ops : list operacao) (preco_atual : float) :
  ops <> [] ->
  Forall compra_valida ops ->
  exists a w,
    _analisar_moeda ops preco_atual = Ok a /\
    Dec.div (total Valor_USDT ops) (total Quantidade ops) = Ok w /\
    pmc_final a = float_of_dec w.
Proof.
  intros Hne Hall.
  destruct (exists_last Hne) as (l & op & ->).
  apply Forall_app in Hall. destruct Hall as [Hl Hop].
  inversion Hop as [| ? ? (Hc & Hq & p & Hp) _]; subst.
  destruct (so_compras l Hl acumulador_inicial) as (st & Hrun & Hcst & Hqst & Hnn);
    [simpl; lia |].
  pose proof (DecFacts.add_pos _ _ Hnn Hq) as Hpos.
  destruct (passo_compra st op p Hc Hp Hpos) as (w & Hw & Hstep).
  exists (fechar (comprada st op p w) preco_atual), w.
  split; [| split].
  - unfold _analisar_moeda. rewrite foldM_app, Hrun. simpl.
    rewrite Hstep. reflexivity.
  - unfold total. rewrite !fold_left_app. simpl.
    simpl in Hcst, Hqst. rewrite <- Hcst, <- Hqst. exact Hw.
  - reflexivity.
Qed.

(** Scenario B of the specification: average cost 30000, quantity 0.02,
    cost basis 600. *)
Example cenario_B :
  exists a,
    _analisar_moeda duas_compras 0%Qc = Ok a /\
    pmc_final a = float_of_Z 30000 /\
    quantidade_final a = fl (Q2Qc (2 # 100)) /\
    custo_posicao_final a = float_of_Z 600.
Proof.
  eexists. split; [vm_compute; reflexivity |].
  repeat split; float_eq.
Qed.

(** Scenario B. *)
Lemma C8_buys_only_average_witness :
  exists a w,
    _analisar_moeda duas_compras 0%Qc = Ok a /\
    Dec.div (total Valor_USDT duas_compras) (total Quantidade duas_compras) = Ok w /\
    pmc_final a = float_of_dec w.
Proof.
  apply (C8_buys_only_average duas_compras 0%Qc).
  - discriminate.
  - repeat constructor; simpl; try lia; eexists; reflexivity.
Defined.

(** *** The running quantity *)

(** Buying 1 unit and then selling 2 passes the guard (quantity 1 and average
    cost 100 are positive) and leaves a quantity of -1. *)
Lemma C9_counterexample :
  exists a,
    _analisar_moeda [compra_1_por_100; venda_2_por_300] 0%Qc = Ok a /\
    quantidade_final a = float_of_Z (-1) /\
    (quantidade_final a < 0)%Qc.
Proof.
  eexists. split; [vm_compute; reflexivity |].
  split; [float_eq | vm_compute; reflexivity].
Qed.

Lemma passo_quantidade (st : acumulador) (op : operacao) :
  quantidade_valida op ->
  0 <= Dec.coef (quantidade_total st) ->
  ((Operacao op =? "venda")%string && negb (sem_posicao st) = true ->
   Dec.leb (Quantidade op) (quantidade_total st) = true) ->
  exists st', passo_moeda st op = Ok st' /\ 0 <= Dec.coef (quantidade_total st').
Proof.
  intros [Hq Hp] Hst Hcov.
  destruct (passo_total st op Hp) as [st' Hstep].
  exists st'. split; [exact Hstep |].
  destruct Hp as [p Hp]. unfold passo_moeda, Decimal_float in Hstep.
  rewrite Hp in Hstep. simpl in Hstep.
  destruct (Operacao op =? "compra")%string.
  - destruct (if Dec.gt0 _ then _ else _) as [w |]; simpl in Hstep;
      inversion Hstep; subst; simpl.
    now apply DecFacts.add_nonneg.
  - destruct (Operacao op =? "venda")%string.
    + unfold sem_posicao in Hcov.
      destruct (Dec.le0 (quantidade_total st) || Dec.le0 (pmc st));
        inversion Hstep; subst; simpl; [assumption |].
      apply DecFacts.sub_nonneg. now apply Hcov.
    + inversion Hstep; subst. assumption.
Qed.

Lemma quantidade_nao_negativa (ops : list operacao) :
  Forall quantidade_valida ops ->
  forall st, 0 <= Dec.coef (quantidade_total st) ->
    vendas_cobertas st ops = true ->
    forall n, exists st',
      foldM passo_moeda (firstn n ops) st = Ok st' /\
      0 <= Dec.coef (quantidade_total st').
Proof.
  induction 1 as [| op ops Hop _ IH]; intros st Hst Hcov n.
  - rewrite firstn_nil. simpl. eauto.
  - destruct n as [| n]; [simpl; eauto |].
    simpl in Hcov. apply andb_true_iff in Hcov. destruct Hcov as [Hc Hrest].
    destruct (passo_quantidade st op Hop Hst) as (st1 & Hstep & Hst1).
    { intros Hv. rewrite Hv in Hc. exact Hc. }
    rewrite Hstep in Hrest. simpl. rewrite Hstep. simpl.
    now apply IH.
Qed.

(** C9, as the code has it. When no quantity is negative and every SELL
    that is carried out sells at most the quantity then held, the running
    quantity is never negative: not after any transaction, and not in the
    final snapshot. *)
Theorem C9_quantity_nonnegative (ops : list operacao) :
  Forall quantidade_valida ops ->
  vendas_cobertas acumulador_inicial ops = true ->
  (forall n, exists st,
      foldM passo_moeda (firstn n ops) acumulador_inicial = Ok st /\
      0 <= Dec.coef (quantidade_total st)) /\
  (forall preco_atual, exists a,
      _analisar_moeda ops preco_atual = Ok a /\
      (0 <= quantidade_final a)%Qc).
Proof.
  intros Hall Hcov.
  assert (H := quantidade_nao_negativa ops Hall acumulador_inicial
                 ltac:(simpl; lia) Hcov).
  split; [exact H |].
  intros preco_atual. destruct (H (List.length ops)) as (st & Hrun & Hst).
  rewrite firstn_all in Hrun.
  exists (fechar st preco_atual). unfold _analisar_moeda. rewrite Hrun.
  split; [reflexivity |]. simpl. now apply float_of_dec_nonneg.
Qed.

(** A purchase of 0.02 and a sale of 0.01. *)
Lemma C9_quantity_nonnegative_witness :
  (forall n, exists st,
      foldM passo_moeda (firstn n compra_e_venda) acumulador_inicial = Ok st /\
      0 <= Dec.coef (quantidade_total st)) /\
  (forall preco_atual, exists a,
      _analisar_moeda compra_e_venda preco_atual = Ok a /\
      (0 <= quantidade_final a)%Qc).
Proof.
  apply (C9_quantity_nonnegative compra_e_venda).
  - repeat constructor; simpl; try lia; eexists; reflexivity.
  - vm_compute. reflexivity.
Defined.

(** *** A missing price *)

(** With no price for ETH the snapshot has market value 0, but its unrealized
    profit is 0 - 1000, not 0. *)
Lemma C1_counterexample :
  dict_get "ETH" ([] : dict float) = None /\
  exists a,
    _analisar_moeda dois_eth (preco_de [] "ETH") = Ok a /\
    quantidade_final a = float_of_Z 2 /\
    custo_posicao_final a = float_of_Z 1000 /\
    valor_atual_posicao a = 0%Qc /\
    lucro_nao_realizado a = float_of_Z (-1000) /\
    lucro_nao_realizado a <> 0%Qc.
Proof.
  split; [reflexivity |].
  eexists. split; [vm_compute; reflexivity |].
  repeat split; try (float_eq).
  apply Qclt_not_eq. vm_compute. reflexivity.
Qed.

(** C1, as the code has it. When the price map has no entry for the asset
    the price used is 0: the snapshot has market value 0, its unrealized
    profit is minus the reported cost basis while a quantity above 1e-9 is
    held (0 otherwise), and cost basis and realized profit are those
    obtained with any other price. *)
Theorem C1_missing_price
    (ops : list operacao) (precos_atuais : dict float) (moeda : string) :
  dict_get moeda precos_atuais = None ->
  Forall preco_valido ops ->
  exists a,
    _analisar_moeda ops (preco_de precos_atuais moeda) = Ok a /\
    preco_de_mercado a = 0%Qc /\
    valor_atual_posicao a = 0%Qc /\
    lucro_nao_realizado a
      = (if float_gtb (quantidade_final a) f_1e_9
         then (0 - custo_posicao_final a)%Qc else 0%Qc) /\
    forall preco_atual, exists a',
      _analisar_moeda ops preco_atual = Ok a' /\
      custo_posicao_final a' = custo_posicao_final a /\
      lucro_realizado a' = lucro_realizado a.
Proof.
  intros Hnone Hall.
  destruct (foldM_total ops Hall acumulador_inicial) as [st Hrun].
  unfold preco_de, _analisar_moeda. rewrite Hnone, Hrun. simpl.
  exists (fechar st 0%Qc). split; [reflexivity |].
  unfold fechar. simpl.
  split; [reflexivity |]. split; [reflexivity |]. split.
  - destruct (float_gtb (float_of_dec (quantidade_total st)) f_1e_9);
      [| reflexivity].
    apply fsub_0_l.
    destruct (Dec.gtb (quantidade_total st) (Dec.mk 1 (-9)));
      [apply float_of_dec_fl | apply fl_0].
  - intros preco_atual. eexists. split; [reflexivity |]. split; reflexivity.
Qed.

(** Scenario C with an empty price map. *)
Lemma C1_missing_price_witness :
  exists a,
    _analisar_moeda dois_eth (preco_de [] "ETH") = Ok a /\
    preco_de_mercado a = 0%Qc /\
    valor_atual_posicao a = 0%Qc /\
    lucro_nao_realizado a
      = (if float_gtb (quantidade_final a) f_1e_9
         then (0 - custo_posicao_final a)%Qc else 0%Qc) /\
    forall preco_atual, exists a',
      _analisar_moeda dois_eth preco_atual = Ok a' /\
      custo_posicao_final a' = custo_posicao_final a /\
      lucro_realizado a' = lucro_realizado a.
Proof.
  apply (C1_missing_price dois_eth [] "ETH").
  - reflexivity.
  - repeat constructor. eexists. reflexivity.
Defined.

(** ** Rows that pass the load and stop the core *)

(** C5 fails on this row: [carregar_operacoes] keeps it (the price is not
    among the required cells), and [_analisar_moeda] raises on it when it
    converts the price, and with it [calcular_portfolio] and
    [calcular_distribuicao_portfolio]; only the ledger goes through. *)
Theorem C5_empty_price_raises :
  exists op,
    carregar_operacoes (Some [linha_sem_preco]) = [op] /\
    Preco op = Some "" /\
    (forall preco_atual,
        _analisar_moeda [op] preco_atual = Raise InvalidOperation) /\
    (forall precos_atuais,
        calcular_portfolio [op] precos_atuais = Raise InvalidOperation) /\
    (forall precos_atuais,
        calcular_distribuicao_portfolio [op] precos_atuais
          = Raise InvalidOperation) /\
    saldo_atual (calcular_saldo_usdt [op]) = float_of_Z (-500).
Proof.
  eexists. split; [vm_compute; reflexivity |].
  split; [reflexivity |].
  split; [intros; reflexivity |].
  split; [intros; reflexivity |].
  split; [intros; reflexivity |].
  float_eq.
Qed.

(** ** The order of the input *)

Lemma sorted_by_data_mesma_ordem (l l' : list operacao) :
  mesma_ordem_por_data l l' -> sorted_by_data l' = sorted_by_data l.
Proof.
  intros H. apply sorted_unique; try apply sorted_by_data_sorted.
  intros t. rewrite !sorted_by_data_com_data. apply H.
Qed.

Lemma com_data_perm (t : string) (l l' : list operacao) :
  Permutation l l' -> Permutation (com_data t l) (com_data t l').
Proof.
  induction 1 as [| x l l' _ IH | x y l | l l' l'' _ IH1 _ IH2]; simpl.
  - constructor.
  - destruct (Data x =? t)%string; [now constructor | assumption].
  - destruct (Data x =? t)%string, (Data y =? t)%string;
      try reflexivity; apply perm_swap.
  - now transitivity (com_data t l').
Qed.

Lemma com_data_unico (t : string) (l : list operacao) :
  NoDup (map Data l) -> (List.length (com_data t l) <= 1)%nat.
Proof.
  induction l as [| x l IH]; simpl; intros Hnd; [lia |].
  inversion Hnd as [| ? ? Hnot Hnd']; subst.
  destruct (String.eqb_spec (Data x) t) as [Hx | Hx]; [| now apply IH].
  simpl. destruct (com_data t l) as [| y r] eqn:Hy; [simpl; lia |].
  exfalso. apply Hnot.
  assert (Hin : In y (com_data t l)) by (rewrite Hy; now left).
  apply com_data_In in Hin. destruct Hin as [Hin Hd].
  rewrite Hx, <- Hd. now apply in_map.
Qed.

(** With pairwise distinct timestamps every permutation qualifies. *)
Lemma datas_distintas_mesma_ordem (l l' : list operacao) :
  NoDup (map Data l) -> Permutation l l' -> mesma_ordem_por_data l l'.
Proof.
  intros Hnd Hp t.
  pose proof (com_data_unico t l Hnd) as Hl.
  pose proof (com_data_perm t l l' Hp) as Hpt.
  destruct (com_data t l) as [| x [| y r]]; simpl in Hl; try lia.
  - now apply Permutation_nil in Hpt.
  - now apply Permutation_length_1_inv in Hpt.
Qed.

(** A BUY and a SELL of the same second: entered in this order the sale is
    carried out (realized profit 50, nothing left), entered in the other
    order it is turned down (realized profit 0, one unit left). *)
Lemma C7_counterexample :
  Permutation [compra_t; venda_t] [venda_t; compra_t] /\
  (exists a a',
      _analisar_moeda (sorted_by_data [compra_t; venda_t]) 0%Qc = Ok a /\
      _analisar_moeda (sorted_by_data [venda_t; compra_t]) 0%Qc = Ok a' /\
      lucro_realizado a = float_of_Z 50 /\ lucro_realizado a' = float_of_Z 0 /\
      quantidade_final a = float_of_Z 0 /\ quantidade_final a' = float_of_Z 1) /\
  calcular_portfolio [compra_t; venda_t] []
    <> calcular_portfolio [venda_t; compra_t] [].
Proof.
  split; [apply perm_swap |]. split.
  - eexists. eexists.
    split; [vm_compute; reflexivity |]. split; [vm_compute; reflexivity |].
    repeat split; float_eq.
  - intros H. vm_compute in H. discriminate H.
Qed.

(** C7, as the code has it. A permutation of the transaction list that
    keeps the transactions of one timestamp in their relative order changes
    nothing: the ledger, the grouping by asset and with it every position,
    the portfolio and the allocation are the same. *)
Theorem C7_order_independent (l l' : list operacao) :
  Permutation l l' ->
  mesma_ordem_por_data l l' ->
  calcular_saldo_usdt l' = calcular_saldo_usdt l /\
  ops_por_moeda l' = ops_por_moeda l /\
  forall precos_atuais,
    calcular_portfolio l' precos_atuais = calcular_portfolio l precos_atuais /\
    calcular_distribuicao_portfolio l' precos_atuais
      = calcular_distribuicao_portfolio l precos_atuais.
Proof.
  intros Hp Hord.
  pose proof (sorted_by_data_mesma_ordem l l' Hord) as Hs.
  assert (Hsaldo : calcular_saldo_usdt l' = calcular_saldo_usdt l).
  { unfold calcular_saldo_usdt, replay_saldo. now rewrite Hs. }
  assert (Hgrp : ops_por_moeda l' = ops_por_moeda l).
  { unfold ops_por_moeda. now rewrite Hs. }
  split; [exact Hsaldo |]. split; [exact Hgrp |].
  intros precos_atuais.
  destruct l as [| x l]; destruct l' as [| x' l'].
  - split; reflexivity.
  - apply Permutation_nil in Hp. discriminate.
  - symmetry in Hp. apply Permutation_nil in Hp. discriminate.
  - unfold calcular_portfolio, calcular_distribuicao_portfolio.
    rewrite Hsaldo, Hgrp. split; reflexivity.
Qed.

(** Scenario A entered in reverse. *)
Lemma C7_order_independent_witness :
  calcular_saldo_usdt (rev cenario_A) = calcular_saldo_usdt cenario_A /\
  ops_por_moeda (rev cenario_A) = ops_por_moeda cenario_A /\
  forall precos_atuais,
    calcular_portfolio (rev cenario_A) precos_atuais
      = calcular_portfolio cenario_A precos_atuais /\
    calcular_distribuicao_portfolio (rev cenario_A) precos_atuais
      = calcular_distribuicao_portfolio cenario_A precos_atuais.
Proof.
  apply (C7_order_independent cenario_A (rev cenario_A)).
  - apply Permutation_rev.
  - apply datas_distintas_mesma_ordem; [| apply Permutation_rev].
    repeat constructor; simpl; intuition discriminate.
Defined.

(** ** Dictionaries *)

Lemma dict_get_In {V : Type} (k : string) (d : dict V) (v : V) :
  dict_get k d = Some v -> In (k, v) d.
Proof.
  induction d as [| [k' v'] d IH]; simpl; [discriminate |].
  destruct (String.eqb_spec k k') as [-> | _].
  - intros H. inversion H. now left.
  - intros H. right. now apply IH.
Qed.

Lemma dict_get_None {V : Type} (k : string) (d : dict V) :
  dict_get k d = None -> ~ In k (keys d).
Proof.
  induction d as [| [k' v'] d IH]; simpl; [tauto |].
  destruct (String.eqb_spec k k') as [-> | Hne]; [discriminate |].
  intros H [Heq | Hin]; [congruence | now apply IH].
Qed.

Lemma dict_set_fresh {V : Type} (k : string) (v : V) (d : dict V) :
  ~ In k (keys d) -> dict_set k v d = d ++ [(k, v)].
Proof.
  induction d as [| [k' v'] d IH]; simpl; [reflexivity |].
  intros Hnot. destruct (String.eqb_spec k k') as [-> | _]; [tauto |].
  rewrite IH; [reflexivity | tauto].
Qed.

Lemma keys_dict_set_In {V : Type} (k : string) (v : V) (d : dict V) :
  In k (keys d) -> keys (dict_set k v d) = keys d.
Proof.
  induction d as [| [k' v'] d IH]; simpl; [tauto |].
  intros Hin. destruct (String.eqb_spec k k') as [-> | Hne]; [reflexivity |].
  simpl. f_equal. apply IH. destruct Hin; [congruence | assumption].
Qed.

Lemma Forall_dict_set {V : Type} (P : string * V -> Prop)
    (k : string) (v : V) (d : dict V) :
  P (k, v) -> Forall P d -> Forall P (dict_set k v d).
Proof.
  intros Hkv. induction 1 as [| [k' v'] d Hx Hd IH]; simpl.
  - constructor; [assumption | constructor].
  - destruct (k =? k')%string; constructor; assumption.
Qed.

(** ** The groups *)

Lemma agrupar_chaves (d : dict (list operacao)) (op : operacao) :
  chaves_boas d -> chaves_boas (agrupar d op).
Proof.
  intros [Hnd Hu]. unfold agrupar.
  destruct (String.eqb_spec (Moeda op) "USDT") as [| Hne]; [now split |].
  destruct (dict_get (Moeda op) d) as [ops |] eqn:Hget.
  - apply dict_get_In in Hget.
    assert (Hin : In (Moeda op) (keys d)).
    { unfold keys. change (Moeda op) with (fst (Moeda op, ops)). now apply in_map. }
    unfold chaves_boas. rewrite keys_dict_set_In by assumption. now split.
  - apply dict_get_None in Hget.
    unfold chaves_boas. rewrite dict_set_fresh by assumption.
    unfold keys in *. rewrite map_app. simpl. split.
    + apply NoDup_app_remove_l with (l := []). simpl.
      apply Permutation_NoDup with (l := Moeda op :: map fst d).
      * apply Permutation_cons_append.
      * now constructor.
    + rewrite in_app_iff. simpl. intuition congruence.
Qed.

Lemma ops_por_moeda_chaves (ops : list operacao) :
  chaves_boas (ops_por_moeda ops).
Proof.
  unfold ops_por_moeda.
  assert (H : forall l d, chaves_boas d -> chaves_boas (fold_left agrupar l d)).
  { induction l as [| op l IH]; intros d Hd; simpl; [assumption |].
    apply IH. now apply agrupar_chaves. }
  apply H. split; [constructor | simpl; tauto].
Qed.

Lemma agrupar_valido (d : dict (list operacao)) (op : operacao) :
  preco_valido op -> Forall grupo_valido d -> Forall grupo_valido (agrupar d op).
Proof.
  intros Hop Hd. unfold agrupar.
  destruct (Moeda op =? "USDT")%string; [assumption |].
  destruct (dict_get (Moeda op) d) as [ops |] eqn:Hget.
  - apply Forall_dict_set; [| assumption].
    apply dict_get_In in Hget. rewrite Forall_forall in Hd.
    specialize (Hd _ Hget). unfold grupo_valido in *. simpl in *.
    apply Forall_app. split; [assumption | now constructor].
  - apply Forall_dict_set; [| assumption].
    unfold grupo_valido. simpl. now constructor.
Qed.

Lemma ops_por_moeda_validos (ops : list operacao) :
  Forall preco_valido ops -> Forall grupo_valido (ops_por_moeda ops).
Proof.
  intros Hall. unfold ops_por_moeda.
  assert (Hs : Forall preco_valido (sorted_by_data ops)).
  { eapply Permutation_Forall; [symmetry; apply sorted_by_data_perm | exact Hall]. }
  assert (H : forall l d, Forall preco_valido l -> Forall grupo_valido d ->
                          Forall grupo_valido (fold_left agrupar l d)).
  { induction l as [| op l IH]; intros d Hl Hd; simpl; [assumption |].
    inversion Hl; subst. apply IH; [assumption |]. now apply agrupar_valido. }
  apply H; [exact Hs | constructor].
Qed.

Lemma _analisar_moeda_total (ops : list operacao) (preco_atual : float) :
  Forall preco_valido ops -> exists a, _analisar_moeda ops preco_atual = Ok a.
Proof.
  intros Hall. unfold _analisar_moeda.
  destruct (foldM_total ops Hall acumulador_inicial) as [st ->].
  simpl. eauto.
Qed.

(** ** The allocation *)

(** *** The error of a rounded sum *)

Lemma this_inv (a : Qc) : ((/ a)%Qc == / (a : Q))%Q.
Proof. apply Qred_correct. Qed.

Lemma this_div (a b : Qc) : ((a / b)%Qc == (a : Q) / b)%Q.
Proof. unfold Qcdiv. rewrite this_mult, this_inv. reflexivity. Qed.

Lemma fl_erro_Q (x : Qc) :
  (0 <= x)%Q -> ((x : Q) * (1 - (1 # 9007199254740992)) <= fl x)%Q /\ (fl x <= (x : Q) * (1 + (1 # 9007199254740992)))%Q.
Proof.
  intros Hx. destruct (fl_erro x Hx) as [H1 H2]. unfold Qcle in H1, H2.
  rewrite this_mult in H1, H2. rewrite this_minus in H1. rewrite this_plus in H2.
  rewrite this_u53 in H1, H2. change (this 1%Qc) with 1%Q in H1, H2.
  change (2 ^ (-53))%Q with (1 # 9007199254740992) in H1, H2. split; assumption.
Qed.

(** One more addition: the factor of the error grows by one rounding. *)
Lemma passo_Q (u k A acc v acc' : Q) :
  (0 <= u -> u <= 1 -> 0 <= k -> (k + 1) * u <= 1 -> 0 <= A -> 0 <= v -> 0 <= acc ->
   (1 - k * u) * A <= acc -> acc * (1 - k * u) <= A ->
   (acc + v) * (1 - u) <= acc' -> acc' <= (acc + v) * (1 + u) ->
   (1 - (k + 1) * u) * (A + v) <= acc' /\ acc' * (1 - (k + 1) * u) <= A + v /\
   0 <= acc')%Q.
Proof.
  intros.
  assert (0 <= k * u)%Q by nra.
  assert (0 <= 1 - k * u)%Q by nra.
  assert (0 <= 1 - (k + 1) * u)%Q by nra.
  assert (0 <= k * u * v)%Q by nra.
  assert (0 <= k * u * u)%Q by nra.
  assert (0 <= u * u)%Q by nra.
  assert (0 <= acc + v)%Q by nra.
  assert (0 <= A + v)%Q by nra.
  split; [| split].
  - apply Qle_trans with ((acc + v) * (1 - u))%Q; [| assumption].
    apply Qle_trans with (((1 - k * u) * A + v) * (1 - u))%Q; [| nra].
    apply Qle_trans with (((1 - k * u) * (A + v)) * (1 - u))%Q; [| nra].
    assert (0 <= (k * u * u) * (A + v))%Q by nra. nra.
  - apply Qle_trans with ((acc + v) * (1 + u) * (1 - (k + 1) * u))%Q; [nra |].
    apply Qle_trans with ((acc + v) * (1 - k * u))%Q.
    + assert (0 <= (acc + v) * ((k + 1) * u * u))%Q by nra. nra.
    + nra.
  - nra.
Qed.

(** A percentage, times the divisor. *)
Lemma percent_Q (u v T w q p : Q) :
  (0 <= u -> u <= 1 -> 0 <= v -> 0 < T -> w * T == v ->
   w * (1 - u) <= q -> q <= w * (1 + u) ->
   q * 100 * (1 - u) <= p -> p <= q * 100 * (1 + u) ->
   100 * (1 - u) * (1 - u) * v <= p * T /\ p * T <= 100 * (1 + u) * (1 + u) * v /\
   0 <= p)%Q.
Proof.
  intros Hu0 Hu1 Hv HT Hw Hq1 Hq2 Hp1 Hp2.
  assert (Hw0 : (0 <= w)%Q).
  { destruct (Qlt_le_dec w 0) as [Hn | Hp]; [| exact Hp].
    exfalso. assert (w * T < 0)%Q by nra. lra. }
  assert (Hq0 : (0 <= q)%Q) by nra.
  assert (0 <= 1 - u)%Q by lra.
  assert (Hqa : (w * (1 - u) * (100 * (1 - u)) <= q * (100 * (1 - u)))%Q) by nra.
  assert (Hqb : (q * (100 * (1 + u)) <= w * (1 + u) * (100 * (1 + u)))%Q) by nra.
  assert (Hp0 : (0 <= p)%Q) by nra.
  split; [| split; [| exact Hp0]].
  - apply Qle_trans with (q * 100 * (1 - u) * T)%Q; [| nra].
    setoid_replace (100 * (1 - u) * (1 - u) * v)%Q
      with (w * (1 - u) * (100 * (1 - u)) * T)%Q by (rewrite <- Hw; ring).
    nra.
  - apply Qle_trans with (q * 100 * (1 + u) * T)%Q; [nra |].
    setoid_replace (100 * (1 + u) * (1 + u) * v)%Q
      with (w * (1 + u) * (100 * (1 + u)) * T)%Q by (rewrite <- Hw; ring).
    nra.
Qed.

(** From the two sums to the distance from 100. *)
Lemma final_Q (u n F S P : Q) :
  (0 <= u -> u <= 1 -> 0 <= n -> 2 * n * u <= 1 -> 0 < F -> 0 <= S ->
   (1 - n * u) * S <= F -> F * (1 - n * u) <= S ->
   100 * (1 - u) * (1 - u) * S <= P * F -> P * F <= 100 * (1 + u) * (1 + u) * S ->
   0 <= P ->
   100 - 200 * (n + 3) * u <= P /\ P <= 100 + 200 * (n + 3) * u)%Q.
Proof.
  intros Hu0 Hu1 Hn Hnu HF HS H1 H2 H3 H4 HP.
  assert (Hm : (1 # 2 <= 1 - n * u)%Q) by lra.
  set (m := (1 - n * u)%Q) in *.
  assert (Hnu0 : (0 <= n * u)%Q) by nra.
  assert (Hup : (P * m <= 100 * (1 + u) * (1 + u))%Q).
  { destruct (Qlt_le_dec (100 * (1 + u) * (1 + u)) (P * m)) as [Hc | Hc]; [| exact Hc].
    exfalso.
    assert (100 * (1 + u) * (1 + u) * F < P * m * F)%Q by nra.
    assert (100 * (1 + u) * (1 + u) * (m * S) <= 100 * (1 + u) * (1 + u) * F)%Q by nra.
    assert (P * F * m <= 100 * (1 + u) * (1 + u) * S * m)%Q by nra.
    nra. }
  assert (Hlo : (100 * (1 - u) * (1 - u) * m <= P)%Q).
  { destruct (Qlt_le_dec P (100 * (1 - u) * (1 - u) * m)) as [Hc | Hc]; [| exact Hc].
    exfalso.
    assert (P * F < 100 * (1 - u) * (1 - u) * m * F)%Q by nra.
    assert (100 * (1 - u) * (1 - u) * (F * m) <= 100 * (1 - u) * (1 - u) * S)%Q by nra.
    nra. }
  split.
  - apply Qle_trans with (100 * (1 - u) * (1 - u) * m)%Q; [| exact Hlo].
    subst m. assert (0 <= u * u)%Q by nra. assert (0 <= n * u * u)%Q by nra.
    assert (0 <= n * u * u * u)%Q by nra. nra.
  - set (B := (100 + 200 * (n + 3) * u)%Q).
    destruct (Qlt_le_dec B P) as [Hc | Hc]; [| exact Hc]. exfalso.
    assert (HB : (100 * (1 + u) * (1 + u) <= B * m)%Q).
    { subst B m.
      assert (0 <= u * u)%Q by nra.
      assert (Hx : ((2 * n * n + 6 * n + 1) * u <= n + 4)%Q).
      { assert (2 * n * n * u <= n)%Q by nra. nra. }
      assert (0 <= u * (n + 4 - (2 * n * n + 6 * n + 1) * u))%Q by nra.
      nra. }
    assert (B * m < P * m)%Q by nra. lra.
Qed.

(** The rounded sum of values that are not negative, against their exact
    sum: after [k] additions the two differ by the factor [1 - k * 2^-53] at
    most, either way. *)
Lemma soma_rodada (d : dict alocacao) :
  Forall (fun kv => (0 <= valor_atual (snd kv))%Qc) d ->
  forall (acc A : Qc) (k : nat),
    (0 <= A)%Q -> (0 <= acc)%Q ->
    ((1 - inject_Z (Z.of_nat k) * (1 # 9007199254740992)) * A <= acc)%Q ->
    ((acc : Q) * (1 - inject_Z (Z.of_nat k) * (1 # 9007199254740992)) <= A)%Q ->
    (inject_Z (Z.of_nat (k + List.length d)) * (1 # 9007199254740992) <= 1)%Q ->
    let F := fold_left (fun acc kv => fadd acc (valor_atual (snd kv))) d acc in
    let S := (A + soma_exata d)%Qc in
    ((1 - inject_Z (Z.of_nat (k + List.length d)) * (1 # 9007199254740992)) * S <= F)%Q /\
    ((F : Q) * (1 - inject_Z (Z.of_nat (k + List.length d)) * (1 # 9007199254740992)) <= S)%Q /\
    (0 <= S)%Q /\ (0 <= F)%Q.
Proof.
  induction 1 as [| [m a] d Hv _ IH]; intros acc A k HA Hacc H1 H2 Hn; cbv zeta.
  - cbn [fold_left soma_exata fold_right List.length].
    rewrite Nat.add_0_r. rewrite this_plus. change (this 0%Qc) with 0%Q.
    rewrite Qplus_0_r. split; [| split; [| split]]; assumption.
  - cbn [fold_left soma_exata fold_right List.length snd] in *.
    replace (k + S (List.length d))%nat with (S k + List.length d)%nat in * by lia.
    set (v := valor_atual a) in *. unfold Qcle in Hv. change (this 0%Qc) with 0%Q in Hv.
    assert (Hk : (inject_Z (Z.of_nat (S k)) == inject_Z (Z.of_nat k) + 1)%Q).
    { rewrite Nat2Z.inj_succ. unfold Z.succ. now rewrite inject_Z_plus. }
    assert (Hk0 : (0 <= inject_Z (Z.of_nat k))%Q).
    { change 0%Q with (inject_Z 0). rewrite <- Zle_Qle. lia. }
    assert (Hkn : (inject_Z (Z.of_nat (S k)) <= inject_Z (Z.of_nat (S k + List.length d)))%Q).
    { rewrite <- Zle_Qle. lia. }
    assert (Hsum : (0 <= (acc + v)%Qc)%Q) by (rewrite this_plus; lra).
    destruct (fl_erro_Q (acc + v)%Qc Hsum) as [He1 He2].
    rewrite this_plus in He1, He2. fold (fadd acc v) in He1, He2.
    destruct (passo_Q (1 # 9007199254740992) (inject_Z (Z.of_nat k)) A acc v (fadd acc v))
      as (P1 & P2 & P3); try assumption; try lra; try (rewrite <- Hk; nra).
    specialize (IH (fadd acc v) (A + v)%Qc (S k)).
    rewrite this_plus in IH. cbv zeta in IH.
    destruct IH as (I1 & I2 & I3 & I4); try assumption; try lra;
      try (rewrite Hk; assumption).
    assert (Hassoc : ((A + v + soma_exata d)%Qc == (A + (v + soma_exata d))%Qc)%Q).
    { rewrite !this_plus. ring. }
    rewrite <- Hassoc. split; [| split; [| split]]; assumption.
Qed.

Lemma soma_valor_perto (d : dict alocacao) :
  Forall (fun kv => (0 <= valor_atual (snd kv))%Qc) d ->
  (inject_Z (Z.of_nat (List.length d)) * (1 # 9007199254740992) <= 1)%Q ->
  ((1 - inject_Z (Z.of_nat (List.length d)) * (1 # 9007199254740992)) * soma_exata d <= soma_valor d)%Q /\
  ((soma_valor d : Q) * (1 - inject_Z (Z.of_nat (List.length d)) * (1 # 9007199254740992))
   <= soma_exata d)%Q /\
  (0 <= soma_exata d)%Q.
Proof.
  intros Hd Hn.
  destruct (soma_rodada d Hd 0%Qc 0%Qc 0%nat) as (H1 & H2 & H3 & _);
    try (change (this 0%Qc) with 0%Q; cbn [Z.of_nat Nat.add]; lra).
  cbv zeta in *. cbn [Nat.add] in *.
  assert (Hz : ((0 + soma_exata d)%Qc == soma_exata d)%Q).
  { rewrite this_plus. change (this 0%Qc) with 0%Q. ring. }
  rewrite Hz in H1, H2, H3. unfold soma_valor. split; [| split]; assumption.
Qed.

(** The percentages, times the divisor, against the exact sum of the
    values. *)
Lemma percentuais_vezes_total (T : float) (d : dict alocacao) :
  (0 < T)%Qc ->
  Forall (fun kv => (0 <= valor_atual (snd kv))%Qc) d ->
  let P := soma_percentual
             (map (fun kv => (fst kv, definir_percentual T (snd kv))) d) in
  (100 * (1 - (1 # 9007199254740992)) * (1 - (1 # 9007199254740992)) * soma_exata d <= (P : Q) * T)%Q /\
  ((P : Q) * T <= 100 * (1 + (1 # 9007199254740992)) * (1 + (1 # 9007199254740992)) * soma_exata d)%Q /\
  (0 <= P)%Q.
Proof.
  intros HT. assert (HTb : float_gtb T 0%Qc = true) by now apply float_gtb_spec.
  unfold Qclt in HT. change (this 0%Qc) with 0%Q in HT.
  induction 1 as [| [m a] d Hv _ IH]; cbv zeta in *.
  - cbn [map soma_percentual soma_exata fold_right]. change (this 0%Qc) with 0%Q.
    clear HTb. split; [lra | split; lra].
  - cbn [map soma_percentual soma_exata fold_right fst snd] in *.
    destruct IH as (I1 & I2 & I3).
    unfold percentual_de at 1 3 5, definir_percentual at 1 3 5.
    cbn [percentual valor_atual]. rewrite HTb. clear HTb.
    set (v := valor_atual a) in *. unfold Qcle in Hv. change (this 0%Qc) with 0%Q in Hv.
    rewrite !this_plus.
    assert (Hw : (((v / T)%Qc : Q) * T == v)%Q).
    { rewrite this_div. field. lra. }
    assert (Hw0 : (0 <= (v / T)%Qc)%Q).
    { rewrite this_div. apply Qle_shift_div_l; [exact HT | lra]. }
    destruct (fl_erro_Q (v / T)%Qc Hw0) as [Hq1 Hq2]. fold (fdiv v T) in Hq1, Hq2.
    assert (Hq0 : (0 <= fdiv v T)%Q) by nra.
    assert (Hx0 : (0 <= (fdiv v T * f_100)%Qc)%Q).
    { rewrite this_mult. change (this f_100) with 100%Q. lra. }
    destruct (fl_erro_Q (fdiv v T * f_100)%Qc Hx0) as [Hp1 Hp2].
    rewrite this_mult in Hp1, Hp2. change (this f_100) with 100%Q in Hp1, Hp2.
    fold (fmul (fdiv v T) f_100) in Hp1, Hp2.
    destruct (percent_Q (1 # 9007199254740992) v T (v / T)%Qc (fdiv v T) (fmul (fdiv v T) f_100))
      as (Q1 & Q2 & Q3); try assumption; try lra.
    fold (soma_exata d).
    fold (soma_percentual
            (map (fun kv => (fst kv, definir_percentual T (snd kv))) d)).
    split; [nra | split; [nra | lra]].
Qed.

(** When the divisor is the rounded sum of the values, the percentages are
    within the tolerance of 100. *)
Lemma soma_percentual_perto (d : dict alocacao) :
  Forall (fun kv => (0 <= valor_atual (snd kv))%Qc) d ->
  (0 < soma_valor d)%Qc ->
  (Z.of_nat (List.length d) <= 2 ^ 52)%Z ->
  let P := soma_percentual
             (map (fun kv => (fst kv, definir_percentual (soma_valor d) (snd kv))) d) in
  (f_100 - tolerancia (List.length d) <= P)%Qc /\
  (P <= f_100 + tolerancia (List.length d))%Qc.
Proof.
  intros Hd HT Hn. cbv zeta.
  assert (HnQ : (inject_Z (Z.of_nat (List.length d)) <= inject_Z (2 ^ 52))%Q)
    by now rewrite <- Zle_Qle.
  change (inject_Z (2 ^ 52)) with (4503599627370496 # 1)%Q in HnQ.
  assert (Hn0 : (0 <= inject_Z (Z.of_nat (List.length d)))%Q).
  { change 0%Q with (inject_Z 0). rewrite <- Zle_Qle. lia. }
  destruct (soma_valor_perto d Hd) as (S1 & S2 & S3); [lra |].
  destruct (percentuais_vezes_total (soma_valor d) d HT Hd) as (P1 & P2 & P3).
  cbv zeta in P1, P2, P3.
  unfold Qclt in HT. change (this 0%Qc) with 0%Q in HT.
  unfold Qcle. rewrite this_minus, this_plus.
  unfold tolerancia. rewrite this_mult, this_u53, this_Q2Qc.
  change (2 ^ (-53))%Q with (1 # 9007199254740992). change (this f_100) with 100%Q.
  rewrite inject_Z_mult, inject_Z_plus.
  change (inject_Z 200) with 200%Q. change (inject_Z 3) with 3%Q.
  apply (final_Q (1 # 9007199254740992) (inject_Z (Z.of_nat (List.length d))) (soma_valor d) (soma_exata d));
    try assumption; lra.
Qed.

(** *** The loop over the groups *)

Lemma agrupar_legivel (d : dict (list operacao)) (op : operacao) :
  (Moeda op <> "USDT" -> preco_valido op) ->
  Forall grupo_valido d -> Forall grupo_valido (agrupar d op).
Proof.
  intros Hop Hd.
  destruct (String.eqb_spec (Moeda op) "USDT") as [He | Hne].
  - unfold agrupar. rewrite He. exact Hd.
  - apply agrupar_valido; [now apply Hop | exact Hd].
Qed.

Lemma ops_por_moeda_legiveis (ops : list operacao) :
  precos_legiveis ops -> Forall grupo_valido (ops_por_moeda ops).
Proof.
  intros Hall. unfold ops_por_moeda, precos_legiveis in *.
  assert (Hs : Forall (fun o => Moeda o <> "USDT" -> preco_valido o)
                 (sorted_by_data ops)).
  { eapply Permutation_Forall; [symmetry; apply sorted_by_data_perm | exact Hall]. }
  assert (H : forall l d,
             Forall (fun o => Moeda o <> "USDT" -> preco_valido o) l ->
             Forall grupo_valido d -> Forall grupo_valido (fold_left agrupar l d)).
  { induction l as [| op l IH]; intros d Hl Hd; simpl; [assumption |].
    inversion Hl; subst. apply IH; [assumption |]. now apply agrupar_legivel. }
  apply H; [exact Hs | constructor].
Qed.

Lemma precos_validos_legiveis (ops : list operacao) :
  Forall preco_valido ops -> precos_legiveis ops.
Proof.
  intros H. unfold precos_legiveis. eapply Forall_impl; [| exact H]. auto.
Qed.

Lemma soma_valor_app (d : dict alocacao) (x : string * alocacao) :
  soma_valor (d ++ [x]) = fadd (soma_valor d) (valor_atual (snd x)).
Proof.
  unfold soma_valor. now rewrite fold_left_app.
Qed.

(** The rounded sum is a float. *)
Lemma soma_valor_fl (d : dict alocacao) : fl (soma_valor d) = soma_valor d.
Proof.
  destruct d as [| x d] using rev_ind.
  - apply fl_0.
  - rewrite soma_valor_app. apply fl_idem.
Qed.

Lemma f_0_01_pos : (0 < f_0_01)%Qc.
Proof. vm_compute. reflexivity. Qed.

Lemma distribuir_total (precos_atuais : dict float) (g : dict (list operacao)) :
  Forall grupo_valido g ->
  forall st, exists st', foldM (passo_distribuicao precos_atuais) g st = Ok st'.
Proof.
  induction 1 as [| [m ops] g Hops _ IH]; intros [d tot]; simpl; [eauto |].
  destruct (_analisar_moeda_total ops (preco_de precos_atuais m) Hops) as [a ->].
  simpl. destruct (float_gtb (valor_atual_posicao a) f_0_01); simpl; apply IH.
Qed.

(** The values kept in the dictionary are above 0.01 and add up, in the
    order of the dictionary, to the crypto total. *)
Lemma distribuir_soma (precos_atuais : dict float) (g : dict (list operacao)) :
  NoDup (keys g) -> ~ In "USDT" (keys g) ->
  forall d tot d' tot',
    (forall k, In k (keys d) -> ~ In k (keys g)) ->
    ~ In "USDT" (keys d) ->
    soma_valor d = tot ->
    Forall (fun kv => (f_0_01 < valor_atual (snd kv))%Qc) d ->
    foldM (passo_distribuicao precos_atuais) g (d, tot) = Ok (d', tot') ->
    soma_valor d' = tot' /\ ~ In "USDT" (keys d') /\
    Forall (fun kv => (f_0_01 < valor_atual (snd kv))%Qc) d'.
Proof.
  induction g as [| [m ops] g IH];
    intros Hnd Hu d tot d' tot' Hdis Hud Hsum Hpos Hrun; simpl in Hrun.
  - inversion Hrun. subst. split; [reflexivity | split; assumption].
  - simpl in Hnd, Hu. apply NoDup_cons_iff in Hnd. destruct Hnd as [Hm Hnd].
    assert (Hug : ~ In "USDT" (keys g)) by tauto.
    destruct (_analisar_moeda ops (preco_de precos_atuais m)) as [a |];
      simpl in Hrun; [| discriminate].
    destruct (float_gtb (valor_atual_posicao a) f_0_01) eqn:Hgt; simpl in Hrun.
    + assert (Hfresh : ~ In m (keys d)).
      { intros Hin. apply (Hdis m Hin). now left. }
      rewrite (dict_set_fresh m _ d Hfresh) in Hrun.
      refine (IH Hnd Hug _ _ d' tot' _ _ _ _ Hrun).
      * intros k Hk Hkg. unfold keys in Hk. rewrite map_app, in_app_iff in Hk.
        destruct Hk as [Hk | [<- | []]]; [| tauto].
        apply (Hdis k Hk). now right.
      * unfold keys. rewrite map_app, in_app_iff. simpl. tauto.
      * rewrite soma_valor_app. simpl. now rewrite Hsum.
      * apply Forall_app. split; [assumption |]. constructor; [| constructor].
        simpl. now apply float_gtb_spec.
    + refine (IH Hnd Hug d tot d' tot' _ Hud Hsum Hpos Hrun).
      intros k Hk Hkg. apply (Hdis k Hk). now right.
Qed.

Lemma acima_de_0_01 (d : dict alocacao) :
  Forall (fun kv => (f_0_01 < valor_atual (snd kv))%Qc) d ->
  Forall (fun kv => (0 <= valor_atual (snd kv))%Qc) d.
Proof.
  intros H. eapply Forall_impl; [| exact H]. intros kv Hkv. simpl in Hkv.
  apply Qclt_le_weak. eapply Qclt_trans; [apply f_0_01_pos | exact Hkv].
Qed.




(** On that input the rounding shows: the two percentages are the floats
    next to 200/3 and 100/3, and their sum is below 100. *)
Example percentuais_arredondados :
  exists r,
    calcular_distribuicao_portfolio deposito_e_compra
      [("BTC", float_of_Z 2000)] = Ok r /\
    (soma_percentual (distribuicao r) < f_100)%Qc.
Proof.
  eexists. split; [vm_compute; reflexivity |]. vm_compute. reflexivity.
Qed.

(** ** Readable prices are all the core needs *)

Lemma agregar_total (precos_atuais : dict float) (g : dict (list operacao)) :
  Forall grupo_valido g ->
  forall st, exists st', foldM (passo_portfolio precos_atuais) g st = Ok st'.
Proof.
  induction 1 as [| [m ops] g Hops _ IH]; intros [resultado tot]; simpl; [eauto |].
  destruct (_analisar_moeda_total ops (preco_de precos_atuais m) Hops) as [a ->].
  simpl. destruct (_ || _); apply IH.
Qed.

(** When every price cell holds a numeral, the three computations return. *)
Lemma nucleo_total (ops : list operacao) (precos_atuais : dict float) :
  Forall preco_valido ops ->
  (exists r, calcular_portfolio ops precos_atuais = Ok r) /\
  (exists r, calcular_distribuicao_portfolio ops precos_atuais = Ok r).
Proof.
  intros Hall. pose proof (ops_por_moeda_validos ops Hall) as Hval.
  destruct ops as [| x l]; [split; eexists; reflexivity |].
  split.
  - unfold calcular_portfolio.
    destruct (agregar_total precos_atuais _ Hval
                ([], mk_totais 0%Qc 0%Qc 0%Qc 0%Qc)) as [[resultado tot] ->].
    simpl. eauto.
  - unfold calcular_distribuicao_portfolio.
    destruct (distribuir_total precos_atuais _ Hval ([], 0%Qc)) as [[d tot] ->].
    simpl. eauto.
Qed.

(** Scenario D of the specification: an empty log gives an empty result,
    with no totals. *)
Example cenario_D (precos_atuais : dict float) :
  calcular_portfolio [] precos_atuais = Ok [] /\
  carregar_operacoes None = [] /\
  historico (calcular_saldo_usdt []) = [] /\
  saldo_atual (calcular_saldo_usdt []) = 0%Qc.
Proof.
  repeat split.
Qed.

(** * Further properties *)

(** ** More on decimals *)

Lemma sub_igual_zero (a b : Dec.dec) :
  Dec.compare b a = Eq -> Dec.coef (Dec.sub a b) = 0.
Proof.
  unfold Dec.compare, Dec.sub, Dec.align. intros H.
  apply Z.compare_eq in H. rewrite (Z.min_comm (Dec.expo b) (Dec.expo a)) in H.
  rewrite H, Z.sub_diag. reflexivity.
Qed.

Lemma float_of_dec_coef_zero (d : Dec.dec) :
  Dec.coef d = 0 -> float_of_dec d = 0%Qc.
Proof.
  intros H. apply Qc_is_canon. unfold float_of_dec. simpl.
  rewrite !Qred_correct. unfold Dec.to_Q. rewrite H.
  destruct (0 <=? Dec.expo d); reflexivity.
Qed.

Lemma gtb_coef_zero (d : Dec.dec) :
  Dec.coef d = 0 -> Dec.gtb d (Dec.mk 1 (-9)) = false.
Proof.
  intros H. unfold Dec.gtb, Dec.compare, Dec.align.
  cbn [Dec.coef Dec.expo]. rewrite H, Z.mul_0_l, Z.mul_1_l.
  assert (Hp : 0 < 10 ^ (-9 - Z.min (Dec.expo d) (-9)))
    by (apply Z.pow_pos_nonneg; lia).
  apply Z.compare_lt_iff in Hp. rewrite Hp. reflexivity.
Qed.

(** ** The position accountant, further *)

(** X1. A sale of exactly the quantity held, carried out after any run,
    leaves a snapshot with quantity 0, cost basis 0, market value 0 and
    unrealized profit 0; the realized profit has grown by the amount of the
    sale minus quantity times the average cost, and it is the whole profit. *)
Theorem X1_sale_of_all
    (pre : list operacao) (op : operacao) (st : acumulador) (p : Dec.dec)
    (preco_atual : float) :
  foldM passo_moeda pre acumulador_inicial = Ok st ->
  Operacao op = "venda" ->
  Decimal_str (Preco op) = Ok p ->
  sem_posicao st = false ->
  Dec.compare (Quantidade op) (quantidade_total st) = Eq ->
  exists a,
    _analisar_moeda (pre ++ [op]) preco_atual = Ok a /\
    quantidade_final a = 0%Qc /\
    custo_posicao_final a = 0%Qc /\
    valor_atual_posicao a = 0%Qc /\
    lucro_nao_realizado a = 0%Qc /\
    lucro_realizado a
      = float_of_dec
          (Dec.add (lucro_realizado_acc st)
             (Dec.sub (Valor_USDT op) (Dec.mul (Quantidade op) (pmc st)))) /\
    lucro_total a = lucro_realizado a.
Proof.
  intros Hpre Hop Hp Hg Heq.
  pose proof (sub_igual_zero _ _ Heq) as Hz.
  unfold _analisar_moeda. rewrite foldM_app, Hpre. simpl.
  unfold passo_moeda, Decimal_float. rewrite Hp, Hop. simpl.
  unfold sem_posicao in Hg. rewrite Hg. simpl.
  eexists. split; [reflexivity |].
  unfold fechar. simpl.
  rewrite (float_of_dec_coef_zero _ Hz), (gtb_coef_zero _ Hz).
  assert (Hd : float_gtb 0%Qc f_1e_9 = false) by reflexivity.
  rewrite Hd.
  repeat split.
  - destruct (float_gtb preco_atual 0%Qc); [apply fmul_0_l | reflexivity].
  - apply fadd_0_r, float_of_dec_fl.
Qed.

(** One unit bought for 100, then one unit sold for 150. *)
Lemma X1_sale_of_all_witness :
  exists a,
    _analisar_moeda ([compra_1_por_100] ++ [venda_t]) 0%Qc = Ok a /\
    quantidade_final a = 0%Qc /\
    custo_posicao_final a = 0%Qc /\
    valor_atual_posicao a = 0%Qc /\
    lucro_nao_realizado a = 0%Qc /\
    lucro_realizado a
      = float_of_dec
          (Dec.add (lucro_realizado_acc apos_compra_1)
             (Dec.sub (Valor_USDT venda_t)
                (Dec.mul (Quantidade venda_t) (pmc apos_compra_1)))) /\
    lucro_total a = lucro_realizado a.
Proof.
  apply (X1_sale_of_all [compra_1_por_100] venda_t apos_compra_1
           (Dec.mk 1500 (-1)) 0%Qc).
  - vm_compute. reflexivity.
  - reflexivity.
  - reflexivity.
  - reflexivity.
  - reflexivity.
Defined.

(** The average cost moves on purchases only. *)
Lemma sem_compra_pmc (l : list operacao) :
  forall st st',
    Forall (fun o => Operacao o <> "compra") l ->
    foldM passo_moeda l st = Ok st' ->
    pmc st' = pmc st.
Proof.
  induction l as [| op l IH]; intros st st' Hl Hrun; simpl in Hrun.
  - inversion Hrun; subst. reflexivity.
  - inversion Hl as [| ? ? Hop Hl']; subst.
    unfold passo_moeda, Decimal_float in Hrun.
    destruct (Decimal_str (Preco op)) as [p |]; simpl in Hrun; [| discriminate].
    destruct (String.eqb_spec (Operacao op) "compra") as [| _]; [contradiction |].
    destruct (Operacao op =? "venda")%string;
      [destruct (_ || _) |]; simpl in Hrun;
      apply IH in Hrun; try assumption; exact Hrun.
Qed.

(** X2. Whatever follows the last purchase (sales carried out or turned
    down, rows of another kind) leaves the average cost of the snapshot as
    that purchase set it. *)
Theorem X2_average_cost_kept
    (ops resto : list operacao) (preco_atual preco_atual' : float) :
  Forall preco_valido (ops ++ resto) ->
  Forall (fun o => Operacao o <> "compra") resto ->
  exists a a',
    _analisar_moeda ops preco_atual = Ok a /\
    _analisar_moeda (ops ++ resto) preco_atual' = Ok a' /\
    pmc_final a' = pmc_final a.
Proof.
  intros Hall Hresto.
  apply Forall_app in Hall. destruct Hall as [Hops Hr].
  destruct (foldM_total ops Hops acumulador_inicial) as [st Hst].
  destruct (foldM_total resto Hr st) as [st' Hst'].
  exists (fechar st preco_atual), (fechar st' preco_atual').
  unfold _analisar_moeda. rewrite foldM_app, Hst. simpl. rewrite Hst'. simpl.
  repeat split.
  now rewrite (sem_compra_pmc resto st st' Hresto Hst').
Qed.

(** Two purchases, then a sale and a sale of too much. *)
Lemma X2_average_cost_kept_witness :
  exists a a',
    _analisar_moeda duas_compras 0%Qc = Ok a /\
    _analisar_moeda (duas_compras ++ [venda_exemplo; venda_2_por_300]) 1%Qc = Ok a' /\
    pmc_final a' = pmc_final a.
Proof.
  apply (X2_average_cost_kept duas_compras [venda_exemplo; venda_2_por_300] 0%Qc 1%Qc).
  - repeat constructor; eexists; reflexivity.
  - repeat constructor; discriminate.
Defined.

Lemma espelha_passo (st st' : acumulador) (op : operacao) :
  passo_moeda st op = Ok st' ->
  exists l,
    operacoes_processadas st' = operacoes_processadas st ++ l /\
    Forall2 espelha (if reconhecida op then [op] else []) l.
Proof.
  unfold passo_moeda, Decimal_float, reconhecida. intros Hrun.
  destruct (Decimal_str (Preco op)) as [p |] eqn:Hp; simpl in Hrun; [| discriminate].
  destruct (String.eqb_spec (Operacao op) "compra") as [Hc | Hc]; simpl.
  - destruct (if Dec.gt0 _ then _ else _) as [w |]; simpl in Hrun; [| discriminate].
    inversion Hrun; subst; simpl. eexists. split; [reflexivity |].
    repeat constructor; simpl; eauto.
  - destruct (String.eqb_spec (Operacao op) "venda") as [Hv | Hv].
    + destruct (_ || _); inversion Hrun; subst; simpl;
        (eexists; split; [reflexivity |]);
        repeat constructor; simpl; eauto.
    + inversion Hrun; subst. exists []. rewrite app_nil_r. split; constructor.
Qed.

Lemma espelha_run (ops : list operacao) :
  forall st st',
    foldM passo_moeda ops st = Ok st' ->
    exists l,
      operacoes_processadas st' = operacoes_processadas st ++ l /\
      Forall2 espelha (filter reconhecida ops) l.
Proof.
  induction ops as [| op ops IH]; intros st st' Hrun; simpl in Hrun.
  - inversion Hrun; subst. exists []. rewrite app_nil_r. split; constructor.
  - destruct (passo_moeda st op) as [st1 |] eqn:Hstep; simpl in Hrun; [| discriminate].
    destruct (espelha_passo _ _ _ Hstep) as (l1 & Hl1 & Hm1).
    destruct (IH _ _ Hrun) as (l2 & Hl2 & Hm2).
    exists (l1 ++ l2). split.
    + rewrite Hl2, Hl1, app_assoc. reflexivity.
    + simpl. destruct (reconhecida op).
      * inversion Hm1 as [| ? e ? ? He Hnil]; subst. inversion Hnil; subst.
        simpl. now constructor.
      * inversion Hm1; subst. exact Hm2.
Qed.

(** X3. The list of processed operations of a snapshot has one entry for
    each row spelled 'compra' or 'venda', in the order of the rows, with the
    date, kind, quantity, price and amount of its row: no such row is left
    out, a sale that is turned down included, and no other row is listed. *)
Theorem X3_processed_mirror_rows (ops : list operacao) (preco_atual : float) :
  Forall preco_valido ops ->
  exists a,
    _analisar_moeda ops preco_atual = Ok a /\
    Forall2 espelha (filter reconhecida ops) (operacoes a).
Proof.
  intros Hall.
  destruct (foldM_total ops Hall acumulador_inicial) as [st Hst].
  exists (fechar st preco_atual). unfold _analisar_moeda. rewrite Hst.
  split; [reflexivity |].
  destruct (espelha_run ops _ _ Hst) as (l & Hl & Hm).
  simpl in *. now rewrite Hl.
Qed.

Lemma X3_processed_mirror_rows_witness :
  exists a,
    _analisar_moeda cenario_A 0%Qc = Ok a /\
    Forall2 espelha (filter reconhecida cenario_A) (operacoes a).
Proof.
  apply (X3_processed_mirror_rows cenario_A 0%Qc).
  repeat constructor; eexists; reflexivity.
Defined.

Lemma compra_lucro (st st' : acumulador) (op : operacao) :
  Operacao op = "compra" -> passo_moeda st op = Ok st' ->
  lucro_realizado_acc st' = lucro_realizado_acc st.
Proof.
  unfold passo_moeda, Decimal_float. intros Hop Hrun. rewrite Hop in Hrun.
  destruct (Decimal_str (Preco op)); simpl in Hrun; [| discriminate].
  destruct (if Dec.gt0 _ then _ else _); simpl in Hrun; [| discriminate].
  inversion Hrun; subst. reflexivity.
Qed.

Lemma so_compras_lucro (ops : list operacao) :
  Forall compra_valida ops ->
  forall st st', foldM passo_moeda ops st = Ok st' ->
    lucro_realizado_acc st' = lucro_realizado_acc st.
Proof.
  induction 1 as [| op ops (Hop & _) _ IH]; intros st st' Hrun; simpl in Hrun.
  - inversion Hrun; subst. reflexivity.
  - destruct (passo_moeda st op) as [st1 |] eqn:Hstep; simpl in Hrun; [| discriminate].
    rewrite (IH _ _ Hrun). now apply (compra_lucro st st1 op).
Qed.

(** X4. After purchases only, the snapshot has realized profit 0, the
    quantity is the sum of the quantities bought, and the cost basis is the
    sum of the amounts spent when more than 1e-9 units are held; a position
    of at most 1e-9 units reports cost basis 0. *)
Theorem X4_purchases_only (ops : list operacao) (preco_atual : float) :
  Forall compra_valida ops ->
  exists a,
    _analisar_moeda ops preco_atual = Ok a /\
    lucro_realizado a = 0%Qc /\
    quantidade_final a = float_of_dec (total Quantidade ops) /\
    custo_posicao_final a
      = (if Dec.gtb (total Quantidade ops) (Dec.mk 1 (-9))
         then float_of_dec (total Valor_USDT ops) else 0%Qc).
Proof.
  intros Hall.
  destruct (so_compras ops Hall acumulador_inicial) as (st & Hrun & Hc & Hq & _);
    [simpl; lia |].
  pose proof (so_compras_lucro ops Hall _ _ Hrun) as Hl.
  exists (fechar st preco_atual). unfold _analisar_moeda. rewrite Hrun.
  split; [reflexivity |]. unfold fechar, total. simpl in *.
  rewrite Hl, Hc, Hq. repeat split.
Qed.

(** A purchase of a dust quantity: 1e-10 units for 5. *)
Lemma X4_purchases_only_witness :
  exists a,
    _analisar_moeda compra_de_po 0%Qc = Ok a /\
    lucro_realizado a = 0%Qc /\
    quantidade_final a = float_of_dec (total Quantidade compra_de_po) /\
    custo_posicao_final a
      = (if Dec.gtb (total Quantidade compra_de_po) (Dec.mk 1 (-9))
         then float_of_dec (total Valor_USDT compra_de_po) else 0%Qc).
Proof.
  apply (X4_purchases_only compra_de_po 0%Qc).
  repeat constructor; simpl; try lia. eexists. reflexivity.
Defined.

(** ** The ledger, further *)

Lemma insert_by_data_filter (f : operacao -> bool) (x : operacao) (l : list operacao) :
  StronglySorted antes l ->
  filter f (insert_by_data x l)
    = if f x then insert_by_data x (filter f l) else filter f l.
Proof.
  induction 1 as [| y l Hs IH Hall]; simpl.
  - destruct (f x); reflexivity.
  - destruct (Data x <=? Data y)%string eqn:Hxy; simpl.
    + destruct (f x) eqn:Hfx; destruct (f y) eqn:Hfy; simpl;
        rewrite ?Hxy; try reflexivity.
      (* y is dropped: x still goes first *)
      assert (Hx : Forall (antes x) (filter f l)).
      { apply Forall_forall. intros z Hz. apply filter_In in Hz.
        rewrite Forall_forall in Hall. unfold antes in *.
        eapply data_leb_trans; [exact Hxy | apply Hall, Hz]. }
      destruct (filter f l) as [| z r]; [reflexivity |].
      simpl. inversion Hx as [| ? ? Hz _]; subst. unfold antes in Hz.
      now rewrite Hz.
    + rewrite IH. destruct (f x) eqn:Hfx; destruct (f y) eqn:Hfy; simpl;
        rewrite ?Hxy; reflexivity.
Qed.

(** Sorting and dropping rows commute. *)
Lemma sorted_by_data_filter (f : operacao -> bool) (l : list operacao) :
  sorted_by_data (filter f l) = filter f (sorted_by_data l).
Proof.
  induction l as [| x l IH]; simpl; [reflexivity |].
  rewrite insert_by_data_filter by apply sorted_by_data_sorted.
  destruct (f x); simpl; now rewrite IH.
Qed.

Lemma passo_saldo_ignora (st : Dec.dec * list movimento) (op : operacao) :
  reconhecida op = false -> passo_saldo st op = st.
Proof.
  unfold reconhecida, passo_saldo. intros H.
  apply orb_false_iff in H. destruct H as [Hc Hv].
  destruct st as [b h]. simpl. rewrite Hc, Hv.
  destruct (Moeda op =? "USDT")%string; reflexivity.
Qed.

Lemma fold_passo_saldo_filter (l : list operacao) :
  forall st,
    fold_left passo_saldo (filter reconhecida l) st = fold_left passo_saldo l st.
Proof.
  induction l as [| op l IH]; intros st; simpl; [reflexivity |].
  destruct (reconhecida op) eqn:Hr; simpl.
  - apply IH.
  - rewrite passo_saldo_ignora by assumption. apply IH.
Qed.

Lemma passo_moeda_ignora (st : acumulador) (op : operacao) :
  reconhecida op = false -> preco_valido op -> passo_moeda st op = Ok st.
Proof.
  unfold reconhecida, passo_moeda. intros H [p Hp].
  apply orb_false_iff in H. destruct H as [Hc Hv].
  rewrite Hp. simpl. rewrite Hc, Hv. reflexivity.
Qed.

Lemma foldM_passo_moeda_filter (l : list operacao) :
  Forall preco_valido l ->
  forall st,
    foldM passo_moeda (filter reconhecida l) st = foldM passo_moeda l st.
Proof.
  induction 1 as [| op l Hop _ IH]; intros st; simpl; [reflexivity |].
  destruct (reconhecida op) eqn:Hr; simpl.
  - destruct (passo_moeda st op); simpl; [apply IH | reflexivity].
  - rewrite passo_moeda_ignora by assumption. simpl. apply IH.
Qed.

(** X5. The ledger passes over every row whose operation is not spelled
    exactly 'compra' or 'venda': balance and history are those of the log
    without such rows.  The load does let such rows through, since it
    compares the lowered text. *)
Theorem X5_ledger_skips_other_kinds :
  (forall ops : list operacao,
      calcular_saldo_usdt (filter reconhecida ops) = calcular_saldo_usdt ops) /\
  (exists op,
      carregar_operacoes (Some [linha_em_maiusculas]) = [op] /\
      reconhecida op = false).
Proof.
  split.
  - intros ops. unfold calcular_saldo_usdt, replay_saldo.
    rewrite sorted_by_data_filter, fold_passo_saldo_filter. reflexivity.
  - eexists. split; [vm_compute; reflexivity | reflexivity].
Qed.

(** X6. The position accountant passes over the same rows: with readable
    price cells, the snapshot is that of the rows spelled 'compra' or
    'venda' alone. *)
Theorem X6_accountant_skips_other_kinds (ops : list operacao) (preco_atual : float) :
  Forall preco_valido ops ->
  _analisar_moeda (filter reconhecida ops) preco_atual
    = _analisar_moeda ops preco_atual.
Proof.
  intros Hall. unfold _analisar_moeda.
  now rewrite foldM_passo_moeda_filter.
Qed.

(** A purchase, a row spelled 'Compra', a sale. *)
Lemma X6_accountant_skips_other_kinds_witness :
  _analisar_moeda
    (filter reconhecida
       [compra_exemplo;
        mk_operacao "2024-01-05 09:00:00" "BTC" "Compra"
          (Dec.mk 5000 (-1)) (Some "50000.0") (Dec.mk 1 (-2));
        venda_exemplo]) 0%Qc
  = _analisar_moeda
      [compra_exemplo;
       mk_operacao "2024-01-05 09:00:00" "BTC" "Compra"
         (Dec.mk 5000 (-1)) (Some "50000.0") (Dec.mk 1 (-2));
       venda_exemplo] 0%Qc.
Proof.
  apply (X6_accountant_skips_other_kinds
           [compra_exemplo;
            mk_operacao "2024-01-05 09:00:00" "BTC" "Compra"
              (Dec.mk 5000 (-1)) (Some "50000.0") (Dec.mk 1 (-2));
            venda_exemplo] 0%Qc).
  repeat constructor; eexists; reflexivity.
Defined.

Lemma replay_datas (l : list operacao) :
  forall b,
    map Spec.timestamp (snd (Spec.replay b l)) = map Data (filter reconhecida l).
Proof.
  induction l as [| op l IH]; intros b; simpl; [reflexivity |].
  unfold Spec.rule, Spec.kind_of, Spec.is_reference, reconhecida.
  destruct (Operacao op =? "compra")%string;
    [| destruct (Operacao op =? "venda")%string];
    destruct (Moeda op =? "USDT")%string; simpl; try apply IH;
    match goal with
    | |- context [Spec.replay ?b' l] =>
        specialize (IH b'); destruct (Spec.replay b' l) as [bf es]
    end; simpl in *; now rewrite IH.
Qed.

Lemma sorted_map_datas (l : list operacao) (h : list movimento) :
  map mov_data h = map Data l ->
  StronglySorted antes l -> StronglySorted mov_antes h.
Proof.
  revert h. induction l as [| x l IH]; intros h Hm Hs.
  - destruct h; [constructor | discriminate].
  - destruct h as [| e h]; [discriminate |].
    simpl in Hm. inversion Hm as [[He Hh]].
    inversion Hs as [| ? ? Hs' Hall]; subst.
    constructor; [now apply IH |].
    apply Forall_forall. intros e' He'.
    apply (in_map mov_data) in He'. rewrite Hh in He'.
    apply in_map_iff in He'. destruct He' as (y & Hy & Hin).
    rewrite Forall_forall in Hall. specialize (Hall y Hin).
    unfold mov_antes, antes in *. now rewrite He, <- Hy.
Qed.

Lemma filter_sorted (f : operacao -> bool) (l : list operacao) :
  StronglySorted antes l -> StronglySorted antes (filter f l).
Proof.
  induction 1 as [| x l Hs IH Hall]; simpl; [constructor |].
  destruct (f x); [| assumption].
  constructor; [assumption |].
  apply Forall_forall. intros y Hy. apply filter_In in Hy.
  rewrite Forall_forall in Hall. now apply Hall.
Qed.

(** X7. Whatever the order of the rows given, the movement history comes
    out in ascending order of timestamp, with one entry for each row spelled
    'compra' or 'venda'. *)
Theorem X7_history_in_time_order (ops : list operacao) :
  StronglySorted mov_antes (historico (calcular_saldo_usdt ops)) /\
  map mov_data (historico (calcular_saldo_usdt ops))
    = map Data (filter reconhecida (sorted_by_data ops)) /\
  List.length (historico (calcular_saldo_usdt ops))
    = List.length (filter reconhecida ops).
Proof.
  rewrite calcular_saldo_usdt_replay. simpl.
  assert (Hd : map mov_data
                 (map movimento_de (snd (Spec.replay Dec.zero (sorted_by_data ops))))
               = map Data (filter reconhecida (sorted_by_data ops))).
  { rewrite map_map. simpl. apply replay_datas. }
  split; [| split].
  - eapply sorted_map_datas; [exact Hd |].
    apply filter_sorted, sorted_by_data_sorted.
  - exact Hd.
  - apply (f_equal (@List.length string)) in Hd.
    rewrite !length_map in Hd. rewrite length_map, Hd, <- sorted_by_data_filter.
    apply Permutation_length, sorted_by_data_perm.
Qed.

(** ** Floats of decimals, further *)

Lemma pow10_pos (n : Z) : 0 <= n -> 0 < 10 ^ n.
Proof. intros. apply Z.pow_pos_nonneg; lia. Qed.

(** A decimal written at a smaller exponent denotes the same rational. *)
Lemma to_Q_rescale (c E e : Z) :
  e <= E ->
  (Dec.to_Q (Dec.mk (c * 10 ^ (E - e)) e) == Dec.to_Q (Dec.mk c E))%Q.
Proof.
  intros Hle. unfold Dec.to_Q. cbn [Dec.coef Dec.expo].
  destruct (Z.leb_spec 0 e) as [He | He]; destruct (Z.leb_spec 0 E) as [HE | HE];
    try lia; unfold Qeq; simpl.
  - replace (10 ^ E) with (10 ^ (E - e) * 10 ^ e)
      by (rewrite <- Z.pow_add_r by lia; f_equal; lia). ring.
  - rewrite Z2Pos.id by (apply pow10_pos; lia).
    replace (10 ^ (E - e)) with (10 ^ E * 10 ^ (- e))
      by (rewrite <- Z.pow_add_r by lia; f_equal; lia). ring.
  - rewrite !Z2Pos.id by (apply pow10_pos; lia).
    replace (10 ^ (- e)) with (10 ^ (E - e) * 10 ^ (- E))
      by (rewrite <- Z.pow_add_r by lia; f_equal; lia). ring.
Qed.

Lemma to_Q_le_same_expo (x y e : Z) :
  (Dec.to_Q (Dec.mk x e) <= Dec.to_Q (Dec.mk y e))%Q <-> x <= y.
Proof.
  unfold Dec.to_Q. cbn [Dec.coef Dec.expo].
  destruct (Z.leb_spec 0 e) as [He | He]; unfold Qle; simpl.
  - pose proof (pow10_pos e He). nia.
  - rewrite Z2Pos.id by (apply pow10_pos; lia).
    assert (0 < 10 ^ (- e)) by (apply pow10_pos; lia). nia.
Qed.

Lemma to_Q_le (a b : Dec.dec) :
  (Dec.to_Q a <= Dec.to_Q b)%Q <-> Dec.leb a b = true.
Proof.
  destruct a as [ca ea], b as [cb eb].
  unfold Dec.leb, Dec.gtb, Dec.compare, Dec.align. cbn [Dec.coef Dec.expo].
  set (e := Z.min ea eb).
  rewrite <- (to_Q_rescale ca ea e), <- (to_Q_rescale cb eb e) by (subst e; lia).
  rewrite to_Q_le_same_expo.
  destruct (Z.compare_spec (ca * 10 ^ (ea - e)) (cb * 10 ^ (eb - e)));
    simpl; split; intros; try reflexivity; try discriminate; lia.
Qed.

(** [float()] keeps the order of decimals (two decimals may round to the
    same float). *)
Lemma float_of_dec_le (a b : Dec.dec) :
  Dec.leb a b = true -> (float_of_dec a <= float_of_dec b)%Qc.
Proof.
  intros H. apply to_Q_le in H. unfold float_of_dec. apply fl_mono.
  unfold Qcle. now rewrite !this_Q2Qc.
Qed.

Lemma float_of_dec_nonneg_iff (d : Dec.dec) :
  (0 <= float_of_dec d)%Qc <-> 0 <= Dec.coef d.
Proof.
  split; [| apply float_of_dec_nonneg].
  intros H. unfold float_of_dec in H. apply (proj2 (fl_nonneg _)) in H.
  unfold Qcle in H. rewrite (this_Q2Qc (Dec.to_Q d)) in H.
  change (this 0%Qc) with 0%Q in H. destruct d as [c e].
  assert (Hz : (Dec.to_Q (Dec.mk 0 e) == 0)%Q).
  { unfold Dec.to_Q. cbn [Dec.coef Dec.expo]. destruct (0 <=? e); reflexivity. }
  rewrite <- Hz in H. now apply to_Q_le_same_expo in H.
Qed.

Lemma sub_nonneg_iff (a b : Dec.dec) :
  0 <= Dec.coef (Dec.sub a b) <-> Dec.leb b a = true.
Proof.
  split; [| apply DecFacts.sub_nonneg].
  unfold Dec.leb, Dec.gtb, Dec.compare, Dec.sub, Dec.align. intros H.
  apply Z.sgn_nonneg in H. rewrite DecFacts.fix_sgn in H.
  apply Z.sgn_nonneg in H. cbn [Dec.coef] in H.
  rewrite (Z.min_comm (Dec.expo b) (Dec.expo a)).
  destruct (Z.compare_spec (Dec.coef b * 10 ^ (Dec.expo b - Z.min (Dec.expo a) (Dec.expo b)))
              (Dec.coef a * 10 ^ (Dec.expo a - Z.min (Dec.expo a) (Dec.expo b))));
    try reflexivity; lia.
Qed.

(** ** The check before a purchase *)

Lemma insert_by_data_last (x op : operacao) (s : list operacao) :
  antes x op -> insert_by_data x (s ++ [op]) = insert_by_data x s ++ [op].
Proof.
  intros Hx. induction s as [| y s IH]; simpl.
  - unfold antes in Hx. now rewrite Hx.
  - destruct (Data x <=? Data y)%string; [reflexivity |]. now rewrite IH.
Qed.

(** A row that is not earlier than any other and is entered last is
    replayed last. *)
Lemma sorted_by_data_last (ops : list operacao) (op : operacao) :
  Forall (fun o => antes o op) ops ->
  sorted_by_data (ops ++ [op]) = sorted_by_data ops ++ [op].
Proof.
  induction 1 as [| x ops Hx _ IH]; simpl; [reflexivity |].
  rewrite IH. now apply insert_by_data_last.
Qed.



(** ** The load *)

Lemma preenchido_Some (c : option string) (s : string) :
  preenchido c = Some s -> c = Some s /\ s <> "".
Proof.
  destruct c as [t |]; simpl; [| discriminate].
  destruct (String.eqb_spec t ""); [discriminate |].
  intros H. inversion H; subst. now split.
Qed.

Lemma validar_linha_carregavel (l : linha) (op : operacao) :
  validar_linha l = Some op -> carregavel op.
Proof.
  unfold validar_linha, carregavel.
  destruct (preenchido (cel_Data l)) as [d |] eqn:Hd; [| discriminate].
  destruct (preenchido (cel_Moeda l)) as [m |] eqn:Hm; [| discriminate].
  destruct (preenchido (cel_Operacao l)) as [o |] eqn:Ho; [| discriminate].
  destruct (preenchido (cel_Quantidade l)) as [q |]; [| discriminate].
  destruct (preenchido (cel_Valor_USDT l)) as [v |]; [| discriminate].
  destruct (numeral q); [| discriminate].
  destruct (numeral v); [| discriminate].
  destruct (in_strings (lower o) ["compra"; "venda"]) eqn:Hin; [| discriminate].
  intros H. inversion H; subst; simpl.
  apply preenchido_Some in Hd, Hm, Ho. tauto.
Qed.

Lemma filter_map_In {A B : Type} (f : A -> option B) (l : list A) (b : B) :
  In b (filter_map f l) <-> exists a, In a l /\ f a = Some b.
Proof.
  induction l as [| x l IH]; simpl.
  - split; [tauto | intros (a & [] & _)].
  - destruct (f x) as [y |] eqn:Hx; simpl; rewrite IH; split.
    + intros [<- | (a & Ha & Hf)]; eauto.
    + intros (a & [<- | Ha] & Hf); [left; congruence | eauto].
    + intros (a & Ha & Hf). eauto.
    + intros (a & [<- | Ha] & Hf); [congruence | eauto].
Qed.

Lemma filter_map_app {A B : Type} (f : A -> option B) (l1 l2 : list A) :
  filter_map f (l1 ++ l2) = filter_map f l1 ++ filter_map f l2.
Proof.
  induction l1 as [| x l1 IH]; simpl; [reflexivity |].
  destruct (f x); simpl; now rewrite IH.
Qed.

Lemma filter_map_length {A B : Type} (f : A -> option B) (l : list A) :
  (List.length (filter_map f l) <= List.length l)%nat.
Proof.
  induction l as [| x l IH]; simpl; [lia |]. destruct (f x); simpl; lia.
Qed.

(** X9. Every row that [carregar_operacoes] returns has a date, an asset
    and an operation that are not empty, and an operation that is 'compra'
    or 'venda' once lowered; the rows returned are rows of the file, and a
    file that is missing gives none. *)
Theorem X9_loaded_rows (arquivo : option (list linha)) :
  Forall carregavel (carregar_operacoes arquivo) /\
  (forall op, In op (carregar_operacoes arquivo) ->
     exists linhas l,
       arquivo = Some linhas /\ In l linhas /\ validar_linha l = Some op /\
       cel_Data l = Some (Data op) /\ cel_Moeda l = Some (Moeda op) /\
       cel_Operacao l = Some (Operacao op) /\ cel_Preco l = Preco op) /\
  (List.length (carregar_operacoes arquivo)
   <= List.length (criar_arquivo_se_necessario arquivo))%nat.
Proof.
  destruct arquivo as [linhas |]; simpl.
  - split; [| split].
    + apply Forall_forall. intros op Hin. apply filter_map_In in Hin.
      destruct Hin as (l & _ & Hl). eapply validar_linha_carregavel; eauto.
    + intros op Hin. apply filter_map_In in Hin. destruct Hin as (l & Hin & Hl).
      exists linhas, l. repeat split; try assumption;
        unfold validar_linha in Hl;
        destruct (preenchido (cel_Data l)) as [d |] eqn:Hd; try discriminate;
        destruct (preenchido (cel_Moeda l)) as [m |] eqn:Hm; try discriminate;
        destruct (preenchido (cel_Operacao l)) as [o |] eqn:Ho; try discriminate;
        destruct (preenchido (cel_Quantidade l)) as [q |]; try discriminate;
        destruct (preenchido (cel_Valor_USDT l)) as [v |]; try discriminate;
        destruct (numeral q); try discriminate;
        destruct (numeral v); try discriminate;
        destruct (in_strings (lower o) ["compra"; "venda"]); try discriminate;
        inversion Hl; subst; simpl;
        apply preenchido_Some in Hd, Hm, Ho; tauto.
    + apply filter_map_length.
  - split; [constructor | split; [intros op [] | lia]].
Qed.

(** ** Writing the file and reading it again *)

Lemma carregadas_carregaveis (arquivo : option (list linha)) :
  Forall carregavel (carregar_operacoes arquivo).
Proof.
  destruct arquivo as [linhas |]; simpl; [| constructor].
  apply Forall_forall. intros op Hin. apply filter_map_In in Hin.
  destruct Hin as (l & _ & Hl). eapply validar_linha_carregavel; eauto.
Qed.

Lemma remover_map {A B : Type} (f : A -> B) (i : nat) (l : list A) :
  remover i (map f l) = map f (remover i l).
Proof.
  unfold remover. now rewrite map_app, firstn_map, skipn_map.
Qed.

Lemma substituir_map {A B : Type} (f : A -> B) (i : nat) (x : A) (l : list A) :
  substituir i (f x) (map f l) = map f (substituir i x l).
Proof.
  unfold substituir. rewrite map_app. cbn [map].
  now rewrite firstn_map, skipn_map.
Qed.

Lemma remover_length {A : Type} (i : nat) (l : list A) :
  (i < List.length l)%nat -> S (List.length (remover i l)) = List.length l.
Proof.
  intros Hi. unfold remover. rewrite length_app, length_firstn, length_skipn. lia.
Qed.

Lemma substituir_length {A : Type} (i : nat) (x : A) (l : list A) :
  (i < List.length l)%nat -> List.length (substituir i x l) = List.length l.
Proof.
  intros Hi. unfold substituir. rewrite length_app, length_firstn. cbn [List.length].
  rewrite length_skipn. lia.
Qed.

Lemma Forall_firstn_skipn {A : Type} (P : A -> Prop) (i j : nat) (l : list A) :
  Forall P l -> Forall P (firstn i l) /\ Forall P (skipn j l).
Proof.
  intros H. split.
  - rewrite <- (firstn_skipn i l) in H. now apply Forall_app in H.
  - rewrite <- (firstn_skipn j l) in H. now apply Forall_app in H.
Qed.

Lemma Forall_remover {A : Type} (P : A -> Prop) (i : nat) (l : list A) :
  Forall P l -> Forall P (remover i l).
Proof.
  intros H. unfold remover. apply Forall_app.
  now apply Forall_firstn_skipn.
Qed.

Section Releitura.

Variable str_float : Dec.dec -> string.
Hypothesis str_float_volta : le_de_volta str_float.

Lemma str_float_preenchido (x : Dec.dec) :
  preenchido (Some (str_float x)) = Some (str_float x).
Proof.
  simpl. destruct (String.eqb_spec (str_float x) "") as [He | _]; [| reflexivity].
  destruct (str_float_volta x) as (x' & Hx & _). rewrite He in Hx. discriminate.
Qed.

Lemma texto_preenchido (s : string) :
  s <> "" -> preenchido (Some s) = Some s.
Proof.
  intros H. simpl. now destruct (String.eqb_spec s "").
Qed.

(** A row that was loaded is loaded again once written. *)
Lemma validar_escrita (op : operacao) :
  carregavel op ->
  exists op',
    validar_linha (escrever_registro str_float (registro_de op)) = Some op' /\
    mesma_operacao op op'.
Proof.
  intros (Hd & Hm & Ho & Hin).
  destruct (str_float_volta (Valor_USDT op)) as (v' & Hv & Hvq).
  destruct (str_float_volta (Quantidade op)) as (q' & Hq & Hqq).
  exists (mk_operacao (Data op) (Moeda op) (Operacao op) v'
            (Some (match Preco op with Some s => s | None => "" end)) q').
  split.
  - unfold validar_linha, escrever_registro, registro_de.
    cbn [cel_Data cel_Moeda cel_Operacao cel_Quantidade cel_Valor_USDT cel_Preco
         reg_Data reg_Moeda reg_Operacao reg_Quantidade reg_Valor_USDT reg_Preco
         texto_de].
    rewrite !texto_preenchido, !str_float_preenchido by assumption.
    rewrite Hq, Hv, Hin. destruct (Preco op); reflexivity.
  - repeat split; assumption.
Qed.

Lemma carregar_escritas (ops : list operacao) :
  Forall carregavel ops ->
  Forall2 mesma_operacao ops
    (carregar_operacoes
       (Some (map (escrever_registro str_float) (map registro_de ops)))).
Proof.
  induction 1 as [| op ops Hop _ IH]; simpl.
  - constructor.
  - destruct (validar_escrita op Hop) as (op' & Hv & Hmo).
    rewrite Hv. now constructor.
Qed.

End Releitura.


(** X11. With an index that is negative or not below the number of rows
    loaded, [excluir_operacao] and [atualizar_operacao] answer [False] and
    leave the file as it is (a missing file stays missing). *)
Theorem X11_index_out_of_bounds (str_float : Dec.dec -> string) (indice : Z)
    (nova_operacao : registro) (arquivo : option (list linha)) :
  indice < 0 \/ Z.of_nat (List.length (carregar_operacoes arquivo)) <= indice ->
  excluir_operacao str_float indice arquivo = (false, arquivo) /\
  atualizar_operacao str_float indice nova_operacao arquivo = (false, arquivo).
Proof.
  intros Hi. unfold excluir_operacao, atualizar_operacao.
  destruct (Z.ltb_spec indice 0);
    destruct (Z.leb_spec (Z.of_nat (List.length (carregar_operacoes arquivo))) indice);
    try lia; split; reflexivity.
Qed.

(** ** The stand-in printer is read back *)

Lemma digit_de_algarismo (d : Z) :
  0 <= d < 10 -> digit (ascii_of_N (Z.to_N (48 + d))) = Some d.
Proof.
  intros H.
  assert (d = 0 \/ d = 1 \/ d = 2 \/ d = 3 \/ d = 4 \/ d = 5 \/ d = 6 \/
          d = 7 \/ d = 8 \/ d = 9) as Hd by lia.
  repeat (destruct Hd as [-> | Hd]; [reflexivity |]). subst. reflexivity.
Qed.

Lemma algarismo_sem_espaco (d : Z) :
  0 <= d < 10 -> is_space (ascii_of_N (Z.to_N (48 + d))) = false.
Proof.
  intros H.
  assert (d = 0 \/ d = 1 \/ d = 2 \/ d = 3 \/ d = 4 \/ d = 5 \/ d = 6 \/
          d = 7 \/ d = 8 \/ d = 9) as Hd by lia.
  repeat (destruct Hd as [-> | Hd]; [reflexivity |]). subst. reflexivity.
Qed.

Lemma algarismo_sem_sinal (d : Z) (s : string) :
  0 <= d < 10 ->
  sign (String (ascii_of_N (Z.to_N (48 + d))) s)
  = (1, String (ascii_of_N (Z.to_N (48 + d))) s).
Proof.
  intros H.
  assert (d = 0 \/ d = 1 \/ d = 2 \/ d = 3 \/ d = 4 \/ d = 5 \/ d = 6 \/
          d = 7 \/ d = 8 \/ d = 9) as Hd by lia.
  repeat (destruct Hd as [-> | Hd]; [reflexivity |]). subst. reflexivity.
Qed.

Lemma digits_digitos_fuel (fuel : positive) :
  forall (z : Z) (s : string) (acc len : Z),
    0 <= z <= Zpos fuel ->
    exists k, 0 < k /\
      digits (digitos_fuel fuel z s) acc len = digits s (acc * 10 ^ k + z) (len + k).
Proof.
  assert (Hum : forall z s acc len, 0 <= z < 10 ->
            digits (String (ascii_of_N (Z.to_N (48 + z mod 10))) s) acc len
            = digits s (acc * 10 ^ 1 + z) (len + 1)).
  { intros z s acc len Hz. cbn [digits].
    rewrite digit_de_algarismo by (apply Z.mod_pos_bound; lia).
    rewrite Z.mod_small by lia. f_equal. lia. }
  induction fuel as [p IH | p IH |]; intros z s acc len Hz; cbn [digitos_fuel];
    destruct (Z.ltb_spec z 10) as [Hlt | Hge];
    try (exists 1; split; [lia | apply Hum; lia]); try lia.
  - destruct (IH (z / 10) (String (ascii_of_N (Z.to_N (48 + z mod 10))) s) acc len)
      as (k & Hk & He).
    { split; [apply Z.div_pos; lia |]. apply Z.div_le_upper_bound; lia. }
    exists (k + 1). split; [lia |]. rewrite He. cbn [digits].
    rewrite digit_de_algarismo by (apply Z.mod_pos_bound; lia).
    f_equal; [| lia]. rewrite Z.pow_add_r by lia.
    pose proof (Z.div_mod z 10). lia.
  - destruct (IH (z / 10) (String (ascii_of_N (Z.to_N (48 + z mod 10))) s) acc len)
      as (k & Hk & He).
    { split; [apply Z.div_pos; lia |]. apply Z.div_le_upper_bound; lia. }
    exists (k + 1). split; [lia |]. rewrite He. cbn [digits].
    rewrite digit_de_algarismo by (apply Z.mod_pos_bound; lia).
    f_equal; [| lia]. rewrite Z.pow_add_r by lia.
    pose proof (Z.div_mod z 10). lia.
Qed.

Lemma digitos_fuel_cabeca (fuel : positive) :
  forall (z : Z) (s : string),
    0 <= z <= Zpos fuel ->
    exists d t, 0 <= d < 10 /\
      digitos_fuel fuel z s = String (ascii_of_N (Z.to_N (48 + d))) t.
Proof.
  induction fuel as [p IH | p IH |]; intros z s Hz; cbn [digitos_fuel];
    destruct (Z.ltb_spec z 10) as [Hlt | Hge];
    try (exists (z mod 10); eexists; split;
         [apply Z.mod_pos_bound; lia | reflexivity]); try lia.
  - apply IH. split; [apply Z.div_pos; lia |]. apply Z.div_le_upper_bound; lia.
  - apply IH. split; [apply Z.div_pos; lia |]. apply Z.div_le_upper_bound; lia.
Qed.

Lemma digitos_fuel_sem_espacos (fuel : positive) :
  forall (z : Z) (s : string),
    0 <= z -> sem_espacos s = true -> sem_espacos (digitos_fuel fuel z s) = true.
Proof.
  assert (Hum : forall z s, 0 <= z -> sem_espacos s = true ->
            sem_espacos (String (ascii_of_N (Z.to_N (48 + z mod 10))) s) = true).
  { intros z s Hz Hs. cbn [sem_espacos].
    rewrite algarismo_sem_espaco by (apply Z.mod_pos_bound; lia). exact Hs. }
  induction fuel as [p IH | p IH |]; intros z s Hz Hs; cbn [digitos_fuel];
    destruct (z <? 10); auto; apply IH; auto; apply Z.div_pos; lia.
Qed.

Lemma digits_digitos (z : Z) (s : string) (acc len : Z) :
  0 <= z ->
  exists k, 0 < k /\
    digits (digitos z s) acc len = digits s (acc * 10 ^ k + z) (len + k).
Proof.
  intros Hz. destruct z as [| p | p]; [| | lia].
  - exists 1. split; [lia |]. cbn [digitos].
    change (digits (String "0" s) acc len) with (digits s (10 * acc + 0) (len + 1)).
    f_equal. lia.
  - apply digits_digitos_fuel. lia.
Qed.

Lemma digitos_cabeca (z : Z) (s : string) :
  0 <= z ->
  exists d t, 0 <= d < 10 /\ digitos z s = String (ascii_of_N (Z.to_N (48 + d))) t.
Proof.
  intros Hz. destruct z as [| p | p]; [| | lia].
  - exists 0, s. split; [lia | reflexivity].
  - apply digitos_fuel_cabeca. lia.
Qed.

Lemma digitos_sem_espacos (z : Z) (s : string) :
  0 <= z -> sem_espacos s = true -> sem_espacos (digitos z s) = true.
Proof.
  intros Hz Hs. destruct z as [| p | p]; [exact Hs | | lia].
  now apply digitos_fuel_sem_espacos.
Qed.

Lemma com_sinal_lido (z : Z) (s : string) :
  exists sg t k,
    sign (com_sinal z s) = (sg, t) /\ 0 < k /\ sg * Z.abs z = z /\
    digits t 0 0 = digits s (Z.abs z) k.
Proof.
  unfold com_sinal. destruct (Z.ltb_spec z 0) as [Hn | Hp].
  - destruct (digits_digitos (- z) s 0 0) as (k & Hk & He); [lia |].
    exists (-1), (digitos (- z) s), k. repeat split; [lia | lia |].
    rewrite He. f_equal; lia.
  - destruct (digits_digitos z s 0 0) as (k & Hk & He); [lia |].
    destruct (digitos_cabeca z s Hp) as (d & t & Hd & Ht).
    exists 1, (digitos z s), k. repeat split; [| lia | lia |].
    + rewrite Ht. now apply algarismo_sem_sinal.
    + rewrite He. f_equal; lia.
Qed.

Lemma com_sinal_sem_espacos (z : Z) (s : string) :
  sem_espacos s = true -> sem_espacos (com_sinal z s) = true.
Proof.
  intros Hs. unfold com_sinal. destruct (Z.ltb_spec z 0).
  - cbn [sem_espacos]. rewrite digitos_sem_espacos by (lia || assumption).
    reflexivity.
  - now apply digitos_sem_espacos.
Qed.

Lemma sem_espacos_lstrip (s : string) :
  sem_espacos s = true -> lstrip s = s.
Proof.
  destruct s as [| c s]; [reflexivity |]. cbn [sem_espacos lstrip].
  destruct (is_space c); [discriminate | reflexivity].
Qed.

Lemma sem_espacos_rstrip (s : string) :
  sem_espacos s = true -> rstrip s = s.
Proof.
  induction s as [| c s IH]; [reflexivity |]. cbn [sem_espacos rstrip].
  destruct (is_space c); [discriminate |]. intros Hs. rewrite (IH Hs).
  now rewrite andb_false_r.
Qed.

(** The stand-in printer prints a numeral for the number it is given. *)
Lemma imprimir_numeral (x : Dec.dec) : numeral (imprimir x) = Some x.
Proof.
  destruct x as [c e]. unfold imprimir, numeral. cbn [Dec.coef Dec.expo].
  assert (Hs : sem_espacos (com_sinal c (String "e" (com_sinal e ""))) = true).
  { apply com_sinal_sem_espacos. cbn [sem_espacos].
    now rewrite com_sinal_sem_espacos. }
  rewrite (sem_espacos_lstrip _ Hs), (sem_espacos_rstrip _ Hs).
  destruct (com_sinal_lido c (String "e" (com_sinal e "")))
    as (sg & t & k & Hsg & Hk & Hc & Ht).
  destruct (com_sinal_lido e "") as (se & u & k' & Hse & Hk' & He & Hu).
  rewrite Hsg, Ht. cbn [digits]. change (digit "e") with (@None Z).
  cbv iota beta.
  replace (k + 0 =? 0) with false by (symmetry; apply Z.eqb_neq; lia).
  change (("e" =? "e")%char) with true. cbn [orb].
  rewrite Hse, Hu. cbn [digits].
  replace (k' =? 0) with false by (symmetry; apply Z.eqb_neq; lia).
  cbn. f_equal. f_equal; lia.
Qed.

Lemma imprimir_volta : le_de_volta imprimir.
Proof.
  intros x. exists x. split; [apply imprimir_numeral | reflexivity].
Qed.


Lemma X11_index_out_of_bounds_witness :
  excluir_operacao imprimir 2 arquivo_exemplo = (false, arquivo_exemplo) /\
  atualizar_operacao imprimir 2 registro_editado arquivo_exemplo
  = (false, arquivo_exemplo).
Proof.
  apply (X11_index_out_of_bounds imprimir 2 registro_editado arquivo_exemplo).
  right. vm_compute. discriminate.
Defined.





(** ** PriceManager *)

Lemma dict_get_set_same {V : Type} (k : string) (v : V) (d : dict V) :
  dict_get k (dict_set k v d) = Some v.
Proof.
  induction d as [| [k' v'] d IH]; simpl.
  - now rewrite String.eqb_refl.
  - destruct (String.eqb_spec k k') as [-> | Hne]; simpl.
    + now rewrite String.eqb_refl.
    + destruct (String.eqb_spec k k'); [contradiction | exact IH].
Qed.

Lemma dict_get_set_other {V : Type} (k k' : string) (v : V) (d : dict V) :
  k <> k' -> dict_get k (dict_set k' v d) = dict_get k d.
Proof.
  intros Hne. induction d as [| [k'' v''] d IH]; simpl.
  - now destruct (String.eqb_spec k k').
  - destruct (String.eqb_spec k' k'') as [-> | Hne']; simpl.
    + destruct (String.eqb_spec k k''); [contradiction | reflexivity].
    + destruct (String.eqb_spec k k''); [reflexivity | exact IH].
Qed.

Lemma keys_dict_set_incl {V : Type} (k : string) (v : V) (d : dict V) :
  incl (keys d) (keys (dict_set k v d)).
Proof.
  induction d as [| [k' v'] d IH]; simpl; [intros x [] |].
  destruct (String.eqb_spec k k') as [-> | _]; simpl.
  - apply incl_refl.
  - intros x [<- | Hx]; [now left | right; now apply IH].
Qed.

Lemma atualizar_moedas_sucesso (f : string -> resposta) (moedas : list string) :
  forall (cache : dict float) (b : bool),
    snd (fold_left (atualizar_moeda f) moedas (cache, b)) = true <->
    b = true /\ forall m, In m moedas -> m <> "USDT" -> respondeu f m.
Proof.
  induction moedas as [| x moedas IH]; intros cache b; cbn [fold_left].
  - simpl. split; [intros ->; split; [reflexivity | intros m []] | tauto].
  - unfold atualizar_moeda at 2.
    destruct (String.eqb_spec x "USDT") as [-> | Hx].
    + rewrite IH. split; intros (Hb & H); (split; [exact Hb |]).
      * intros m [<- | Hm] Hne; [congruence | now apply H].
      * intros m Hm. apply H. now right.
    + destruct (f (x ++ "/USDT")%string) as [[p |] |] eqn:Hf; rewrite IH.
      * split; intros (Hb & H); (split; [exact Hb |]).
        -- intros m [<- | Hm] Hne; [now exists p | now apply H].
        -- intros m Hm. apply H. now right.
      * split; [intros (Hb & _); discriminate |].
        intros (_ & H). destruct (H x (or_introl eq_refl) Hx) as (p & Hp).
        congruence.
      * split; [intros (Hb & _); discriminate |].
        intros (_ & H). destruct (H x (or_introl eq_refl) Hx) as (p & Hp).
        congruence.
Qed.

Lemma preco_apos_set (f : string -> resposta) (cache : dict float)
    (m x : string) (v : float) :
  m <> x -> preco_apos f (dict_set x v cache) m = preco_apos f cache m.
Proof.
  intros Hne. unfold preco_apos. now rewrite dict_get_set_other.
Qed.

Lemma atualizar_moeda_passo (f : string -> resposta) (cache : dict float)
    (b : bool) (x : string) :
  exists cache1 b1,
    atualizar_moeda f (cache, b) x = (cache1, b1) /\
    dict_get x cache1 = preco_apos f cache x /\
    (forall k, k <> x -> dict_get k cache1 = dict_get k cache) /\
    (forall k, preco_apos f cache1 k = preco_apos f cache k) /\
    incl (keys cache) (keys cache1).
Proof.
  unfold atualizar_moeda, preco_apos.
  destruct (String.eqb_spec x "USDT") as [-> | Hx].
  - do 2 eexists. split; [reflexivity |].
    split; [apply dict_get_set_same |].
    split; [intros k Hk; now apply dict_get_set_other |].
    split; [| apply keys_dict_set_incl].
    intros k. destruct (String.eqb_spec k "USDT") as [| Hk]; [reflexivity |].
    now rewrite dict_get_set_other.
  - destruct (f (x ++ "/USDT")%string) as [[p |] |] eqn:Hf;
      do 2 eexists; (split; [reflexivity |]).
    + split; [apply dict_get_set_same |].
      split; [intros k Hk; now apply dict_get_set_other |].
      split; [| apply keys_dict_set_incl].
      intros k. destruct (String.eqb_spec k "USDT") as [| Hk]; [reflexivity |].
      destruct (String.eqb_spec k x) as [-> | Hkx].
      * now rewrite Hf.
      * now rewrite dict_get_set_other.
    + split; [reflexivity |]. split; [reflexivity |].
      split; [reflexivity | apply incl_refl].
    + split; [reflexivity |]. split; [reflexivity |].
      split; [reflexivity | apply incl_refl].
Qed.

Lemma atualizar_moedas_cache (f : string -> resposta) (moedas : list string) :
  forall (cache : dict float) (b : bool) (m : string),
    (In m moedas ->
     dict_get m (fst (fold_left (atualizar_moeda f) moedas (cache, b)))
     = preco_apos f cache m) /\
    (~ In m moedas ->
     dict_get m (fst (fold_left (atualizar_moeda f) moedas (cache, b)))
     = dict_get m cache) /\
    incl (keys cache) (keys (fst (fold_left (atualizar_moeda f) moedas (cache, b)))).
Proof.
  induction moedas as [| x moedas IH]; intros cache b m; cbn [fold_left].
  - cbn [fst In]. split; [intros [] | split; [reflexivity | apply incl_refl]].
  - destruct (atualizar_moeda_passo f cache b x)
      as (cache1 & b1 & -> & Hx & Hout & Hap & Hinc).
    destruct (IH cache1 b1 m) as (Hin & Hnot & Hk).
    split; [| split].
    + intros [<- | Hm].
      * destruct (in_dec string_dec x moedas) as [Hi | Hn].
        -- rewrite Hin by assumption. apply Hap.
        -- rewrite Hnot by assumption. exact Hx.
      * rewrite Hin by assumption. apply Hap.
    + intros Hm. rewrite Hnot.
      * apply Hout. intros ->. apply Hm. now left.
      * intros Hi. apply Hm. now right.
    + eapply incl_tran; eassumption.
Qed.

(** X14. [atualizar_precos] answers [True] exactly when an exchange is set
    up, each asset asked for other than USDT got a price from it, and so did
    the pair USDT/BRL; the time of the last refresh is set to now exactly in
    that case and kept otherwise, and without an exchange the object is left
    as it is. *)
Theorem X14_refresh_succeeds (self : PriceManager) (f : string -> resposta)
    (agora : string) (moedas : list string) :
  (fst (atualizar_precos self f agora moedas) = true <->
   exchange self = true /\
   (forall m, In m moedas -> m <> "USDT" -> respondeu f m) /\
   exists p, f "USDT/BRL" = Ticker (Some p)) /\
  ultima_atualizacao (snd (atualizar_precos self f agora moedas))
  = (if fst (atualizar_precos self f agora moedas)
     then Some agora else ultima_atualizacao self) /\
  (exchange self = false -> snd (atualizar_precos self f agora moedas) = self).
Proof.
  unfold atualizar_precos. destruct (exchange self) eqn:He; cbn [negb].
  - pose proof (atualizar_moedas_sucesso f moedas (precos_cache self) true) as Hs.
    destruct (fold_left (atualizar_moeda f) moedas (precos_cache self, true))
      as [cache b]. cbn [snd] in Hs.
    destruct (f "USDT/BRL") as [[p |] |] eqn:Hf; cbn [fst snd ultima_atualizacao];
      (split; [| split; [reflexivity | discriminate]]).
    + rewrite Hs. split.
      * intros (_ & H). repeat split; [exact H | now exists p].
      * intros (_ & H & _). now split.
    + split; [discriminate | intros (_ & _ & p & Hp); discriminate].
    + split; [discriminate | intros (_ & _ & p & Hp); discriminate].
  - cbn [fst snd]. split; [| split; [reflexivity | reflexivity]].
    split; [discriminate | intros (H & _); discriminate].
Qed.

(** X15. After [atualizar_precos] with an exchange, [get_preco] of an asset
    that was asked for is 1 for USDT, the price the exchange gave for the
    asset, or, when the exchange gave none, what [get_preco] answered before
    (a failure for one asset touches no other one); an asset that was not
    asked for keeps its answer; and no asset leaves the cache. *)
Theorem X15_prices_after_refresh (self : PriceManager) (f : string -> resposta)
    (agora : string) (moedas : list string) (m : string) :
  exchange self = true ->
  (In m moedas ->
   get_preco (snd (atualizar_precos self f agora moedas)) m
   = preco_apos f (precos_cache self) m) /\
  (~ In m moedas ->
   get_preco (snd (atualizar_precos self f agora moedas)) m = get_preco self m) /\
  incl (keys (precos_cache self))
    (keys (precos_cache (snd (atualizar_precos self f agora moedas)))).
Proof.
  intros He. unfold atualizar_precos, get_preco. rewrite He. cbn [negb].
  pose proof (atualizar_moedas_cache f moedas (precos_cache self) true m) as Hc.
  destruct (fold_left (atualizar_moeda f) moedas (precos_cache self, true))
    as [cache b]. cbn [fst] in Hc.
  destruct (f "USDT/BRL") as [[p |] |]; cbn [snd precos_cache]; exact Hc.
Qed.

Lemma X15_prices_after_refresh_witness :
  (In "ETH" ["BTC"; "ETH"; "USDT"] ->
   get_preco
     (snd (atualizar_precos gestor_exemplo so_btc "2024-01-05 09:00:00"
             ["BTC"; "ETH"; "USDT"])) "ETH"
   = preco_apos so_btc (precos_cache gestor_exemplo) "ETH") /\
  (~ In "ETH" ["BTC"; "ETH"; "USDT"] ->
   get_preco
     (snd (atualizar_precos gestor_exemplo so_btc "2024-01-05 09:00:00"
             ["BTC"; "ETH"; "USDT"])) "ETH"
   = get_preco gestor_exemplo "ETH") /\
  incl (keys (precos_cache gestor_exemplo))
    (keys (precos_cache
             (snd (atualizar_precos gestor_exemplo so_btc "2024-01-05 09:00:00"
                     ["BTC"; "ETH"; "USDT"])))).
Proof.
  apply (X15_prices_after_refresh gestor_exemplo so_btc "2024-01-05 09:00:00"
           ["BTC"; "ETH"; "USDT"] "ETH").
  reflexivity.
Defined.

(** ** The groups of the aggregator *)

Lemma dict_get_fora {V : Type} (k : string) (d : dict V) :
  ~ In k (keys d) -> dict_get k d = None.
Proof.
  induction d as [| [k' v'] d IH]; simpl; [reflexivity |].
  intros Hn. destruct (String.eqb_spec k k') as [-> | _]; [tauto |].
  apply IH. tauto.
Qed.

Lemma dict_get_dentro {V : Type} (k : string) (d : dict V) :
  In k (keys d) -> exists v, dict_get k d = Some v.
Proof.
  intros Hin. destruct (dict_get k d) as [v |] eqn:Hg; [eauto |].
  now apply dict_get_None in Hg.
Qed.

Lemma agrupar_fold (m : string) (l : list operacao) :
  m <> "USDT" ->
  forall d : dict (list operacao),
    dict_get m (fold_left agrupar l d)
    = match dict_get m d, filter (fun o => (Moeda o =? m)%string) l with
      | Some g, f => Some (g ++ f)
      | None, [] => None
      | None, f => Some f
      end.
Proof.
  intros Hm. induction l as [| op l IH]; intros d; cbn [fold_left filter].
  - destruct (dict_get m d); [now rewrite app_nil_r | reflexivity].
  - rewrite IH. unfold agrupar.
    destruct (String.eqb_spec (Moeda op) "USDT") as [Hu | Hu].
    + destruct (String.eqb_spec (Moeda op) m) as [He | _]; [congruence |].
      reflexivity.
    + destruct (String.eqb_spec (Moeda op) m) as [He | Hne].
      * rewrite He. destruct (dict_get m d) as [g |] eqn:Hg;
          rewrite dict_get_set_same.
        -- now rewrite <- app_assoc.
        -- reflexivity.
      * assert (Hmo : m <> Moeda op) by congruence.
        destruct (dict_get (Moeda op) d);
          now rewrite dict_get_set_other by assumption.
Qed.

Lemma ops_por_moeda_grupo (m : string) (ops : list operacao) :
  m <> "USDT" ->
  dict_get m (ops_por_moeda ops)
  = match grupo m ops with
    | [] => None
    | g => Some g
    end.
Proof.
  intros Hm. unfold ops_por_moeda, grupo. rewrite agrupar_fold by assumption.
  now rewrite sorted_by_data_filter.
Qed.

Lemma grupo_In (m : string) (ops : list operacao) (o : operacao) :
  In o (grupo m ops) <-> In o ops /\ Moeda o = m.
Proof.
  unfold grupo. split.
  - intros Hin. apply (Permutation_in _ (sorted_by_data_perm _)) in Hin.
    apply filter_In in Hin. now rewrite String.eqb_eq in Hin.
  - intros [Hin He].
    apply (Permutation_in _ (Permutation_sym (sorted_by_data_perm _))).
    apply filter_In. now rewrite String.eqb_eq.
Qed.

Lemma ops_por_moeda_chave (k : string) (ops : list operacao) :
  In k (keys (ops_por_moeda ops)) -> exists o, In o ops /\ Moeda o = k.
Proof.
  intros Hin. destruct (ops_por_moeda_chaves ops) as [_ Hu].
  assert (Hk : k <> "USDT") by (intros ->; contradiction).
  destruct (dict_get_dentro _ _ Hin) as (g & Hg).
  rewrite ops_por_moeda_grupo in Hg by assumption.
  destruct (grupo k ops) as [| o g'] eqn:Hgr; [discriminate |].
  exists o. apply (grupo_In k ops o). rewrite Hgr. now left.
Qed.

(** X16. The aggregator hands the accountant, for each asset other than
    USDT that has a row, all the rows of that asset and no other, in the
    order of their dates (rows of one date in the order of the log); USDT
    and assets without rows have no group. *)
Theorem X16_groups_by_asset (ops : list operacao) (m : string) :
  dict_get m (ops_por_moeda ops)
  = (if (m =? "USDT")%string then None
     else match grupo m ops with
          | [] => None
          | g => Some g
          end) /\
  (forall o, In o (grupo m ops) <-> In o ops /\ Moeda o = m) /\
  StronglySorted antes (grupo m ops) /\
  mesma_ordem_por_data (filter (fun o => (Moeda o =? m)%string) ops)
    (grupo m ops).
Proof.
  split; [| split; [| split]].
  - destruct (String.eqb_spec m "USDT") as [-> | Hm].
    + apply dict_get_fora. apply ops_por_moeda_chaves.
    + now apply ops_por_moeda_grupo.
  - apply grupo_In.
  - apply sorted_by_data_sorted.
  - intros t. apply sorted_by_data_com_data.
Qed.

(** ** The portfolio *)

Lemma soma_posicoes_app (f : analise -> float) (d : dict entrada)
    (k : string) (e : entrada) :
  soma_posicoes f (d ++ [(k, e)])
  = match e with
    | Posicao a => fadd (soma_posicoes f d) (f a)
    | _ => soma_posicoes f d
    end.
Proof.
  unfold soma_posicoes. rewrite fold_left_app. now destruct e.
Qed.

Lemma keys_app {V : Type} (d : dict V) (k : string) (v : V) :
  keys (d ++ [(k, v)]) = keys d ++ [k].
Proof.
  unfold keys. now rewrite map_app.
Qed.

(** The loop over the groups: what it lists, and what it adds up. *)
Lemma agregar_resultado (precos_atuais : dict float) (g : dict (list operacao)) :
  NoDup (keys g) ->
  forall res tot res' tot',
    (forall k, In k (keys res) -> ~ In k (keys g)) ->
    foldM (passo_portfolio precos_atuais) g (res, tot) = Ok (res', tot') ->
    (forall m,
       dict_get m res'
       = match dict_get m g with
         | Some ops =>
             match _analisar_moeda ops (preco_de precos_atuais m) with
             | Ok a => if incluida a then Some (Posicao a) else dict_get m res
             | Raise _ => dict_get m res
             end
         | None => dict_get m res
         end) /\
    incl (keys res') (keys res ++ keys g) /\
    (tot_investido_liquido tot = soma_posicoes custo_posicao_final res /\
     tot_realizado tot = soma_posicoes lucro_realizado res /\
     tot_nao_realizado tot = soma_posicoes lucro_nao_realizado res /\
     tot_valor_atual tot = soma_posicoes valor_atual_posicao res ->
     tot_investido_liquido tot' = soma_posicoes custo_posicao_final res' /\
     tot_realizado tot' = soma_posicoes lucro_realizado res' /\
     tot_nao_realizado tot' = soma_posicoes lucro_nao_realizado res' /\
     tot_valor_atual tot' = soma_posicoes valor_atual_posicao res').
Proof.
  induction g as [| [m0 ops0] g IH]; intros Hnd res tot res' tot' Hdis Hrun;
    cbn [foldM] in Hrun.
  - inversion Hrun; subst. split; [reflexivity |]. split; [| tauto].
    rewrite app_nil_r. apply incl_refl.
  - cbn [keys map fst] in Hnd. apply NoDup_cons_iff in Hnd.
    destruct Hnd as [Hm0 Hnd]. fold (keys g) in Hm0.
    unfold passo_portfolio in Hrun at 1.
    destruct (_analisar_moeda ops0 (preco_de precos_atuais m0)) as [a0 | e] eqn:Ha;
      cbn [bind] in Hrun; [| discriminate].
    fold (incluida a0) in Hrun.
    assert (Hfresh : ~ In m0 (keys res)).
    { intros Hin. apply (Hdis m0 Hin). now left. }
    destruct (incluida a0) eqn:Hinc; cbn [bind] in Hrun.
    + rewrite (dict_set_fresh m0 _ res Hfresh) in Hrun.
      apply IH in Hrun; [| assumption |].
      2:{ intros k Hk Hkg. rewrite keys_app, in_app_iff in Hk.
          destruct Hk as [Hk | [<- | []]]; [| contradiction].
          apply (Hdis k Hk). now right. }
      destruct Hrun as (Hget & Hkeys & Htot). split; [| split].
      * intros m. rewrite Hget. cbn [dict_get].
        destruct (String.eqb_spec m m0) as [-> | Hne].
        -- rewrite (dict_get_fora m0 g Hm0), Ha, Hinc.
           rewrite <- (dict_set_fresh m0 _ res Hfresh).
           apply dict_get_set_same.
        -- assert (Hout : dict_get m (res ++ [(m0, Posicao a0)]) = dict_get m res).
           { rewrite <- (dict_set_fresh m0 _ res Hfresh).
             now apply dict_get_set_other. }
           rewrite Hout. reflexivity.
      * intros k Hk. apply Hkeys in Hk. rewrite keys_app in Hk.
        cbn [keys map fst]. fold (keys g). rewrite !in_app_iff in *.
        cbn [In] in *. tauto.
      * intros (H1 & H2 & H3 & H4). apply Htot.
        cbn [tot_investido_liquido tot_realizado tot_nao_realizado tot_valor_atual].
        rewrite !soma_posicoes_app, H1, H2, H3, H4.
        repeat split; reflexivity.
    + apply IH in Hrun; [| assumption |].
      2:{ intros k Hk Hkg. apply (Hdis k Hk). now right. }
      destruct Hrun as (Hget & Hkeys & Htot). split; [| split].
      * intros m. rewrite Hget. cbn [dict_get].
        destruct (String.eqb_spec m m0) as [-> | Hne]; [| reflexivity].
        now rewrite (dict_get_fora m0 g Hm0), Ha, Hinc.
      * intros k Hk. apply Hkeys in Hk.
        cbn [keys map fst]. fold (keys g). rewrite !in_app_iff in *.
        cbn [In]. tauto.
      * exact Htot.
Qed.

Lemma portfolio_resultado (ops : list operacao) (precos_atuais : dict float) :
  ops <> [] -> Forall preco_valido ops ->
  exists res tot,
    calcular_portfolio ops precos_atuais
    = Ok (dict_set "totais"
            (Totais
               (mk_totais (tot_investido_liquido tot) (tot_realizado tot)
                  (tot_nao_realizado tot)
                  (fadd (tot_valor_atual tot)
                     (saldo_atual (calcular_saldo_usdt ops)))))
            (if float_gtb (saldo_atual (calcular_saldo_usdt ops)) f_0_01
             then dict_set "USDT (Caixa)"
                    (Caixa (saldo_atual (calcular_saldo_usdt ops))
                       (saldo_atual (calcular_saldo_usdt ops)) 0%Qc 0%Qc 0%Qc) res
             else res)) /\
    (forall m,
       dict_get m res
       = match dict_get m (ops_por_moeda ops) with
         | Some g =>
             match _analisar_moeda g (preco_de precos_atuais m) with
             | Ok a => if incluida a then Some (Posicao a) else None
             | Raise _ => None
             end
         | None => None
         end) /\
    incl (keys res) (keys (ops_por_moeda ops)) /\
    tot_investido_liquido tot = soma_posicoes custo_posicao_final res /\
    tot_realizado tot = soma_posicoes lucro_realizado res /\
    tot_nao_realizado tot = soma_posicoes lucro_nao_realizado res /\
    tot_valor_atual tot = soma_posicoes valor_atual_posicao res.
Proof.
  intros Hne Hall. pose proof (ops_por_moeda_validos ops Hall) as Hval.
  destruct (agregar_total precos_atuais _ Hval ([], mk_totais 0%Qc 0%Qc 0%Qc 0%Qc))
    as [[res tot] Hrun].
  exists res, tot. split.
  - unfold calcular_portfolio. destruct ops as [| x l]; [congruence |].
    rewrite Hrun. reflexivity.
  - destruct (ops_por_moeda_chaves ops) as [Hnd _].
    apply (agregar_resultado precos_atuais _ Hnd) in Hrun; [| intros k []].
    destruct Hrun as (Hget & Hkeys & Htot). split; [exact Hget |].
    split; [exact Hkeys |]. apply Htot.
    repeat split; reflexivity.
Qed.

Lemma reservadas_fora (ops : list operacao) (res : dict entrada) :
  sem_chaves_reservadas ops ->
  incl (keys res) (keys (ops_por_moeda ops)) ->
  ~ In "USDT (Caixa)" (keys res) /\ ~ In "totais" (keys res).
Proof.
  intros Hs Hk. unfold sem_chaves_reservadas in Hs. rewrite Forall_forall in Hs.
  split; intros Hin; apply Hk in Hin; apply ops_por_moeda_chave in Hin;
    destruct Hin as (o & Ho & He); destruct (Hs o Ho); congruence.
Qed.

(** X17. For a log that is not empty, with readable prices and no asset
    called 'USDT (Caixa)' or 'totais', the portfolio has its totals under
    'totais': cost, realised and unrealised profit are the sums over the
    positions listed, and the market value is the sum over the positions
    listed plus the cash balance, which is counted whether or not it is
    listed (it is listed under 'USDT (Caixa)' only above 0.01). *)
Theorem X17_portfolio_totals (ops : list operacao) (precos_atuais : dict float) :
  ops <> [] -> Forall preco_valido ops -> sem_chaves_reservadas ops ->
  exists r t,
    calcular_portfolio ops precos_atuais = Ok r /\
    dict_get "totais" r = Some (Totais t) /\
    totais_das_posicoes r t (saldo_atual (calcular_saldo_usdt ops)) /\
    dict_get "USDT (Caixa)" r
    = (if float_gtb (saldo_atual (calcular_saldo_usdt ops)) f_0_01
       then Some (Caixa (saldo_atual (calcular_saldo_usdt ops))
                    (saldo_atual (calcular_saldo_usdt ops)) 0%Qc 0%Qc 0%Qc)
       else None).
Proof.
  intros Hne Hall Hres.
  destruct (portfolio_resultado ops precos_atuais Hne Hall)
    as (res & tot & Hr & _ & Hkeys & (H1 & H2 & H3 & H4)).
  destruct (reservadas_fora ops res Hres Hkeys) as [Hc Ht].
  eexists. eexists. split; [exact Hr |].
  split; [apply dict_get_set_same |].
  set (saldo := saldo_atual (calcular_saldo_usdt ops)) in *.
  destruct (float_gtb saldo f_0_01).
  - rewrite (dict_set_fresh "USDT (Caixa)" _ res Hc).
    assert (Ht' : ~ In "totais" (keys (res ++ [("USDT (Caixa)",
                     Caixa saldo saldo 0%Qc 0%Qc 0%Qc)]))).
    { rewrite keys_app, in_app_iff. cbn [In]. intros [H | [H | []]];
        [contradiction | discriminate]. }
    rewrite (dict_set_fresh "totais" _ _ Ht'). split.
    + unfold totais_das_posicoes.
      cbn [tot_investido_liquido tot_realizado tot_nao_realizado tot_valor_atual].
      rewrite !soma_posicoes_app, H1, H2, H3, H4.
      repeat split; reflexivity.
    + rewrite <- (dict_set_fresh "totais" _ _ Ht').
      rewrite dict_get_set_other by discriminate.
      rewrite <- (dict_set_fresh "USDT (Caixa)" _ res Hc).
      apply dict_get_set_same.
  - rewrite (dict_set_fresh "totais" _ res Ht). split.
    + unfold totais_das_posicoes.
      cbn [tot_investido_liquido tot_realizado tot_nao_realizado tot_valor_atual].
      rewrite !soma_posicoes_app, H1, H2, H3, H4.
      repeat split; reflexivity.
    + rewrite <- (dict_set_fresh "totais" _ res Ht).
      rewrite dict_get_set_other by discriminate.
      now apply dict_get_fora.
Qed.

Lemma X17_portfolio_totals_witness :
  exists r t,
    calcular_portfolio deposito_e_eth [] = Ok r /\
    dict_get "totais" r = Some (Totais t) /\
    totais_das_posicoes r t (saldo_atual (calcular_saldo_usdt deposito_e_eth)) /\
    dict_get "USDT (Caixa)" r
    = (if float_gtb (saldo_atual (calcular_saldo_usdt deposito_e_eth)) f_0_01
       then Some (Caixa (saldo_atual (calcular_saldo_usdt deposito_e_eth))
                    (saldo_atual (calcular_saldo_usdt deposito_e_eth))
                    0%Qc 0%Qc 0%Qc)
       else None).
Proof.
  apply (X17_portfolio_totals deposito_e_eth []).
  - discriminate.
  - repeat constructor; eexists; reflexivity.
  - repeat constructor; discriminate.
Defined.

(** X18. With readable prices and no asset called 'USDT (Caixa)' or
    'totais', the portfolio lists under the name of an asset exactly the
    analysis of that asset's rows at its price (0 when there is none), and
    only if its market value or the absolute value of its realised profit
    exceeds 0.01; USDT is never listed as a position. *)
Theorem X18_positions_listed (ops : list operacao) (precos_atuais : dict float) :
  Forall preco_valido ops -> sem_chaves_reservadas ops ->
  exists r,
    calcular_portfolio ops precos_atuais = Ok r /\
    forall m a,
      dict_get m r = Some (Posicao a) <->
      m <> "USDT" /\ grupo m ops <> [] /\
      _analisar_moeda (grupo m ops) (preco_de precos_atuais m) = Ok a /\
      incluida a = true.
Proof.
  intros Hall Hres. destruct ops as [| x l].
  { exists []. split; [reflexivity |]. intros m a. cbn. split; [discriminate |].
    intros (_ & H & _). now elim H. }
  destruct (portfolio_resultado (x :: l) precos_atuais) as
    (res & tot & Hr & Hget & Hkeys & _); [discriminate | assumption |].
  destruct (reservadas_fora _ res Hres Hkeys) as [Hc Ht].
  eexists. split; [exact Hr |]. intros m a.
  set (ops := x :: l) in *. set (saldo := saldo_atual (calcular_saldo_usdt ops)).
  assert (Hgrupo : forall k, (exists o, In o ops /\ Moeda o = k) \/ grupo k ops = []).
  { intros k. destruct (grupo k ops) as [| o g] eqn:Hg; [now right |]. left.
    exists o. apply (grupo_In k ops o). rewrite Hg. now left. }
  assert (Hm : dict_get m res = Some (Posicao a) <->
               m <> "USDT" /\ grupo m ops <> [] /\
               _analisar_moeda (grupo m ops) (preco_de precos_atuais m) = Ok a /\
               incluida a = true).
  { rewrite Hget. destruct (String.eqb_spec m "USDT") as [-> | Hu].
    - rewrite (dict_get_fora "USDT" (ops_por_moeda ops)) by apply ops_por_moeda_chaves.
      split; [discriminate | intros (H & _); congruence].
    - rewrite ops_por_moeda_grupo by assumption.
      destruct (grupo m ops) as [| o g] eqn:Hg.
      + split; [discriminate | intros (_ & H & _); congruence].
      + destruct (_analisar_moeda (o :: g) (preco_de precos_atuais m)) as [a' | e].
        * destruct (incluida a') eqn:Hi.
          -- split.
             ++ intros H. inversion H; subst. repeat split; try assumption.
                discriminate.
             ++ intros (_ & _ & H & _). now inversion H.
          -- split; [discriminate |]. intros (_ & _ & H & Hi'). inversion H; subst.
             congruence.
        * split; [discriminate | intros (_ & _ & H & _); discriminate]. }
  rewrite <- Hm.
  destruct (String.eqb_spec m "totais") as [-> | Hnt].
  { rewrite dict_get_set_same, (dict_get_fora "totais" res Ht).
    split; discriminate. }
  rewrite dict_get_set_other by assumption.
  destruct (float_gtb saldo f_0_01); [| reflexivity].
  destruct (String.eqb_spec m "USDT (Caixa)") as [-> | Hnc].
  { rewrite dict_get_set_same, (dict_get_fora "USDT (Caixa)" res Hc).
    split; discriminate. }
  now rewrite dict_get_set_other by assumption.
Qed.

Lemma X18_positions_listed_witness :
  exists r,
    calcular_portfolio cenario_A [] = Ok r /\
    forall m a,
      dict_get m r = Some (Posicao a) <->
      m <> "USDT" /\ grupo m cenario_A <> [] /\
      _analisar_moeda (grupo m cenario_A) (preco_de [] m) = Ok a /\
      incluida a = true.
Proof.
  apply (X18_positions_listed cenario_A []).
  - repeat constructor; eexists; reflexivity.
  - repeat constructor; discriminate.
Defined.

(** X19. The balance the sale form offers for an asset that has rows (and
    is not called 'USDT (Caixa)' or 'totais') is the quantity held when the
    position is listed in the portfolio, and 0 when it is not: an asset that
    is held, but whose market value and realised profit are both within
    0.01 (as when no price is known and nothing was sold), is offered with
    balance 0. *)
Theorem X19_balance_for_sale (ops : list operacao) (precos_atuais : dict float)
    (m : string) :
  Forall preco_valido ops ->
  m <> "USDT" -> m <> "USDT (Caixa)" -> m <> "totais" -> grupo m ops <> [] ->
  exists r a,
    calcular_portfolio ops precos_atuais = Ok r /\
    _analisar_moeda (grupo m ops) (preco_de precos_atuais m) = Ok a /\
    saldo_para_venda r m = (if incluida a then quantidade_final a else 0%Qc).
Proof.
  intros Hall Hm Hc Ht Hg.
  assert (Hne : ops <> []) by (intros ->; now apply Hg).
  destruct (portfolio_resultado ops precos_atuais Hne Hall)
    as (res & tot & Hr & Hget & _ & _).
  assert (Hgv : Forall preco_valido (grupo m ops)).
  { apply Forall_forall. intros o Ho. apply grupo_In in Ho.
    rewrite Forall_forall in Hall. now apply Hall. }
  destruct (_analisar_moeda_total (grupo m ops) (preco_de precos_atuais m) Hgv)
    as [a Ha].
  eexists. exists a. split; [exact Hr |]. split; [exact Ha |].
  unfold saldo_para_venda. rewrite dict_get_set_other by assumption.
  assert (Hres : dict_get m res = if incluida a then Some (Posicao a) else None).
  { rewrite Hget, ops_por_moeda_grupo by assumption.
    destruct (grupo m ops) as [| o g]; [congruence |]. now rewrite Ha. }
  destruct (float_gtb (saldo_atual (calcular_saldo_usdt ops)) f_0_01).
  - rewrite dict_get_set_other by assumption. rewrite Hres.
    now destruct (incluida a).
  - rewrite Hres. now destruct (incluida a).
Qed.

Lemma X19_balance_for_sale_witness :
  exists r a,
    calcular_portfolio deposito_e_eth [] = Ok r /\
    _analisar_moeda (grupo "ETH" deposito_e_eth) (preco_de [] "ETH") = Ok a /\
    saldo_para_venda r "ETH" = (if incluida a then quantidade_final a else 0%Qc).
Proof.
  apply (X19_balance_for_sale deposito_e_eth [] "ETH").
  - repeat constructor; eexists; reflexivity.
  - discriminate.
  - discriminate.
  - discriminate.
  - discriminate.
Defined.

(** ** The entries of the allocation *)

Lemma dict_get_map {V W : Type} (f : V -> W) (k : string) (d : dict V) :
  dict_get k (map (fun kv => (fst kv, f (snd kv))) d) = option_map f (dict_get k d).
Proof.
  induction d as [| [k' v] d IH]; cbn [map dict_get fst snd]; [reflexivity |].
  destruct (k =? k')%string; [reflexivity | exact IH].
Qed.

Lemma distribuir_resultado (precos_atuais : dict float) (g : dict (list operacao)) :
  NoDup (keys g) ->
  forall d tot d' tot',
    (forall k, In k (keys d) -> ~ In k (keys g)) ->
    foldM (passo_distribuicao precos_atuais) g (d, tot) = Ok (d', tot') ->
    forall m,
      dict_get m d'
      = match dict_get m g with
        | Some ops =>
            match _analisar_moeda ops (preco_de precos_atuais m) with
            | Ok a =>
                if float_gtb (valor_atual_posicao a) f_0_01
                then Some (mk_alocacao (valor_atual_posicao a) (quantidade_final a) None)
                else dict_get m d
            | Raise _ => dict_get m d
            end
        | None => dict_get m d
        end.
Proof.
  induction g as [| [m0 ops0] g IH]; intros Hnd d tot d' tot' Hdis Hrun m;
    cbn [foldM] in Hrun.
  - inversion Hrun; subst. reflexivity.
  - cbn [keys map fst] in Hnd. apply NoDup_cons_iff in Hnd.
    destruct Hnd as [Hm0 Hnd]. fold (keys g) in Hm0.
    unfold passo_distribuicao in Hrun at 1.
    destruct (_analisar_moeda ops0 (preco_de precos_atuais m0)) as [a0 | e] eqn:Ha;
      cbn [bind] in Hrun; [| discriminate].
    cbv zeta in Hrun.
    assert (Hfresh : ~ In m0 (keys d)).
    { intros Hin. apply (Hdis m0 Hin). now left. }
    destruct (float_gtb (valor_atual_posicao a0) f_0_01) eqn:Hinc;
      cbn [bind] in Hrun.
    + rewrite (dict_set_fresh m0 _ d Hfresh) in Hrun.
      assert (Hdis' : forall k,
                In k (keys (d ++ [(m0, mk_alocacao (valor_atual_posicao a0)
                                         (quantidade_final a0) None)])) ->
                ~ In k (keys g)).
      { intros k Hk Hkg. rewrite keys_app, in_app_iff in Hk.
        destruct Hk as [Hk | [<- | []]]; [| contradiction].
        apply (Hdis k Hk). now right. }
      rewrite (IH Hnd _ _ _ _ Hdis' Hrun m). cbn [dict_get].
      destruct (String.eqb_spec m m0) as [-> | Hne].
      * rewrite (dict_get_fora m0 g Hm0), Ha, Hinc.
        rewrite <- (dict_set_fresh m0 _ d Hfresh).
        apply dict_get_set_same.
      * assert (Hout : forall v, dict_get m (d ++ [(m0, v)]) = dict_get m d).
        { intros v. rewrite <- (dict_set_fresh m0 _ d Hfresh).
          now apply dict_get_set_other. }
        rewrite Hout. reflexivity.
    + rewrite (IH Hnd _ _ _ _ (fun k Hk Hkg => Hdis k Hk (or_intror Hkg)) Hrun m).
      cbn [dict_get].
      destruct (String.eqb_spec m m0) as [-> | Hne]; [| reflexivity].
      now rewrite (dict_get_fora m0 g Hm0), Ha, Hinc.
Qed.

Lemma soma_valor_map (T : float) (d : dict alocacao) :
  soma_valor (map (fun kv => (fst kv, definir_percentual T (snd kv))) d)
  = soma_valor d.
Proof.
  unfold soma_valor. generalize 0%Qc.
  induction d as [| [k a] d IH]; intros acc; cbn [map fold_left fst snd];
    [reflexivity |].
  apply IH.
Qed.


